(** * Klore: the template definition language and the replacement engine

    A shallow embedding of [kloreParser.ts] (the parser [KloreParser] and the
    generator [generateKlore]) and of [installer.ts] (variable resolution,
    [applyReplacements], the tree walk and [installTemplate]), and of the
    template that the [create] command builds, with the properties of the
    definition format proved or refuted on it.

    Text is a list of 8-bit characters.  The 7-bit range has its JavaScript
    meaning (white space, word characters, case mapping); characters above
    127 are opaque: no white space, no word character, no case.  Objects used
    as dictionaries are finite maps over their own properties; the names
    that such an object inherits are listed in [inheritedKeys], and the
    statements about a table that is keyed by a name of the template are
    made for the names outside that list.  The file system holds
    directories and regular files, each under one path. *)

From Stdlib Require Import Ascii String List Bool Arith Lia DecimalString.
From Stdlib Require DecimalNat DecimalFacts.
From stdpp Require Import gmap strings list.
Import ListNotations.

Local Open Scope char_scope.
Local Open Scope list_scope.

(** ** Text *)

Abbreviation text := (list ascii).

(** A string literal of the source, as text. *)
Definition str (s : string) : text := list_ascii_of_string s.

Definition ceq (a b : ascii) : bool := Ascii.eqb a b.

Definition nat_in (lo hi : nat) (c : ascii) : bool :=
  Nat.leb lo (nat_of_ascii c) && Nat.leb (nat_of_ascii c) hi.

(** [\s]: tab, line feed, vertical tab, form feed, carriage return, space. *)
Definition isSpace (c : ascii) : bool := nat_in 9 13 c || ceq c " ".

Definition isUpper (c : ascii) : bool := nat_in 65 90 c.
Definition isLower (c : ascii) : bool := nat_in 97 122 c.
Definition isDigit (c : ascii) : bool := nat_in 48 57 c.
Definition isHex (c : ascii) : bool :=
  isDigit c || nat_in 65 70 c || nat_in 97 102 c.

(** [\w] *)
Definition isWord (c : ascii) : bool :=
  isUpper c || isLower c || isDigit c || ceq c "_".

(** [.] without the [s] flag: anything but a line terminator. *)
Definition isDot (c : ascii) : bool := negb (ceq c "010" || ceq c "013").

Definition upc (c : ascii) : ascii :=
  if isLower c then ascii_of_nat (nat_of_ascii c - 32) else c.
Definition loc (c : ascii) : ascii :=
  if isUpper c then ascii_of_nat (nat_of_ascii c + 32) else c.

Definition toUpperCase (s : text) : text := map upc s.
Definition toLowerCase (s : text) : text := map loc s.

Fixpoint teq (a b : text) : bool :=
  match a, b with
  | [], [] => true
  | x :: a', y :: b' => ceq x y && teq a' b'
  | _, _ => false
  end.

Fixpoint startsWith (p s : text) : bool :=
  match p, s with
  | [], _ => true
  | x :: p', y :: s' => ceq x y && startsWith p' s'
  | _ :: _, [] => false
  end.

Definition endsWith (p s : text) : bool := startsWith (rev p) (rev s).

(** [s.indexOf(p)]: the first position at which [p] occurs. *)
Fixpoint indexOf (p s : text) : option nat :=
  if startsWith p s then Some 0
  else match s with
       | [] => None
       | _ :: s' => option_map S (indexOf p s')
       end.

Definition includes (p s : text) : bool :=
  match indexOf p s with Some _ => true | None => false end.

Fixpoint trimStart (s : text) : text :=
  match s with
  | c :: s' => if isSpace c then trimStart s' else s
  | [] => []
  end.

Definition trimEnd (s : text) : text := rev (trimStart (rev s)).
Definition trim (s : text) : text := trimEnd (trimStart s).

(** [s.split(c)] for a one-character separator: never the empty list. *)
Fixpoint splitOn (c : ascii) (s : text) : list text :=
  match s with
  | [] => [[]]
  | x :: s' =>
      if ceq x c then [] :: splitOn c s'
      else match splitOn c s' with
           | l :: ls => (x :: l) :: ls
           | [] => [[x]]
           end
  end.

Fixpoint join (sep : text) (l : list text) : text :=
  match l with
  | [] => []
  | [x] => x
  | x :: l' => x ++ sep ++ join sep l'
  end.

(** [s.replace(/c/g, r)] for a one-character class: every character that
    satisfies [p] is replaced by [r c]. *)
Definition replaceChars (p : ascii -> bool) (r : ascii -> text) (s : text) : text :=
  flat_map (fun c => if p c then r c else [c]) s.

(** [s.replace(/xy/g, r)] for a two-character literal: left to right, no
    overlap. *)
Fixpoint replacePair (x y : ascii) (r : text) (s : text) : text :=
  match s with
  | a :: s1 =>
      match s1 with
      | b :: s2 =>
          if ceq a x && ceq b y then r ++ replacePair x y r s2
          else a :: replacePair x y r s1
      | [] => [a]
      end
  | [] => []
  end.

(** The text up to the first character satisfying [p], and what follows
    that character; [None] when there is none. *)
Fixpoint breakAt (p : ascii -> bool) (s : text) : option (text * text) :=
  match s with
  | [] => None
  | c :: s' =>
      if p c then Some ([], s')
      else match breakAt p s' with
           | Some (a, b) => Some (c :: a, b)
           | None => None
           end
  end.

(** The longest prefix whose characters satisfy [p], and the rest. *)
Fixpoint spanOf (p : ascii -> bool) (s : text) : text * text :=
  match s with
  | c :: s' => if p c then let '(a, b) := spanOf p s' in (c :: a, b) else ([], s)
  | [] => ([], [])
  end.

(** [x || d] for a string: the empty string is falsy. *)
Definition orText (x d : text) : text := match x with [] => d | _ => x end.

(** The double quote, written Q in the comments that quote a regular
    expression of the source. *)
Definition dq : ascii := "034".

Definition isDQuote (c : ascii) : bool := ceq c dq.
Definition isSQuote (c : ascii) : bool := ceq c "'".
Definition isQuote (c : ascii) : bool := isDQuote c || isSQuote c.

(** A regular expression with the [i] flag compares upper-cased characters. *)
Definition startsWithCI (p s : text) : bool :=
  startsWith (toUpperCase p) (toUpperCase s).

Definition notEmpty (s : text) : bool := match s with [] => false | _ => true end.

(** ** The template model ([types.ts]) *)

(** [type] is declared as a union of six literals, but it is a string at run
    time: the parser stores what it reads. *)
Module KloreVariable.
Record t := mk { name : text; type : text; defaultValue : text; required : bool }.
End KloreVariable.

Module KloreGroup.
Record t := mk { name : text; variables : list text }.
End KloreGroup.

Module KloreReplacement.
Record t := mk { original : text; variable : text; filePatterns : list text }.
End KloreReplacement.

Module KloreConditional.
Record t := mk { variable : text; replacements : list KloreReplacement.t }.
End KloreConditional.

Module KloreTemplate.
Record t := mk {
  name : text;
  version : text;
  author : text;
  description : text;
  framework : option text;
  requires : option (list text);
  variables : list KloreVariable.t;
  groups : list KloreGroup.t;
  replacements : list KloreReplacement.t;
  conditionals : list KloreConditional.t;
  onInstall : option (list text);
  aiHints : option (list text)
}.

Definition set_name x (r : t) :=
  mk x (version r) (author r) (description r) (framework r) (requires r)
     (variables r) (groups r) (replacements r) (conditionals r) (onInstall r) (aiHints r).
Definition set_version x (r : t) :=
  mk (name r) x (author r) (description r) (framework r) (requires r)
     (variables r) (groups r) (replacements r) (conditionals r) (onInstall r) (aiHints r).
Definition set_author x (r : t) :=
  mk (name r) (version r) x (description r) (framework r) (requires r)
     (variables r) (groups r) (replacements r) (conditionals r) (onInstall r) (aiHints r).
Definition set_description x (r : t) :=
  mk (name r) (version r) (author r) x (framework r) (requires r)
     (variables r) (groups r) (replacements r) (conditionals r) (onInstall r) (aiHints r).
Definition set_framework x (r : t) :=
  mk (name r) (version r) (author r) (description r) x (requires r)
     (variables r) (groups r) (replacements r) (conditionals r) (onInstall r) (aiHints r).
Definition set_requires x (r : t) :=
  mk (name r) (version r) (author r) (description r) (framework r) x
     (variables r) (groups r) (replacements r) (conditionals r) (onInstall r) (aiHints r).
Definition set_variables x (r : t) :=
  mk (name r) (version r) (author r) (description r) (framework r) (requires r)
     x (groups r) (replacements r) (conditionals r) (onInstall r) (aiHints r).
Definition set_groups x (r : t) :=
  mk (name r) (version r) (author r) (description r) (framework r) (requires r)
     (variables r) x (replacements r) (conditionals r) (onInstall r) (aiHints r).
Definition set_replacements x (r : t) :=
  mk (name r) (version r) (author r) (description r) (framework r) (requires r)
     (variables r) (groups r) x (conditionals r) (onInstall r) (aiHints r).
Definition set_onInstall x (r : t) :=
  mk (name r) (version r) (author r) (description r) (framework r) (requires r)
     (variables r) (groups r) (replacements r) (conditionals r) x (aiHints r).
Definition set_aiHints x (r : t) :=
  mk (name r) (version r) (author r) (description r) (framework r) (requires r)
     (variables r) (groups r) (replacements r) (conditionals r) (onInstall r) x.

(** [template.variables.push(v)] and its siblings; [xs?.push(x)] does
    nothing when [xs] is undefined. *)
Definition push_variable v (r : t) := set_variables (variables r ++ [v]) r.
Definition push_group g (r : t) := set_groups (groups r ++ [g]) r.
Definition push_replacement x (r : t) := set_replacements (replacements r ++ [x]) r.
Definition push_onInstall c (r : t) :=
  set_onInstall (option_map (fun l => l ++ [c]) (onInstall r)) r.
Definition push_aiHint h (r : t) :=
  set_aiHints (option_map (fun l => l ++ [h]) (aiHints r)) r.
End KloreTemplate.

Abbreviation Template := KloreTemplate.t.

(** ** The parser ([class KloreParser]) *)

(** The token that the alternation [Q[^Q]*Q|'[^']*'|\[.*?\]|\S+] matches at
    a position that holds the non-space character [c], followed by [r]. *)
Definition tokenAt (c : ascii) (r : text) : text :=
  let word := c :: fst (spanOf (fun x => negb (isSpace x)) r) in
  if isDQuote c then
    match breakAt isDQuote r with
    | Some (x, _) => c :: x ++ [c]
    | None => word
    end
  else if isSQuote c then
    match breakAt isSQuote r with
    | Some (x, _) => c :: x ++ [c]
    | None => word
    end
  else if ceq c "[" then
    match breakAt (ceq "]") r with
    | Some (x, _) => if forallb isDot x then c :: x ++ ["]"] else word
    | None => word
    end
  else word.

(** The [regex.exec] loop: [skip] characters are left to pass over, being
    part of the last match. *)
Fixpoint tokenizeFrom (skip : nat) (line : text) : list text :=
  match line with
  | [] => []
  | c :: r =>
      match skip with
      | S k => tokenizeFrom k r
      | O =>
          if isSpace c then tokenizeFrom 0 r
          else let tok := tokenAt c r in
               tok :: tokenizeFrom (length tok - 1) r
      end
  end.

Definition tokenize (line : text) : list text := tokenizeFrom 0 line.

(** [line.match] of a quoted string, double quotes first, at the leftmost
    position that has one; then [match[1] || match[2] || '']. *)
Fixpoint extractString (line : text) : text :=
  match line with
  | [] => []
  | c :: r =>
      if isDQuote c then
        match breakAt isDQuote r with
        | Some (x, _) => x
        | None => extractString r
        end
      else if isSQuote c then
        match breakAt isSQuote r with
        | Some (x, _) => x
        | None => extractString r
        end
      else extractString r
  end.

(** [s.match] of a bracketed array: group 1, from the first opening
    bracket to the first closing bracket after it. *)
Definition matchArray (s : text) : option text :=
  match breakAt (ceq "[") s with
  | Some (_, r) => option_map fst (breakAt (ceq "]") r)
  | None => None
  end.

Definition removeQuotes (s : text) : text := replaceChars isQuote (fun _ => []) s.

Definition extractArray (line : text) : list text :=
  match matchArray line with
  | None => []
  | Some g => List.filter notEmpty (map (fun s => removeQuotes (trim s)) (splitOn "," g))
  end.

Definition parseVariable (tokens : list text) : KloreVariable.t :=
  let name := match tokens !! 1 with Some x => orText x [] | None => [] end in
  let type := match tokens !! 2 with
              | Some x => orText (toUpperCase x) (str "STRING")
              | None => str "STRING"
              end in
  let defaultValue := match tokens !! 3 with
                      | Some x => if notEmpty x then removeQuotes x else []
                      | None => []
                      end in
  let required := existsb (fun x => teq (toUpperCase x) (str "REQUIRED")) tokens in
  KloreVariable.mk name type defaultValue required.

(** [/^ASK\s+(\w+)/i]: group 1. *)
Definition matchAskName (line : text) : option text :=
  if startsWithCI (str "ASK") line then
    let '(ws, r) := spanOf isSpace (drop 3 line) in
    let '(w, _) := spanOf isWord r in
    if notEmpty ws && notEmpty w then Some w else None
  else None.

(** The pattern [DEFAULT\s+Q...Q] with the [i] flag, tried at the start of
    [s]: group 1 is the text between the quotes. *)
Definition matchDefaultHere (s : text) : option text :=
  if startsWithCI (str "DEFAULT") s then
    let '(ws, r) := spanOf isSpace (drop 7 s) in
    match ws, r with
    | _ :: _, q :: r' => if isDQuote q then option_map fst (breakAt isDQuote r') else None
    | _, _ => None
    end
  else None.

(** The leftmost match of a pattern that is tried at every position. *)
Fixpoint leftmost {A} (here : text -> option A) (s : text) : option A :=
  match here s with
  | Some x => Some x
  | None => match s with
            | [] => None
            | _ :: r => leftmost here r
            end
  end.

Definition parseAsk (line : text) : KloreVariable.t :=
  let nameMatch := matchAskName line in
  let defaultMatch := leftmost matchDefaultHere line in
  let required := includes (str "REQUIRED") (toUpperCase line) in
  let name := match nameMatch with Some x => orText x [] | None => [] end in
  let defaultValue := match defaultMatch with Some x => orText x [] | None => [] end in
  let lname := toLowerCase name in
  let type :=
    if includes (str "color") lname then str "COLOR"
    else if includes (str "email") lname then str "EMAIL"
    else if includes (str "phone") lname then str "PHONE"
    else if includes (str "url") lname then str "URL"
    else str "STRING" in
  KloreVariable.mk name type defaultValue required.

Definition parseGroup (tokens : list text) : KloreGroup.t :=
  let name := match tokens !! 1 with Some x => orText x [] | None => [] end in
  let variables := match matchArray (join (str " ") tokens) with
                   | Some g => map trim (splitOn "," g)
                   | None => []
                   end in
  KloreGroup.mk name variables.

(** The no-op replacement returned on every format deviation. *)
Definition noopReplacement : KloreReplacement.t :=
  KloreReplacement.mk [] [] [str "**/*"].

(** The loop that looks for the end of the quoted original: [i] is the
    index of the head of [s] in [afterReplace]. *)
Fixpoint scanOriginal (escaped : bool) (i : nat) (s : text) : option nat :=
  match s with
  | [] => None
  | c :: r =>
      if ceq c "\" && negb escaped then scanOriginal true (S i) r
      else if isDQuote c && negb escaped then Some i
      else scanOriginal false (S i) r
  end.

(** [originalEnd], with [None] for -1. *)
Definition originalEnd (afterReplace : text) : option nat :=
  match afterReplace with
  | q :: r => if isDQuote q then scanOriginal false 1 r else None
  | [] => None
  end.

(** The three replacements of the parser, in its order: backslash-n, then
    backslash-quote, then double backslash. *)
Definition unescapeOriginal (raw : text) : text :=
  replacePair "\" "\" ["\"]
    (replacePair "\" dq [dq]
       (replacePair "\" "n" ["010"] raw)).

(** The pattern [WITH\s+[Q']?\{\{\s*(\w+)\s*\}\}[Q']?] with the [i] flag,
    tried at the start of [s]: group 1. *)
Definition matchWithHere (s : text) : option text :=
  if startsWithCI (str "WITH") s then
    let '(ws, r1) := spanOf isSpace (drop 4 s) in
    let r2 := match r1 with
              | q :: r' => if isQuote q then r' else r1
              | [] => r1
              end in
    if notEmpty ws && startsWith (str "{{") r2 then
      let '(_, r3) := spanOf isSpace (drop 2 r2) in
      let '(w, r4) := spanOf isWord r3 in
      let '(_, r5) := spanOf isSpace r4 in
      if notEmpty w && startsWith (str "}}") r5 then Some w else None
    else None
  else None.

(** The pattern [IN\s+(.+)$] with the [i] flag, tried at the start of [s]:
    group 1.  The white space is taken greedily; it gives one character
    back when nothing follows it. *)
Definition matchInHere (s : text) : option text :=
  if startsWithCI (str "IN") s then
    let '(ws, r) := spanOf isSpace (drop 2 s) in
    match ws, r with
    | [], _ => None
    | _ :: _, _ :: _ => if forallb isDot r then Some r else None
    | _ :: _, [] =>
        match rev ws with
        | l :: _ :: _ => if isDot l then Some [l] else None
        | _ => None
        end
    end
  else None.

(** [s.match(/Q[^Q]+Q/g)] with the quotes of each match removed. *)
Fixpoint quotedItems (skip : nat) (s : text) : list text :=
  match s with
  | [] => []
  | c :: r =>
      match skip with
      | S k => quotedItems k r
      | O =>
          if isDQuote c then
            match breakAt isDQuote r with
            | Some (x, _) =>
                if notEmpty x then x :: quotedItems (S (length x)) r
                else quotedItems 0 r
            | None => quotedItems 0 r
            end
          else quotedItems 0 r
      end
  end.

(** [line.substring(line.indexOf('REPLACE') + 7).trim()] *)
Definition afterReplaceOf (line : text) : text :=
  trim (drop (match indexOf (str "REPLACE") line with Some i => i | None => 0 end + 7) line).

Definition parseReplacement (line : text) : KloreReplacement.t :=
  if negb (includes (str "REPLACE") line) || negb (includes (str "WITH") line)
  then noopReplacement
  else
    let afterReplace := afterReplaceOf line in
    match originalEnd afterReplace with
    | Some e =>
        let rawOriginal := take (e - 1) (drop 1 afterReplace) in
        let original := unescapeOriginal rawOriginal in
        let remaining := drop (e + 1) afterReplace in
        let variable := match leftmost matchWithHere remaining with
                        | Some x => orText x []
                        | None => []
                        end in
        let filePatterns := match leftmost matchInHere remaining with
                            | Some g => match quotedItems 0 g with
                                        | [] => [str "**/*"]
                                        | l => l
                                        end
                            | None => [str "**/*"]
                            end in
        KloreReplacement.mk original variable filePatterns
    | None => noopReplacement
    end.

(** One line inside an [ON INSTALL] block. *)
Definition blockLine (line : text) (template : Template) : Template :=
  let trimmed := trim line in
  let upperLine := toUpperCase trimmed in
  if startsWith (str "RUN") upperLine then
    let command := extractString line in
    if notEmpty command then KloreTemplate.push_onInstall command template else template
  else if startsWith (str "REPLACE") upperLine then
    KloreTemplate.push_replacement (parseReplacement trimmed) template
  else template.

(** [parseOnInstall], entered with the cursor already moved past the
    [ON] line.  It returns the template and the cursor, which rests on the
    [END] line or past the last line.  [None] is a lack of fuel. *)
Fixpoint parseOnInstall (fuel : nat) (lines : list text) (currentLine : nat)
    (template : Template) : option (Template * nat) :=
  match fuel with
  | O => None
  | S f =>
      match lines !! currentLine with
      | None => Some (template, currentLine)
      | Some line =>
          if teq (toUpperCase line) (str "END") then Some (template, currentLine)
          else parseOnInstall f lines (S currentLine) (blockLine line template)
      end
  end.

Definition parseLine (fuel : nat) (lines : list text) (currentLine : nat)
    (line : text) (template : Template) : option (Template * nat) :=
  match tokenize line with
  | [] => Some (template, currentLine)
  | tok0 :: _ =>
      let command := toUpperCase tok0 in
      let tokens := tokenize line in
      if teq command (str "NAME") then
        Some (KloreTemplate.set_name (extractString line) template, currentLine)
      else if teq command (str "VERSION") then
        Some (KloreTemplate.set_version (extractString line) template, currentLine)
      else if teq command (str "AUTHOR") then
        Some (KloreTemplate.set_author (extractString line) template, currentLine)
      else if teq command (str "DESCRIPTION") then
        Some (KloreTemplate.set_description (extractString line) template, currentLine)
      else if teq command (str "FRAMEWORK") then
        Some (KloreTemplate.set_framework (Some (extractString line)) template, currentLine)
      else if teq command (str "REQUIRES") then
        Some (KloreTemplate.set_requires (Some (extractArray line)) template, currentLine)
      else if teq command (str "VAR") then
        Some (KloreTemplate.push_variable (parseVariable tokens) template, currentLine)
      else if teq command (str "ASK") then
        Some (KloreTemplate.push_variable (parseAsk line) template, currentLine)
      else if teq command (str "GROUP") then
        Some (KloreTemplate.push_group (parseGroup tokens) template, currentLine)
      else if teq command (str "REPLACE") then
        Some (KloreTemplate.push_replacement (parseReplacement line) template, currentLine)
      else if teq command (str "AI_HINT") then
        Some (KloreTemplate.push_aiHint (extractString line) template, currentLine)
      else if teq command (str "ON_INSTALL") || teq command (str "ON") then
        parseOnInstall fuel lines (S currentLine) template
      else Some (template, currentLine)
  end.

(** The [while] loop of [parse]: the test [currentLine < lines.length] is
    the lookup of the line. *)
Fixpoint parseLoop (fuel : nat) (lines : list text) (currentLine : nat)
    (template : Template) : option Template :=
  match fuel with
  | O => None
  | S f =>
      match lines !! currentLine with
      | None => Some template
      | Some line =>
          match parseLine f lines currentLine line template with
          | Some (template', currentLine') => parseLoop f lines (S currentLine') template'
          | None => None
          end
      end
  end.

(** [content.split('\n').map(l => l.trim()).filter(l => l && !l.startsWith('#'))] *)
Definition contentLines (content : text) : list text :=
  List.filter (fun l => notEmpty l && negb (startsWith ["#"] l))
    (map trim (splitOn "010" content)).

Definition emptyTemplate : Template :=
  KloreTemplate.mk [] (str "1.0.0") [] [] None None [] [] [] [] (Some []) (Some []).

Definition parse (fuel : nat) (content : text) : option Template :=
  parseLoop fuel (contentLines content) 0 emptyTemplate.

(** [parseKlore]: the loop takes at most one step for each line and one
    more to leave. *)
Definition parseKlore (content : text) : option Template :=
  parse (S (length (contentLines content))) content.

(** ** The generator ([generateKlore]) *)

Definition quoted (s : text) : text := dq :: s ++ [dq].

(** [xs.includes(x)] on an array of strings. *)
Definition elemT (x : text) (l : list text) : bool := existsb (teq x) l.

(** A constant object used as a table. *)
Fixpoint assoc {A} (k : text) (l : list (text * A)) : option A :=
  match l with
  | [] => None
  | (k', v) :: l' => if teq k k' then Some v else assoc k l'
  end.

Definition groupOrder : list text :=
  map str ["branding"; "colors"; "contact"; "content"; "social";
           "institution"; "legal"; "maps"; "config"]%string.

Definition groupEmojis : list (text * text) :=
  map (fun p => (str (fst p), str (snd p)))
    [("branding", "🏷️"); ("colors", "🎨"); ("contact", "📍"); ("content", "📝");
     ("social", "📱"); ("institution", "🏫"); ("legal", "⚖️"); ("maps", "🗺️");
     ("config", "⚙️")]%string.

Definition groupDescriptions : list (text * text) :=
  map (fun p => (str (fst p), str (snd p)))
    [("branding", "Brand Identity"); ("colors", "Theme Colors");
     ("contact", "Contact Information"); ("content", "Page Content");
     ("social", "Social Media"); ("institution", "Organization Info");
     ("legal", "Legal & Copyright"); ("maps", "Location & Maps");
     ("config", "Configuration")]%string.

Definition questions : list (text * list (text * text)) :=
  map (fun p => (str (fst p), map (fun q => (str (fst q), str (snd q))) (snd p)))
    [("branding",
       [("storeName", "What is your store/company name?");
        ("appName", "What is your application name?");
        ("companyName", "What is your company name?");
        ("tagline", "What is your tagline/slogan?");
        ("storeDescription", "Describe your store/company in one paragraph:")]);
     ("colors",
       [("primaryColor", "What is your primary brand color? (hex)");
        ("secondaryColor", "What is your secondary color? (hex)");
        ("accentColor", "What is your accent color? (hex)")]);
     ("contact",
       [("email", "What is your contact email?");
        ("phone", "What is your phone number?");
        ("address", "What is your business address?");
        ("businessHours", "What are your business hours?")]);
     ("social",
       [("facebookUrl", "Enter your Facebook URL:");
        ("instagramUrl", "Enter your Instagram URL:");
        ("twitterUrl", "Enter your Twitter/X URL:");
        ("youtubeUrl", "Enter your YouTube URL:")])]%string.

(** [varName.replace(/([A-Z])/g, ' $1').trim().toLowerCase()] *)
Definition readableName (varName : text) : text :=
  toLowerCase (trim (replaceChars isUpper (fun c => [" "; c]) varName)).

Definition generateSmartQuestion (varName groupKey : text) : text :=
  match assoc groupKey questions with
  | Some table =>
      match assoc varName table with
      | Some q => q
      | None => str "Enter " ++ readableName varName ++ [":"]
      end
  | None => str "Enter " ++ readableName varName ++ [":"]
  end.

(** [s.replace(/\s+/g, '-')] *)
Fixpoint dashSpaces (inRun : bool) (s : text) : text :=
  match s with
  | [] => []
  | c :: r =>
      if isSpace c then (if inRun then dashSpaces true r else "-" :: dashSpaces true r)
      else c :: dashSpaces false r
  end.

Definition bar : text := str "# ═══════════════════════════════════════".
Definition rule : text := str "# " ++ concat (repeat (str "─") 40).

(** [groups.find(g => g.variables.includes(x))] *)
Definition findGroup (groups : list KloreGroup.t) (x : text) : option KloreGroup.t :=
  List.find (fun g => elemT x (KloreGroup.variables g)) groups.

(** The loop that fills [groupedVars]. *)
Definition groupVars (template : Template) : gmap text (list KloreVariable.t) :=
  fold_left
    (fun (acc : gmap text (list KloreVariable.t)) v =>
       let groupName := match findGroup (KloreTemplate.groups template) (KloreVariable.name v) with
                        | Some g => KloreGroup.name g
                        | None => str "other"
                        end in
       <[groupName := default [] (acc !! groupName) ++ [v]]> acc)
    (KloreTemplate.variables template) ∅.

(** The loop that fills [replacementsByGroup]. *)
Definition groupReplacements (template : Template) : gmap text (list KloreReplacement.t) :=
  fold_left
    (fun (acc : gmap text (list KloreReplacement.t)) r =>
       let groupName := match findGroup (KloreTemplate.groups template) (KloreReplacement.variable r) with
                        | Some g => orText (KloreGroup.name g) (str "other")
                        | None => str "other"
                        end in
       <[groupName := default [] (acc !! groupName) ++ [r]]> acc)
    (KloreTemplate.replacements template) ∅.

Definition truncate100 (s : text) : text :=
  if Nat.ltb 100 (length s) then take 100 s ++ str "..." else s.

Definition escapeDefault (s : text) : text :=
  replaceChars (ceq "010") (fun _ => [" "])
    (replaceChars isDQuote (fun _ => ["\"; dq]) s).

Definition askLine (v : KloreVariable.t) (question defaultVal : text) : text :=
  str "ASK " ++ KloreVariable.name v ++ [" "] ++ quoted question
    ++ (if notEmpty defaultVal then str " DEFAULT " ++ quoted defaultVal else [])
    ++ (if KloreVariable.required v then str " REQUIRED" else []).

(** [groupEmojis[groupKey] || '📦'] and [groupDescriptions[groupKey] || groupKey] *)
Definition groupEmoji (groupKey : text) : text :=
  match assoc groupKey groupEmojis with
  | Some e => orText e (str "📦")
  | None => str "📦"
  end.

Definition groupDescription (groupKey : text) : text :=
  match assoc groupKey groupDescriptions with
  | Some d => orText d groupKey
  | None => groupKey
  end.

(** The lines of one group of the canonical order. *)
Definition groupSection (groupedVars : gmap text (list KloreVariable.t))
    (groupKey : text) : list text :=
  match groupedVars !! groupKey with
  | None | Some [] => []
  | Some vars =>
      [str "# " ++ groupEmoji groupKey ++ [" "] ++ toUpperCase (groupDescription groupKey); rule]
      ++ map (fun v =>
                askLine v (generateSmartQuestion (KloreVariable.name v) groupKey)
                  (escapeDefault (truncate100 (KloreVariable.defaultValue v))))
             vars
      ++ [[]]
  end.

(** The lines of the variables that are in no group. *)
Definition otherSection (groupedVars : gmap text (list KloreVariable.t)) : list text :=
  let otherVars := match groupedVars !! str "other" with
                   | Some l => Some l
                   | None => groupedVars !! str "General Settings"
                   end in
  match otherVars with
  | None | Some [] => []
  | Some vars =>
      [str "# 📦 OTHER SETTINGS"; rule]
      ++ map (fun v =>
                askLine v (generateSmartQuestion (KloreVariable.name v) (str "other"))
                  (truncate100 (escapeDefault (KloreVariable.defaultValue v))))
             vars
      ++ [[]]
  end.

(** The escaping of a REPLACE original: backslash, then quote, then line
    feed. *)
Definition escapeOriginal (original : text) : text :=
  replaceChars (ceq "010") (fun _ => ["\"; "n"])
    (replaceChars isDQuote (fun _ => ["\"; dq])
       (replaceChars (ceq "\") (fun _ => ["\"; "\"]) original)).

Definition replaceLine (r : KloreReplacement.t) : text :=
  let patterns := join [" "] (map quoted (KloreReplacement.filePatterns r)) in
  str "    REPLACE " ++ quoted (escapeOriginal (KloreReplacement.original r))
    ++ str " WITH " ++ quoted (str "{{ " ++ KloreReplacement.variable r ++ str " }}")
    ++ str " IN " ++ patterns.

Definition replacementSection (byGroup : gmap text (list KloreReplacement.t))
    (groupKey : text) : list text :=
  match byGroup !! groupKey with
  | None | Some [] => []
  | Some replacements =>
      [str "    # " ++ groupEmoji groupKey ++ [" "] ++ groupDescription groupKey]
      ++ map replaceLine replacements
      ++ [[]]
  end.

Definition runLine (cmd msg : text) : text :=
  str "    RUN " ++ quoted cmd ++ str " MESSAGE " ++ quoted msg.

Definition commandMessage (cmd : text) : text :=
  let m0 := str "Running " ++ cmd ++ str "..." in
  let m1 := if includes (str "composer install") cmd then str "Installing PHP dependencies..." else m0 in
  let m2 := if includes (str "npm install") cmd then str "Installing Node dependencies..." else m1 in
  let m3 := if includes (str "artisan migrate") cmd then str "Setting up database..." else m2 in
  if includes (str "npm run build") cmd then str "Building assets..." else m3.

Definition defaultCommands : list (text * text) :=
  map (fun p => (str (fst p), str (snd p)))
    [("composer install", "Installing PHP dependencies...");
     ("php artisan key:generate", "Generating app key...");
     ("php artisan migrate --seed", "Setting up database...");
     ("npm install", "Installing Node dependencies...");
     ("npm run build", "Building assets...")]%string.

Definition runSection (template : Template) : list text :=
  match default [] (KloreTemplate.onInstall template) with
  | [] => map (fun p => runLine (fst p) (snd p)) defaultCommands
  | commands => map (fun cmd => runLine cmd (commandMessage cmd)) commands
  end.

Definition generateLines (template : Template) : list text :=
  let groupedVars := groupVars template in
  let replacementsByGroup := groupReplacements template in
  [str "# " ++ KloreTemplate.name template ++ str " Template";
   str "# Generated by Klore AI - Comprehensive Templatization";
   [];
   str "NAME " ++ quoted (dashSpaces false (toLowerCase (KloreTemplate.name template)) ++ str "-template")]
  ++ (if notEmpty (KloreTemplate.version template)
      then [str "VERSION " ++ quoted (KloreTemplate.version template)] else [])
  ++ match KloreTemplate.framework template with
     | Some ((_ :: _) as f) => [str "FRAMEWORK " ++ quoted f]
     | _ => []
     end
  ++ [[]]
  ++ match KloreTemplate.aiHints template with
     | Some ((_ :: _) as hints) =>
         [bar; str "# PROJECT ANALYSIS"; bar] ++ map (fun h => str "# " ++ h) hints ++ [[]]
     | _ => []
     end
  ++ [bar; str "# TEMPLATE VARIABLES"; bar; []]
  ++ concat (map (groupSection groupedVars) groupOrder)
  ++ otherSection groupedVars
  ++ [bar; str "# REPLACEMENTS"; bar; [];
      str "ON INSTALL"; [];
      str "    # Setup environment";
      str "    COPY " ++ quoted (str ".env.example") ++ str " TO " ++ quoted (str ".env");
      []]
  ++ concat (map (replacementSection replacementsByGroup) (groupOrder ++ [str "other"]))
  ++ [str "    # Run setup commands"]
  ++ runSection template
  ++ [[]; str "END"; []; bar; str "# Template ready! 🚀"; bar].

Definition generateKlore (template : Template) : text :=
  join ["010"] (generateLines template).

(** ** The replacement engine ([applyReplacements]) *)

(** The characters of the class that [applyReplacements] escapes. *)
Definition isSyntaxChar (c : ascii) : bool :=
  existsb (ceq c) (str ".*+?^${}()|[]\").

(** [original.replace(/[.*+?^${}()|[\]\\]/g, '\\$&')] *)
Definition escapeRegExp (original : text) : text :=
  replaceChars isSyntaxChar (fun c => ["\"; c]) original.

(** The patterns that are a sequence of one-character atoms: a character
    standing for itself, a syntax character made literal by a backslash,
    or the dot.  [new RegExp(source, 'g')] is modelled on them; a source
    that uses any other operator is outside the fragment ([None]). *)
Inductive atom := Lit (c : ascii) | AnyChar.

Fixpoint compileRegExp (source : text) : option (list atom) :=
  match source with
  | [] => Some []
  | c :: r =>
      if ceq c "\" then
        match r with
        | e :: r' =>
            if isSyntaxChar e then option_map (cons (Lit e)) (compileRegExp r') else None
        | [] => None
        end
      else if ceq c "." then option_map (cons AnyChar) (compileRegExp r)
      else if isSyntaxChar c then None
      else option_map (cons (Lit c)) (compileRegExp r)
  end.

Definition atomMatches (a : atom) (c : ascii) : bool :=
  match a with Lit x => ceq x c | AnyChar => isDot c end.

(** The match of the pattern at the start of [s]: the matched text. *)
Fixpoint matchHere (pattern : list atom) (s : text) : option text :=
  match pattern, s with
  | [], _ => Some []
  | a :: p', c :: s' =>
      if atomMatches a c then option_map (cons c) (matchHere p' s') else None
  | _ :: _, [] => None
  end.

(** The replacement text of one match ([GetSubstitution] without capture
    groups): [$$] is a dollar, [$&] the match, [$`] what precedes it and
    [$'] what follows it in the searched string. *)
Fixpoint substitution (matched before after : text) (replaceValue : text) : text :=
  match replaceValue with
  | [] => []
  | c :: r =>
      if ceq c "$" then
        match r with
        | d :: r' =>
            if ceq d "$" then "$" :: substitution matched before after r'
            else if ceq d "&" then matched ++ substitution matched before after r'
            else if ceq d "`" then before ++ substitution matched before after r'
            else if ceq d "'" then after ++ substitution matched before after r'
            else c :: substitution matched before after r
        | [] => [c]
        end
      else c :: substitution matched before after r
  end.

(** [s.replace(regex, replaceValue)] for a global pattern that matches no
    empty text: [before] is what was read so far, [skip] what is left of
    the last match. *)
Fixpoint replaceFrom (pattern : list atom) (replaceValue : text)
    (skip : nat) (before : text) (s : text) : text :=
  match s with
  | [] => []
  | c :: r =>
      match skip with
      | S k => replaceFrom pattern replaceValue k (before ++ [c]) r
      | O =>
          match matchHere pattern s with
          | Some matched =>
              substitution matched before (drop (length matched) s) replaceValue
                ++ replaceFrom pattern replaceValue (length matched - 1) (before ++ [c]) r
          | None => c :: replaceFrom pattern replaceValue 0 (before ++ [c]) r
          end
      end
  end.

Definition replaceRegExp (pattern : list atom) (replaceValue : text) (s : text) : text :=
  replaceFrom pattern replaceValue 0 [] s.

(** One turn of the loop of [applyReplacements]. *)
Definition applyReplacement (values : gmap text text) (result : text)
    (replacement : KloreReplacement.t) : text :=
  match values !! KloreReplacement.variable replacement with
  | Some value =>
      if notEmpty (KloreReplacement.original replacement) then
        match compileRegExp (escapeRegExp (KloreReplacement.original replacement)) with
        | Some regex => replaceRegExp regex value result
        | None => result
        end
      else result
  | None => result
  end.

Definition applyReplacements (content : text) (replacements : list KloreReplacement.t)
    (values : gmap text text) : text :=
  fold_left (applyReplacement values) replacements content.

(** ** The installer ([installer.ts]) and the [install] command *)

(** A path is the list of its segments; the root is the empty list. *)
Abbreviation path := (list text).

Inductive node := File (content : text) | Dir.

(** The world an install runs in: the file system, and the answers that
    the user will give to the text prompts and to the confirmations
    ([None] is a cancellation). *)
Record World := mkWorld {
  fs : gmap path node;
  texts : list (option text);
  confirms : list (option bool)
}.

Definition set_fs (f : gmap path node) (w : World) : World :=
  mkWorld f (texts w) (confirms w).

Inductive outcome (A : Type) :=
| Returned (a : A)
| Threw (e : text)
| OutOfFuel.
Arguments Returned {A} a.
Arguments Threw {A} e.
Arguments OutOfFuel {A}.

Definition M (A : Type) : Type := World -> outcome A * World.

Definition ret {A} (a : A) : M A := fun w => (Returned a, w).
Definition throw {A} (e : text) : M A := fun w => (Threw e, w).
Definition bind {A B} (c : M A) (k : A -> M B) : M B :=
  fun w => match c w with
           | (Returned a, w') => k a w'
           | (Threw e, w') => (Threw e, w')
           | (OutOfFuel, w') => (OutOfFuel, w')
           end.
Definition tryCatch {A} (c : M A) (handler : text -> M A) : M A :=
  fun w => match c w with
           | (Threw e, w') => handler e w'
           | r => r
           end.

Notation "x <- c ;; k" := (bind c (fun x => k))
  (at level 100, c at next level, right associativity).

(** *** The file system *)

Definition nodeAt (p : path) (w : World) : option node :=
  match p with [] => Some Dir | _ => fs w !! p end.

Definition existsSync (p : path) : M bool :=
  fun w => (Returned (match nodeAt p w with Some _ => true | None => false end), w).

Definition readFile (p : path) : M text :=
  fun w => match nodeAt p w with
           | Some (File c) => (Returned c, w)
           | Some Dir => (Threw (str "EISDIR"), w)
           | None => (Threw (str "ENOENT"), w)
           end.

Definition writeFile (p : path) (c : text) : M unit :=
  fun w => match nodeAt (removelast p) w, nodeAt p w with
           | Some Dir, Some Dir => (Threw (str "EISDIR"), w)
           | Some Dir, _ => (Returned tt, set_fs (<[p := File c]> (fs w)) w)
           | Some (File _), _ => (Threw (str "ENOTDIR"), w)
           | None, _ => (Threw (str "ENOENT"), w)
           end.

Definition copyFile (src dest : path) : M unit :=
  c <- readFile src ;; writeFile dest c.

(** [mkdir(p, { recursive: true })]: the missing directories on the way to
    [p] are created; a file on the way is an error. *)
Fixpoint mkdirFrom (done todo : path) (f : gmap path node) : option (gmap path node) :=
  match todo with
  | [] => Some f
  | x :: r =>
      let q := done ++ [x] in
      match f !! q with
      | Some (File _) => None
      | Some Dir => mkdirFrom q r f
      | None => mkdirFrom q r (<[q := Dir]> f)
      end
  end.

Definition mkdir (p : path) : M unit :=
  fun w => match mkdirFrom [] p (fs w) with
           | Some f => (Returned tt, set_fs f w)
           | None => (Threw (str "EEXIST"), w)
           end.

(** [readdir(p, { withFileTypes: true })]: the name of each entry and
    whether it is a directory. *)
Definition entriesOf (p : path) (f : gmap path node) : list (text * bool) :=
  omap (fun '(q, n) =>
          match last q with
          | Some name =>
              if bool_decide (removelast q = p)
              then Some (name, match n with Dir => true | File _ => false end)
              else None
          | None => None
          end)
       (map_to_list f).

Definition readdir (p : path) : M (list (text * bool)) :=
  fun w => match nodeAt p w with
           | Some Dir => (Returned (entriesOf p (fs w)), w)
           | Some (File _) => (Threw (str "ENOTDIR"), w)
           | None => (Threw (str "ENOENT"), w)
           end.

(** *** The prompts

    The prompt library is not part of the repository.  A text prompt reads
    answers until one passes [validate]; a rejected answer is asked again;
    an accepted empty answer becomes the default value; a cancellation, or
    the end of the input, returns the cancel symbol ([None]). *)
Fixpoint readText (validate : text -> option text) (defaultValue : text)
    (answers : list (option text)) : option text * list (option text) :=
  match answers with
  | [] => (None, [])
  | None :: rest => (None, rest)
  | Some value :: rest =>
      match validate value with
      | Some _ => readText validate defaultValue rest
      | None => (Some (orText value defaultValue), rest)
      end
  end.

Definition p_text (validate : text -> option text) (defaultValue : text) : M (option text) :=
  fun w => let '(r, rest) := readText validate defaultValue (texts w) in
           (Returned r, mkWorld (fs w) rest (confirms w)).

Definition p_confirm : M (option bool) :=
  fun w => match confirms w with
           | [] => (Returned None, w)
           | a :: rest => (Returned a, mkWorld (fs w) (texts w) rest)
           end.

(** *** Variable resolution *)

(** [/^[^\s@]+@[^\s@]+\.[^\s@]+$/.test(value)] *)
Definition isEmail (value : text) : bool :=
  let plain := fun c => negb (isSpace c || ceq c "@") in
  match breakAt (ceq "@") value with
  | Some (a, d) =>
      notEmpty a && forallb plain a && forallb plain d
      && existsb (ceq ".") (removelast (tl d))
  | None => false
  end.

(** [/^#([0-9A-Fa-f]{3}|[0-9A-Fa-f]{6})$/.test(value)] *)
Definition isColor (value : text) : bool :=
  match value with
  | c :: h => ceq c "#" && forallb isHex h && (Nat.eqb (length h) 3 || Nat.eqb (length h) 6)
  | [] => false
  end.

(** [/^[\d\s\-\+\(\)]+$/.test(value)] *)
Definition isPhone (value : text) : bool :=
  notEmpty value
  && forallb (fun c => isDigit c || isSpace c || existsb (ceq c) (str "-+()")) value.

Module InstallOptions.
Record t := mk {
  templatePath : path;
  outputPath : path;
  force : option bool;
  values : option (gmap text text)
}.
End InstallOptions.

Module InstallResult.
Record t := mk {
  success : bool;
  outputPath : path;
  filesCreated : nat;
  replacementsApplied : nat;
  errors : list text
}.
End InstallResult.

Section Install.

(** [new URL(value)] does not throw. *)
Variable URL_parses : text -> bool.

(** A child process run by the shell in a directory: what it does to the
    file system, and its exit code ([None] when it cannot be spawned). *)
Variable spawn : text -> path -> gmap path node -> gmap path node * option nat.

(** [path.resolve] against the working directory. *)
Variable resolve : text -> path.

Definition validateInput (value : text) (variable : KloreVariable.t) : option text :=
  if KloreVariable.required variable && negb (notEmpty (trim value)) then
    Some (str "This field is required")
  else if negb (notEmpty (trim value)) then None
  else if teq (KloreVariable.type variable) (str "EMAIL") then
    if negb (isEmail value) then Some (str "Please enter a valid email address") else None
  else if teq (KloreVariable.type variable) (str "COLOR") then
    if negb (isColor value) then Some (str "Please enter a valid hex color (e.g., #FF7800)") else None
  else if teq (KloreVariable.type variable) (str "PHONE") then
    if negb (isPhone value) then Some (str "Please enter a valid phone number") else None
  else if teq (KloreVariable.type variable) (str "URL") then
    if URL_parses value then None
    else if notEmpty value && negb (teq value ["#"]) then Some (str "Please enter a valid URL")
    else None
  else None.

(** [template.variables.filter] with the set [seenNames]. *)
Fixpoint uniqueVariables (seenNames : list text) (vars : list KloreVariable.t)
    : list KloreVariable.t :=
  match vars with
  | [] => []
  | v :: r =>
      if elemT (KloreVariable.name v) seenNames then uniqueVariables seenNames r
      else v :: uniqueVariables (KloreVariable.name v :: seenNames) r
  end.

(** The loop that fills the map [grouped] and the array [ungrouped]. *)
Definition groupForPrompt (groups : list KloreGroup.t) (vars : list KloreVariable.t)
    : gmap text (list KloreVariable.t) * list KloreVariable.t :=
  fold_left
    (fun (acc : gmap text (list KloreVariable.t) * list KloreVariable.t) v =>
       match findGroup groups (KloreVariable.name v) with
       | Some g =>
           (<[KloreGroup.name g := default [] (acc.1 !! KloreGroup.name g) ++ [v]]> acc.1, acc.2)
       | None => (acc.1, acc.2 ++ [v])
       end)
    vars (∅, []).

Definition promptOrder : list text :=
  map str ["branding"; "colors"; "contact"; "content"; "social";
           "institution"; "legal"]%string.

(** The body of the two loops over variables: a prefilled value that is
    not empty is taken as it is, anything else is asked for.  [None] is
    the cancellation of the prompt. *)
Fixpoint promptEach (prefilledValues : option (gmap text text))
    (vars : list KloreVariable.t) (values : gmap text text)
    : M (option (gmap text text)) :=
  match vars with
  | [] => ret (Some values)
  | variable :: rest =>
      let name := KloreVariable.name variable in
      match match prefilledValues with
            | Some pre => match pre !! name with
                          | Some ((_ :: _) as x) => Some x
                          | _ => None
                          end
            | None => None
            end with
      | Some x => promptEach prefilledValues rest (<[name := x]> values)
      | None =>
          result <- p_text (fun value => validateInput value variable)
                      (KloreVariable.defaultValue variable) ;;
          match result with
          | None => ret None
          | Some r =>
              promptEach prefilledValues rest
                (<[name := orText r (KloreVariable.defaultValue variable)]> values)
          end
      end
  end.

Fixpoint promptGroups (prefilledValues : option (gmap text text))
    (grouped : gmap text (list KloreVariable.t)) (order : list text)
    (values : gmap text text) : M (option (gmap text text)) :=
  match order with
  | [] => ret (Some values)
  | groupName :: rest =>
      r <- promptEach prefilledValues (default [] (grouped !! groupName)) values ;;
      match r with
      | None => ret None
      | Some values' => promptGroups prefilledValues grouped rest values'
      end
  end.

Definition promptVariables (template : Template)
    (prefilledValues : option (gmap text text)) : M (option (gmap text text)) :=
  let unique := uniqueVariables [] (KloreTemplate.variables template) in
  let '(grouped, ungrouped) := groupForPrompt (KloreTemplate.groups template) unique in
  r <- promptGroups prefilledValues grouped promptOrder ∅ ;;
  match r with
  | None => ret None
  | Some values => promptEach prefilledValues ungrouped values
  end.

(** *** The tree walk *)

(** [path.extname] of an entry name: from the last dot to the end, and
    empty when there is no dot, when the only dot opens the name, or
    when the name is two dots. *)
Definition extname (name : text) : text :=
  match breakAt (ceq ".") (rev name) with
  | Some (afterDot, beforeDot) =>
      if notEmpty beforeDot && negb (teq name (str "..")) then "." :: rev afterDot else []
  | None => []
  end.

Definition textExtensions : list text :=
  map str [".php"; ".js"; ".ts"; ".jsx"; ".tsx"; ".vue"; ".svelte";
           ".html"; ".htm"; ".css"; ".scss"; ".less";
           ".json"; ".xml"; ".yaml"; ".yml"; ".toml";
           ".md"; ".txt"; ".env.example"; ".gitignore";
           ".blade.php"; ".twig"; ".ejs"; ".pug"]%string.

Definition isTextFile (name : text) : bool :=
  elemT (toLowerCase (extname name)) textExtensions
  || endsWith (str ".blade.php") name
  || teq name (str ".env.example").

Definition excludeNames : list text :=
  map str [".klore"; "node_modules"; "vendor"; ".git"]%string.

(** [processDir], with the two counters of the enclosing function passed
    along.  [fuel] bounds the depth of the recursion. *)
Fixpoint processDir (fuel : nat) (replacements : list KloreReplacement.t)
    (values : gmap text text) (src dest : path) (counts : nat * nat) : M (nat * nat) :=
  match fuel with
  | O => fun w => (OutOfFuel, w)
  | S f =>
      entries <- readdir src ;;
      _ <- mkdir dest ;;
      (fix each (entries : list (text * bool)) (counts : nat * nat) : M (nat * nat) :=
         match entries with
         | [] => ret counts
         | (name, isDirectory) :: rest =>
             let srcPath := src ++ [name] in
             let destPath := dest ++ [name] in
             if elemT name excludeNames then each rest counts
             else if isDirectory then
               counts' <- processDir f replacements values srcPath destPath counts ;;
               each rest counts'
             else if isTextFile name then
               content <- readFile srcPath ;;
               let replaced := applyReplacements content replacements values in
               _ <- writeFile destPath replaced ;;
               each rest (S counts.1, if teq content replaced then counts.2 else S counts.2)
             else
               _ <- copyFile srcPath destPath ;;
               each rest (S counts.1, counts.2)
         end) entries counts
  end.

Definition copyWithReplacements (fuel : nat) (srcDir destDir : path)
    (replacements : list KloreReplacement.t) (values : gmap text text) : M (nat * nat) :=
  processDir fuel replacements values srcDir destDir (0, 0).

(** *** The post-install commands *)

Definition showNat (n : nat) : text :=
  str (DecimalString.NilZero.string_of_uint (Nat.to_uint n)).

Fixpoint runPostInstall (commands : list text) (cwd : path) : M unit :=
  match commands with
  | [] => ret tt
  | cmd :: rest =>
      r <- (fun w => let '(f, code) := spawn cmd cwd (fs w) in
                     (Returned code, set_fs f w)) ;;
      match r with
      | Some O => runPostInstall rest cwd
      | Some code => throw (str "Command failed with code " ++ showNat code)
      | None => throw (str "spawn error")
      end
  end.

(** *** [installTemplate] *)

Definition readKloreFile (templatePath : path) : M (option Template) :=
  let klorePath := templatePath ++ [str ".klore"] in
  present <- existsSync klorePath ;;
  if negb present then ret None
  else
    content <- readFile klorePath ;;
    match parseKlore content with
    | Some template => ret (Some template)
    | None => fun w => (OutOfFuel, w)
    end.

Definition failed (options : InstallOptions.t) (error : text) : InstallResult.t :=
  InstallResult.mk false (InstallOptions.outputPath options) 0 0 [error].

(** The [try] block of [installTemplate]: the copy, then the post-install
    commands; anything thrown in it becomes a failed result. *)
Definition materialize (fuel : nat) (options : InstallOptions.t)
  (template : Template) (values : gmap text text) : M InstallResult.t :=
tryCatch
  (counts <- copyWithReplacements fuel
               (InstallOptions.templatePath options)
               (InstallOptions.outputPath options)
               (KloreTemplate.replacements template) values ;;
   errors <- match KloreTemplate.onInstall template with
             | Some ((_ :: _) as commands) =>
                 shouldRun <- p_confirm ;;
                 match shouldRun with
                 | Some true =>
                     tryCatch
                       (_ <- runPostInstall commands (InstallOptions.outputPath options) ;;
                        ret [])
                       (fun e => ret [str "Post-install error: " ++ e])
                 | _ => ret []
                 end
             | _ => ret []
             end ;;
   ret (InstallResult.mk true (InstallOptions.outputPath options)
          counts.1 counts.2 errors))
  (fun e => ret (failed options e)).

Definition installTemplate (fuel : nat) (options : InstallOptions.t) : M InstallResult.t :=
template <- readKloreFile (InstallOptions.templatePath options) ;;
match template with
| None => ret (failed options (str "No .klore file found in template directory"))
| Some template =>
    present <- existsSync (InstallOptions.outputPath options) ;;
    if present && negb (default false (InstallOptions.force options)) then
      ret (failed options (str "Output directory already exists. Use --force to overwrite."))
    else
      values <- match InstallOptions.values options with
                | Some values => ret (Some values)
                | None => promptVariables template None
                end ;;
      match values with
      | None => ret (failed options (str "Installation cancelled by user"))
      | Some values => materialize fuel options template values
      end
end.

(** *** The action of the [install] command *)

(** How the command ends: with the result it prints, or with
    [process.exit]. *)
Inductive ending := Printed (result : InstallResult.t) | Exit (code : nat).

(** [prefilledValues], filled from the defaults of the variables. *)
Definition defaultValues (template : Template) : gmap text text :=
  fold_left
    (fun (acc : gmap text text) v =>
       <[KloreVariable.name v := orText (KloreVariable.defaultValue v) []]> acc)
    (KloreTemplate.variables template) ∅.

Definition installAction (fuel : nat) (templatePath : text)
    (output : option text) (force defaults : option bool) : M ending :=
  tryCatch
    (let fullTemplatePath := resolve templatePath in
     template <- readKloreFile fullTemplatePath ;;
     match template with
     | None => throw (str "No .klore file found in template directory")
     | Some template =>
         outputPath <- match output with
                       | Some ((_ :: _) as o) => ret (Some o)
                       | _ => p_text (fun value =>
                                        if notEmpty (trim value) then None
                                        else Some (str "Output path is required")) []
                       end ;;
         match outputPath with
         | None => ret (Exit 0)
         | Some outputPath =>
             let prefilledValues :=
               if default false defaults then Some (defaultValues template) else None in
             result <- installTemplate fuel
                         (InstallOptions.mk fullTemplatePath (resolve outputPath)
                            force prefilledValues) ;;
             if InstallResult.success result then ret (Printed result)
             else throw (str "Installation failed: "
                           ++ join (str ", ") (InstallResult.errors result))
         end
     end)
    (fun _ => ret (Exit 1)).

End Install.

(** ** The [create] command: building the template *)

Module DetectedContent.
Record t := mk { type : text; value : text; filePath : text; line : nat; column : nat }.
End DetectedContent.

Definition mapContentTypeToVarType (type : text) : text :=
  if teq type (str "color") then str "COLOR"
  else if teq type (str "email") then str "EMAIL"
  else if teq type (str "phone") then str "PHONE"
  else if teq type (str "url") then str "URL"
  else str "STRING".

Definition mapContentTypeToVarName (type : text) : text :=
  if teq type (str "app_name") then str "appName"
  else if teq type (str "environment_variable") then str "configValue"
  else if teq type (str "text_content") then str "contentText"
  else if teq type (str "color") then str "brandColor"
  else if teq type (str "email") then str "contactEmail"
  else if teq type (str "phone") then str "phone"
  else if teq type (str "url") then str "websiteUrl"
  else str "variable".

(** One entry of the map [valueGroups]: a value, the type of the item
    that set it, and the set of the files in which it was found.  A
    [Map] and a [Set] keep the order in which their keys were added. *)
Abbreviation valueGroup := (text * (text * list text))%type.

(** One turn of the loop that fills [valueGroups]. *)
Definition addValue (groups : list valueGroup) (item : DetectedContent.t) : list valueGroup :=
  let groups' :=
    match assoc (DetectedContent.value item) groups with
    | Some _ => groups
    | None => groups ++ [(DetectedContent.value item, (DetectedContent.type item, []))]
    end in
  map (fun e : valueGroup =>
         if teq (DetectedContent.value item) e.1
         then (e.1, (e.2.1,
                     if elemT (DetectedContent.filePath item) e.2.2 then e.2.2
                     else e.2.2 ++ [DetectedContent.filePath item]))
         else e)
      groups'.

Definition valueGroups (content : list DetectedContent.t) : list valueGroup :=
  fold_left addValue content [].

(** The name of the variable of an entry: the base name, followed by the
    number of the entries that took it before, when there are some. *)
Definition variableName (baseName : text) (count : nat) : text :=
  if Nat.eqb count 0 then baseName else baseName ++ showNat count.

(** One turn of the loop over the entries of [valueGroups]: the counters
    [varNames] and the template. *)
Definition extractValue (state : gmap text nat * Template) (entry : valueGroup)
    : gmap text nat * Template :=
  let baseName := mapContentTypeToVarName entry.2.1 in
  let count := default 0 (state.1 !! baseName) in
  let varName := variableName baseName count in
  (<[baseName := count + 1]> state.1,
   KloreTemplate.push_replacement
     (KloreReplacement.mk entry.1 varName entry.2.2)
     (KloreTemplate.push_variable
        (KloreVariable.mk varName (mapContentTypeToVarType entry.2.1) entry.1
           (teq entry.2.1 (str "app_name") || teq entry.2.1 (str "email")))
        state.2)).

Definition useBasicExtraction (template : Template) (content : list DetectedContent.t)
    : Template :=
  (fold_left extractValue (valueGroups content) (∅, template)).2.

(** An item that the AI service returns, with the file it was found in. *)
Module ReplaceableContent.
Record t := mk {
  type : text;
  value : text;
  context : text;
  suggestedName : text;
  group : text;
  filePath : text
}.
End ReplaceableContent.

(** [groupMap], in the order in which its keys were set. *)
Definition addToGroup (groupMap : list (text * list text)) (group name : text)
    : list (text * list text) :=
  match assoc group groupMap with
  | Some _ => map (fun e : text * list text =>
                     if teq group e.1 then (e.1, e.2 ++ [name]) else e) groupMap
  | None => groupMap ++ [(group, [name])]
  end.

(** One turn of the loop over the replaceable items. *)
Definition addReplaceable (state : Template * list (text * list text))
    (item : ReplaceableContent.t) : Template * list (text * list text) :=
  (KloreTemplate.push_replacement
     (KloreReplacement.mk (ReplaceableContent.value item)
        (ReplaceableContent.suggestedName item) [ReplaceableContent.filePath item])
     (KloreTemplate.push_variable
        (KloreVariable.mk (ReplaceableContent.suggestedName item) (str "STRING")
           (ReplaceableContent.value item)
           (teq (ReplaceableContent.group item) (str "branding")))
        state.1),
   addToGroup state.2 (ReplaceableContent.group item) (ReplaceableContent.suggestedName item)).

(** The branch of the [create] command that takes the items of the AI
    service. *)
Definition useSmartExtraction (template : Template) (projectType description : text)
    (replaceables : list ReplaceableContent.t) : Template :=
  let '(filled, groupMap) := fold_left addReplaceable replaceables (template, []) in
  KloreTemplate.set_aiHints
    (Some [str "Project Type: " ++ projectType; str "Description: " ++ description])
    (KloreTemplate.set_groups (map (fun e => KloreGroup.mk e.1 e.2) groupMap) filled).

(** The install commands that the [create] command adds for the package
    managers of the project. *)
Definition addInstallCommands (packageManagers : list text) (template : Template) : Template :=
  fold_left
    (fun t pm =>
       if elemT pm (map str ["npm"; "pnpm"; "yarn"; "bun"]%string)
       then KloreTemplate.push_onInstall (pm ++ str " install") t
       else if teq pm (str "composer")
            then KloreTemplate.push_onInstall (str "composer install") t
            else t)
    packageManagers template.

(** The template that the [create] command builds and hands to
    [generateKlore]: [name] is the name option, [baseName] the last
    segment of the project path, [analysis] what the AI service returned
    when it was used. *)
Definition createTemplate (name : option text) (baseName : text) (framework : option text)
    (analysis : option (text * text * list ReplaceableContent.t))
    (content : list DetectedContent.t) (packageManagers : list text) : Template :=
  let template :=
    KloreTemplate.mk
      (match name with Some ((_ :: _) as n) => n | _ => baseName ++ str " Template" end)
      (str "1.0.0") [] (str "Template created from " ++ baseName)
      (match framework with Some ((_ :: _) as f) => Some f | _ => None end)
      None [] [] [] [] (Some []) (Some []) in
  let filled :=
    match analysis with
    | Some (projectType, description, (_ :: _) as replaceables) =>
        useSmartExtraction template projectType description replaceables
    | _ => useBasicExtraction template content
    end in
  addInstallCommands packageManagers filled.

(** ** The inputs on which the model is exact

    The tables of the generator and of the installer are plain objects.
    Such an object answers to the property names of [Object.prototype]
    also when nothing was stored under them ([toString] is a function,
    [__proto__] the prototype itself, which an assignment of a string does
    not change), and a finite map does not.  Where a table is keyed by a
    name that comes from the template, the statements are made for the
    names outside the list below. *)
Definition inheritedKeys : list text :=
  map str ["constructor"; "__proto__"; "hasOwnProperty"; "isPrototypeOf";
           "propertyIsEnumerable"; "toLocaleString"; "toString"; "valueOf";
           "__defineGetter__"; "__defineSetter__"; "__lookupGetter__";
           "__lookupSetter__"]%string.

Definition ownKey (k : text) : bool := negb (elemT k inheritedKeys).

(** No group of the template, and no variable of it, is named as an
    inherited property. *)
Definition ownGroups (template : Template) : bool :=
  forallb (fun g => ownKey (KloreGroup.name g)) (KloreTemplate.groups template).

Definition ownNames (template : Template) : bool :=
  forallb (fun v => ownKey (KloreVariable.name v)) (KloreTemplate.variables template).

(** Text of the 7-bit range, where white space, case and length are in
    the model what they are in JavaScript. *)
Definition sevenBit (s : text) : bool :=
  forallb (fun c => Nat.ltb (nat_of_ascii c) 128) s.

Definition sevenBitVariables (template : Template) : bool :=
  forallb (fun v => sevenBit (KloreVariable.name v) && sevenBit (KloreVariable.defaultValue v))
    (KloreTemplate.variables template).

(** * Properties *)

(** ** Characters and text *)

Lemma ceq_eq (a b : ascii) : ceq a b = true <-> a = b.
Proof. apply Ascii.eqb_eq. Qed.

Lemma ceq_refl (a : ascii) : ceq a a = true.
Proof. apply Ascii.eqb_refl. Qed.

Lemma ceq_neq (a b : ascii) : ceq a b = false <-> a <> b.
Proof. apply Ascii.eqb_neq. Qed.

Lemma ceq_sym (a b : ascii) : ceq a b = ceq b a.
Proof. apply Ascii.eqb_sym. Qed.

Lemma teq_eq (a b : text) : teq a b = true <-> a = b.
Proof.
  revert b. induction a as [|x a IH]; intros [|y b]; simpl; split; try congruence; try done.
  - intros [Hxy Hab]%andb_true_iff. apply ceq_eq in Hxy. apply IH in Hab. congruence.
  - intros [= -> ->]. rewrite ceq_refl. simpl. by apply IH.
Qed.

Lemma teq_refl (a : text) : teq a a = true.
Proof. by apply teq_eq. Qed.

Lemma teq_neq (a b : text) : teq a b = false <-> a <> b.
Proof.
  split.
  - intros H E. apply teq_eq in E. congruence.
  - intros H. destruct (teq a b) eqn:E; [|done]. apply teq_eq in E. done.
Qed.

Lemma startsWith_app (p s : text) : startsWith p (p ++ s) = true.
Proof. induction p as [|x p IH]; simpl; [done|]. by rewrite ceq_refl. Qed.

Lemma startsWith_spec (p s : text) :
  startsWith p s = true <-> exists r, s = p ++ r.
Proof.
  revert s. induction p as [|x p IH]; intros s; simpl.
  - split; eauto.
  - destruct s as [|y s].
    + split; [done|]. by intros [r Hr].
    + rewrite andb_true_iff, ceq_eq, IH. split.
      * intros [-> [r ->]]. eauto.
      * intros [r [= -> ->]]. eauto.
Qed.

(** ** The tokens of a line *)

Lemma tokenAt_cons (c : ascii) (r : text) : exists x, tokenAt c r = c :: x.
Proof.
  unfold tokenAt.
  repeat match goal with
         | |- context [if ?b then _ else _] => destruct b
         | |- context [match ?o with Some _ => _ | None => _ end] => destruct o as [[? ?]|]
         end; eauto.
Qed.

Lemma tokenizeFrom_notEmpty (line : text) :
  forall skip, Forall (fun tok => notEmpty tok = true) (tokenizeFrom skip line).
Proof.
  induction line as [|c r IH]; intros skip; simpl; [constructor|].
  destruct skip; [|apply IH].
  destruct (isSpace c); [apply IH|].
  constructor; [|apply IH].
  destruct (tokenAt_cons c r) as [x ->]. done.
Qed.

(** Every token is a non-empty piece of the line. *)
Lemma tokenize_notEmpty (line : text) :
  Forall (fun tok => notEmpty tok = true) (tokenize line).
Proof. apply tokenizeFrom_notEmpty. Qed.

(** ** The type of a VAR line *)

(** The types that [KloreVariable] declares. *)
Definition recognizedTypes : list text :=
  map str ["STRING"; "COLOR"; "EMAIL"; "PHONE"; "URL"; "NUMBER"]%string.

(** C8, as the code has it: the type of a parsed VAR line is STRING when
    the line has no third token, and otherwise the third token in upper
    case, whether it names a recognized type or not. *)
Theorem parseVariable_type (line : text) :
  KloreVariable.type (parseVariable (tokenize line)) =
    match tokenize line !! 2 with
    | Some tok => toUpperCase tok
    | None => str "STRING"
    end.
Proof.
  unfold parseVariable. simpl.
  destruct (tokenize line !! 2) as [tok|] eqn:E; [|done].
  assert (notEmpty tok = true) as Hne.
  { pose proof (tokenize_notEmpty line) as HF.
    rewrite Forall_forall in HF. apply HF. eapply list_elem_of_lookup_2, E. }
  destruct tok; [done|]. done.
Qed.

(** C8 fails as stated: a VAR line whose type token is none of the six
    recognized types keeps that token as its type. *)
Lemma parseVariable_type_unrecognized :
  let line := str "VAR accent BOGUS" in
  tokenize line !! 2 = Some (str "BOGUS")
  /\ elemT (str "BOGUS") recognizedTypes = false
  /\ KloreVariable.type (parseVariable (tokenize line)) = str "BOGUS"
  /\ KloreVariable.type (parseVariable (tokenize line)) <> str "STRING".
Proof. vm_compute. repeat split; congruence. Qed.

(** ** Escaping and unescaping of a REPLACE original *)

(** What the three passes of [escapeOriginal] do to one character. *)
Definition escapeChar (c : ascii) : text :=
  if ceq c "\" then ["\"; "\"]
  else if ceq c dq then ["\"; dq]
  else if ceq c "010" then ["\"; "n"]
  else [c].

Lemma escapeOriginal_flat (s : text) : escapeOriginal s = flat_map escapeChar s.
Proof.
  unfold escapeOriginal, replaceChars.
  induction s as [|c s IH]; [done|].
  cbn [flat_map]. rewrite !flat_map_app, IH. f_equal.
  unfold escapeChar, isDQuote. rewrite (ceq_sym "\" c).
  destruct (ceq c "\") eqn:E1.
  { apply ceq_eq in E1. subst c. reflexivity. }
  cbn [flat_map app]. rewrite app_nil_r.
  destruct (ceq c dq) eqn:E2.
  { apply ceq_eq in E2. subst c. reflexivity. }
  cbn [flat_map app]. rewrite app_nil_r, (ceq_sym "010" c). done.
Qed.

Lemma replacePair_nil x y r : replacePair x y r [] = [].
Proof. done. Qed.

Lemma replacePair_match x y r s :
  replacePair x y r (x :: y :: s) = r ++ replacePair x y r s.
Proof. simpl. by rewrite !ceq_refl. Qed.

Lemma replacePair_skip x y r a s :
  a <> x -> replacePair x y r (a :: s) = a :: replacePair x y r s.
Proof.
  intros H%ceq_neq. destruct s as [|b s]; simpl; [done|]. by rewrite H.
Qed.

Lemma replacePair_keep x y r s :
  match s with b :: _ => b <> y | [] => True end ->
  replacePair x y r (x :: s) = x :: replacePair x y r s.
Proof.
  destruct s as [|b s]; [done|]. intros H%ceq_neq.
  cbn [replacePair]. by rewrite H, andb_false_r.
Qed.

(** No backslash of [s] is followed by the letter n. *)
Fixpoint noBackslashN (s : text) : bool :=
  match s with
  | a :: r =>
      match r with
      | b :: _ => negb (ceq a "\" && ceq b "n") && noBackslashN r
      | [] => true
      end
  | [] => true
  end.

(** The text after the first pass of the parser, when it meets no
    backslash followed by n in the source text. *)
Definition afterPass1 (c : ascii) : text :=
  if ceq c "\" then ["\"; "\"]
  else if ceq c dq then ["\"; dq]
  else [c].

Definition afterPass2 (c : ascii) : text :=
  if ceq c "\" then ["\"; "\"] else [c].

Lemma escapeChar_head c s :
  exists h t, escapeChar c ++ s = h :: t /\ (h = "n" -> c = "n").
Proof.
  unfold escapeChar.
  destruct (ceq c "\"); [eexists _, _; split; [reflexivity|discriminate]|].
  destruct (ceq c dq); [eexists _, _; split; [reflexivity|discriminate]|].
  destruct (ceq c "010"); [eexists _, _; split; [reflexivity|discriminate]|].
  eexists _, _; split; [reflexivity|done].
Qed.

Lemma pass1 (s : text) :
  noBackslashN s = true ->
  replacePair "\" "n" ["010"] (flat_map escapeChar s) = flat_map afterPass1 s.
Proof.
  induction s as [|c s IH]; [done|]. intros Hs.
  assert (noBackslashN s = true) as Hs'.
  { simpl in Hs. destruct s; [done|]. by apply andb_true_iff in Hs as [_ ?]. }
  specialize (IH Hs'). cbn [flat_map]. unfold escapeChar at 1, afterPass1 at 1.
  destruct (ceq c "\") eqn:E1.
  - apply ceq_eq in E1. subst c. cbn [app].
    rewrite replacePair_keep by discriminate.
    rewrite replacePair_keep; [by rewrite IH|].
    destruct s as [|d s]; [done|]. cbn [flat_map].
    destruct (escapeChar_head d (flat_map escapeChar s)) as (h & t & -> & Hh).
    intros ->. specialize (Hh eq_refl). subst d.
    simpl in Hs. done.
  - apply ceq_neq in E1. destruct (ceq c dq) eqn:E2.
    + apply ceq_eq in E2. subst c. cbn [app].
      rewrite replacePair_keep by discriminate.
      rewrite replacePair_skip by discriminate. by rewrite IH.
    + destruct (ceq c "010") eqn:E3.
      * apply ceq_eq in E3. subst c. cbn [app].
        rewrite replacePair_match. by rewrite IH.
      * cbn [app]. rewrite replacePair_skip by done. by rewrite IH.
Qed.

Lemma pass2 (s : text) :
  replacePair "\" dq [dq] (flat_map afterPass1 s) = flat_map afterPass2 s.
Proof.
  induction s as [|c s IH]; [done|].
  cbn [flat_map]. unfold afterPass1 at 1, afterPass2 at 1.
  destruct (ceq c "\") eqn:E1.
  - apply ceq_eq in E1. subst c. cbn [app].
    rewrite replacePair_keep by discriminate.
    rewrite replacePair_keep; [by rewrite IH|].
    destruct s as [|d s]; [done|]. cbn [flat_map]. unfold afterPass1 at 1.
    destruct (ceq d "\"); [discriminate|].
    destruct (ceq d dq) eqn:E; [discriminate|]. apply ceq_neq in E. done.
  - apply ceq_neq in E1. destruct (ceq c dq) eqn:E2.
    + apply ceq_eq in E2. subst c. cbn [app].
      rewrite replacePair_match. by rewrite IH.
    + cbn [app]. rewrite replacePair_skip by done. by rewrite IH.
Qed.

Lemma pass3 (s : text) :
  replacePair "\" "\" ["\"] (flat_map afterPass2 s) = s.
Proof.
  induction s as [|c s IH]; [done|].
  cbn [flat_map]. unfold afterPass2 at 1.
  destruct (ceq c "\") eqn:E1.
  - apply ceq_eq in E1. subst c. cbn [app].
    rewrite replacePair_match. by rewrite IH.
  - apply ceq_neq in E1. cbn [app]. rewrite replacePair_skip by done. by rewrite IH.
Qed.

(** The parser inverts the escaping of the generator on every text in
    which no backslash is followed by the letter n; a line feed is among
    the characters that survive. *)
Lemma unescape_escape (s : text) :
  noBackslashN s = true -> unescapeOriginal (escapeOriginal s) = s.
Proof.
  intros Hs. unfold unescapeOriginal.
  by rewrite escapeOriginal_flat, pass1, pass2, pass3.
Qed.

(** C2, the defect: a backslash followed by the letter n does not come
    back.  The generator writes it as two backslashes and an n; the first
    pass of the parser takes the second backslash and the n for an
    escaped line feed. *)
Theorem unescape_escape_backslash_n :
  let s := str "C:\new" in
  escapeOriginal s = str "C:\\new"
  /\ unescapeOriginal (escapeOriginal s) = str "C:\" ++ "010" :: str "ew"
  /\ unescapeOriginal (escapeOriginal s) <> s.
Proof. vm_compute. repeat split; congruence. Qed.

(** The same text through a whole generated REPLACE line. *)
Lemma parseReplacement_backslash_n :
  let r := KloreReplacement.mk (str "C:\new") (str "path") [str "**/*"] in
  KloreReplacement.original (parseReplacement (trim (replaceLine r)))
  = str "C:\" ++ "010" :: str "ew".
Proof. vm_compute. reflexivity. Qed.

(** An embedded line feed alone is preserved. *)
Lemma unescape_escape_newline :
  let s := str "first" ++ "010" :: str "second" in
  unescapeOriginal (escapeOriginal s) = s.
Proof. vm_compute. reflexivity. Qed.

(** ** Literal search in [applyReplacements] *)

(** Every metacharacter of the original is neutralized: the pattern built
    from an escaped original is the sequence of its characters, each
    standing for itself. *)
Lemma compileRegExp_escapeRegExp (original : text) :
  compileRegExp (escapeRegExp original) = Some (map Lit original).
Proof.
  unfold escapeRegExp, replaceChars.
  induction original as [|c s IH]; [done|].
  cbn [flat_map map]. destruct (isSyntaxChar c) eqn:E.
  - cbn [app compileRegExp]. rewrite ceq_refl, E, IH. done.
  - cbn [app compileRegExp]. rewrite IH.
    destruct (ceq c "\") eqn:E1.
    { apply ceq_eq in E1. subst c. done. }
    destruct (ceq c ".") eqn:E2.
    { apply ceq_eq in E2. subst c. done. }
    by rewrite E.
Qed.

(** A pattern of literal atoms matches exactly where the text starts with
    its characters. *)
Lemma matchHere_literal (p s : text) :
  matchHere (map Lit p) s = if startsWith p s then Some p else None.
Proof.
  revert s. induction p as [|x p IH]; intros s; [by destruct s|].
  destruct s as [|c s]; [done|]. cbn [map matchHere atomMatches startsWith].
  destruct (ceq x c) eqn:E; [|done]. apply ceq_eq in E. subst c.
  rewrite IH. by destruct (startsWith p s).
Qed.

(** Literal-match safety: the escaped original a.b is found in a.b and not
    in axb, which the bare pattern a.b would match. *)
Lemma literal_match_safety :
  (compileRegExp (escapeRegExp (str "a.b")) = Some [Lit "a"; Lit "."; Lit "b"])
  /\ matchHere [Lit "a"; Lit "."; Lit "b"] (str "axb") = None
  /\ matchHere [Lit "a"; Lit "."; Lit "b"] (str "a.b") = Some (str "a.b")
  /\ (compileRegExp (str "a.b") = Some [Lit "a"; AnyChar; Lit "b"])
  /\ matchHere [Lit "a"; AnyChar; Lit "b"] (str "axb") = Some (str "axb").
Proof. vm_compute. repeat split. Qed.

(** A global search-and-replace of a literal, as the specification words
    it: every occurrence found from left to right, without overlap, gives
    way to the value. *)
Fixpoint replaceAllLiteral (skip : nat) (p value s : text) : text :=
  match s with
  | [] => []
  | c :: r =>
      match skip with
      | S k => replaceAllLiteral k p value r
      | O =>
          if startsWith p s then value ++ replaceAllLiteral (length p - 1) p value r
          else c :: replaceAllLiteral 0 p value r
      end
  end.

Lemma substitution_plain (matched before after value : text) :
  forallb (fun c => negb (ceq c "$")) value = true ->
  substitution matched before after value = value.
Proof.
  induction value as [|c v IH]; [done|]. cbn [forallb substitution].
  intros [Hc Hv]%andb_true_iff. apply negb_true_iff in Hc. rewrite Hc.
  by rewrite IH.
Qed.

Lemma replaceFrom_literal (p value s : text) :
  forallb (fun c => negb (ceq c "$")) value = true ->
  forall skip before,
    replaceFrom (map Lit p) value skip before s = replaceAllLiteral skip p value s.
Proof.
  intros Hv. induction s as [|c r IH]; intros skip before; [done|].
  cbn [replaceFrom replaceAllLiteral]. destruct skip; [|apply IH].
  rewrite matchHere_literal. destruct (startsWith p (c :: r)).
  - by rewrite substitution_plain, IH.
  - by rewrite IH.
Qed.

(** For a value without a dollar sign, one turn of [applyReplacements] is
    the literal search-and-replace of the original by the value. *)
Lemma applyReplacement_literal (values : gmap text text) (result value : text)
    (replacement : KloreReplacement.t) :
  values !! KloreReplacement.variable replacement = Some value ->
  KloreReplacement.original replacement <> [] ->
  forallb (fun c => negb (ceq c "$")) value = true ->
  applyReplacement values result replacement
  = replaceAllLiteral 0 (KloreReplacement.original replacement) value result.
Proof.
  intros Hv Ho Hd. unfold applyReplacement. rewrite Hv.
  destruct (KloreReplacement.original replacement) as [|c o] eqn:E; [done|].
  cbn [notEmpty]. rewrite compileRegExp_escapeRegExp.
  unfold replaceRegExp. by apply replaceFrom_literal.
Qed.

(** C3, the defect: the value is not inserted as it is.  [String.replace]
    reads a dollar sign in it as a substitution pattern, so the value
    [Fish $& Chips] comes out with the matched original in place of
    [$&], and [$$] comes out as one dollar sign. *)
Theorem applyReplacements_dollar_pattern :
  let r := KloreReplacement.mk (str "Acme") (str "companyName") [str "**/*"] in
  let content := str "<h1>Welcome to Acme</h1>" in
  applyReplacements content [r] {[ str "companyName" := str "Fish $& Chips" ]}
    = str "<h1>Welcome to Fish Acme Chips</h1>"
  /\ applyReplacements content [r] {[ str "companyName" := str "Fish $& Chips" ]}
    <> replaceAllLiteral 0 (str "Acme") (str "Fish $& Chips") content
  /\ applyReplacements content [r] {[ str "companyName" := str "Cash$$" ]}
    = str "<h1>Welcome to Cash$</h1>".
Proof. vm_compute. repeat split; congruence. Qed.

(** ** The parse loop, line by line *)

(** The line opens an [ON INSTALL] block. *)
Definition isBlockStart (line : text) : bool :=
  match tokenize line with
  | [] => false
  | tok0 :: _ => teq (toUpperCase tok0) (str "ON_INSTALL") || teq (toUpperCase tok0) (str "ON")
  end.

(** What [parseLine] does to the template on a line that opens no block. *)
Definition topLine (line : text) (template : Template) : Template :=
  match parseLine 0 [] 0 line template with
  | Some (template', _) => template'
  | None => template
  end.

(** The whole loop as a recursion on the lines that are left: [inBlock]
    tells whether the cursor is inside an [ON INSTALL] block. *)
Fixpoint parseFrom (inBlock : bool) (rest : list text) (template : Template) : Template :=
  match rest with
  | [] => template
  | line :: r =>
      if inBlock then
        if teq (toUpperCase line) (str "END") then parseFrom false r template
        else parseFrom true r (blockLine line template)
      else if isBlockStart line then parseFrom true r template
      else parseFrom false r (topLine line template)
  end.

Lemma parseLine_cases fuel lines cur line template :
  parseLine fuel lines cur line template =
    if isBlockStart line then parseOnInstall fuel lines (S cur) template
    else Some (topLine line template, cur).
Proof.
  unfold topLine, isBlockStart, parseLine.
  destruct (tokenize line) as [|tok0 toks]; [done|].
  generalize (toUpperCase tok0). intros c.
  repeat match goal with
         | |- context [teq c ?k] =>
             let E := fresh "E" in
             destruct (teq c k) eqn:E;
             [apply teq_eq in E; subst c; vm_compute; reflexivity|]
         end.
  reflexivity.
Qed.

Lemma drop_lookup_Some {A} (l : list A) (i : nat) (x : A) :
  l !! i = Some x -> drop i l = x :: drop (S i) l.
Proof. intros H. by rewrite (drop_S l x i H). Qed.

Lemma drop_lookup_None {A} (l : list A) (i : nat) :
  l !! i = None -> drop i l = [].
Proof. intros H%lookup_ge_None. by apply drop_ge. Qed.

(** With enough fuel, [parseOnInstall] stops at a cursor from which the
    outer loop goes on as [parseFrom] says. *)
Lemma parseOnInstall_spec fuel : forall lines cur template,
  length lines - cur < fuel ->
  exists template' cur',
    parseOnInstall fuel lines cur template = Some (template', cur')
    /\ cur <= cur'
    /\ parseFrom false (drop (S cur') lines) template' = parseFrom true (drop cur lines) template.
Proof.
  induction fuel as [|f IH]; intros lines cur template Hf; [lia|].
  cbn [parseOnInstall]. destruct (lines !! cur) as [line|] eqn:El.
  - rewrite (drop_lookup_Some _ _ _ El). cbn [parseFrom].
    destruct (teq (toUpperCase line) (str "END")).
    + eexists _, _. split; [reflexivity|]. split; [lia|done].
    + pose proof (lookup_lt_Some _ _ _ El) as Hlt.
      destruct (IH lines (S cur) (blockLine line template)) as (t' & c' & -> & Hle & Heq); [lia|].
      eexists _, _. split; [reflexivity|]. split; [lia|done].
  - eexists _, _. split; [reflexivity|]. split; [lia|].
    rewrite (drop_lookup_None _ _ El).
    apply lookup_ge_None in El. rewrite drop_ge by lia. done.
Qed.

(** With enough fuel, the loop of [parse] returns what [parseFrom] says. *)
Lemma parseLoop_spec fuel : forall lines cur template,
  length lines - cur < fuel ->
  parseLoop fuel lines cur template = Some (parseFrom false (drop cur lines) template).
Proof.
  induction fuel as [|f IH]; intros lines cur template Hf; [lia|].
  cbn [parseLoop]. destruct (lines !! cur) as [line|] eqn:El.
  - pose proof (lookup_lt_Some _ _ _ El) as Hlt.
    rewrite (drop_lookup_Some _ _ _ El). cbn [parseFrom].
    rewrite parseLine_cases. destruct (isBlockStart line).
    + destruct (parseOnInstall_spec f lines (S cur) template) as (t' & c' & -> & Hle & Heq); [lia|].
      rewrite IH by lia. by rewrite Heq.
    + by rewrite IH by lia.
  - by rewrite (drop_lookup_None _ _ El).
Qed.

(** [parseKlore] returns a template, and more fuel does not change it. *)
Lemma parseKlore_returns (content : text) :
  parseKlore content = Some (parseFrom false (contentLines content) emptyTemplate)
  /\ forall fuel, length (contentLines content) < fuel ->
       parse fuel content = Some (parseFrom false (contentLines content) emptyTemplate).
Proof.
  split; [|intros fuel Hf]; unfold parseKlore, parse; rewrite parseLoop_spec by lia; done.
Qed.

(** C4: the parser is total.  For every definition text the loop of
    [parse] comes to an end and returns a template; no line, however
    malformed, stops it, and the fuel of the model is never exhausted. *)
Theorem parseKlore_total (content : text) :
  exists template : Template,
    parseKlore content = Some template
    /\ forall fuel, length (contentLines content) < fuel -> parse fuel content = Some template.
Proof.
  exists (parseFrom false (contentLines content) emptyTemplate).
  apply parseKlore_returns.
Qed.

(** ** REPLACE lines that deviate from the format *)

(** The text after an opening quote has no closing quote: each double
    quote in it is escaped by a backslash. *)
Inductive unterminated : text -> Prop :=
| unterminated_nil : unterminated []
| unterminated_last : unterminated ["\"]
| unterminated_escaped c rest : unterminated rest -> unterminated ("\" :: c :: rest)
| unterminated_plain c rest :
    c <> "\" -> c <> dq -> unterminated rest -> unterminated (c :: rest).

Lemma scanOriginal_unterminated (body : text) :
  unterminated body -> forall i, scanOriginal false i body = None.
Proof.
  induction 1 as [| |c rest _ IH|c rest Hb Hq _ IH]; intros i; try done.
  - cbn [scanOriginal]. rewrite ceq_refl. cbn [andb negb scanOriginal].
    rewrite !andb_false_r. apply IH.
  - cbn [scanOriginal]. apply ceq_neq in Hb, Hq. unfold isDQuote.
    rewrite Hb, Hq. apply IH.
Qed.

(** The three deviations that [parseReplacement] tests for: the text
    REPLACE occurs nowhere in the line, the text WITH occurs nowhere in
    the line, or the quoted original that follows REPLACE is not closed. *)
Definition deviates (line : text) : Prop :=
  includes (str "REPLACE") line = false
  \/ includes (str "WITH") line = false
  \/ exists body, afterReplaceOf line = dq :: body /\ unterminated body.

Lemma parseReplacement_deviates (line : text) :
  deviates line -> parseReplacement line = noopReplacement.
Proof.
  unfold parseReplacement. intros [H|[H|(body & Ha & Hu)]].
  - by rewrite H.
  - rewrite H. by rewrite orb_true_r.
  - destruct (negb _ || negb _); [done|].
    rewrite Ha. cbn [originalEnd]. unfold isDQuote at 1. rewrite ceq_refl.
    by rewrite scanOriginal_unterminated.
Qed.

(** C6, as the code has it: a REPLACE line in which the text REPLACE or
    the text WITH occurs nowhere, or whose quoted original is not closed,
    yields the no-op replacement; the loop appends it and goes on with the
    next line, at top level and inside an [ON INSTALL] block alike. *)
Theorem replace_deviation_is_noop (line : text) :
  deviates line ->
  parseReplacement line = noopReplacement
  /\ KloreReplacement.original (parseReplacement line) = []
  /\ KloreReplacement.variable (parseReplacement line) = []
  /\ KloreReplacement.filePatterns (parseReplacement line) = [str "**/*"]
  /\ (forall fuel lines cur template tok toks,
        lines !! cur = Some line ->
        tokenize line = tok :: toks ->
        toUpperCase tok = str "REPLACE" ->
        parseLoop (S fuel) lines cur template
        = parseLoop fuel lines (S cur)
            (KloreTemplate.push_replacement noopReplacement template))
  /\ (forall fuel lines cur template,
        lines !! cur = Some line ->
        trim line = line ->
        startsWith (str "REPLACE") (toUpperCase line) = true ->
        parseOnInstall (S fuel) lines cur template
        = parseOnInstall fuel lines (S cur)
            (KloreTemplate.push_replacement noopReplacement template)).
Proof.
  intros Hd. pose proof (parseReplacement_deviates line Hd) as Hn.
  rewrite Hn. repeat split.
  - intros fuel lines cur template tok toks Hl Ht Hc.
    cbn [parseLoop]. rewrite Hl. unfold parseLine. rewrite Ht, Hc, Hn. reflexivity.
  - intros fuel lines cur template Hl Htrim Hs.
    cbn [parseOnInstall]. rewrite Hl.
    apply startsWith_spec in Hs as [r Hr].
    unfold blockLine. rewrite Htrim, Hr, Hn. reflexivity.
Qed.

(** A line whose original is never closed. *)
Lemma replace_deviation_is_noop_witness :
  let line := str "REPLACE " ++ dq :: str "Acme Corp WITH {{ companyName }}" in
  deviates line /\ parseReplacement line = noopReplacement.
Proof.
  assert (deviates (str "REPLACE " ++ dq :: str "Acme Corp WITH {{ companyName }}")) as Hd.
  { right. right. eexists. split; [vm_compute; reflexivity|].
    repeat (first [apply unterminated_nil | apply unterminated_plain; [discriminate|discriminate|]]). }
  split; [exact Hd|]. exact (proj1 (replace_deviation_is_noop _ Hd)).
Defined.

(** C6 fails as stated: a line that lacks the WITH keyword, but whose
    original happens to contain those four letters, passes the test and
    keeps its original. *)
Lemma replace_missing_keyword_not_noop :
  let line := str "REPLACE " ++ quoted (str "WITHOUT") ++ str " IN " ++ quoted (str "*.md") in
  existsb (fun tok => teq (toUpperCase tok) (str "WITH")) (tokenize line) = false
  /\ parseReplacement line = KloreReplacement.mk (str "WITHOUT") [] [str "*.md"]
  /\ parseReplacement line <> noopReplacement.
Proof. vm_compute. repeat split; congruence. Qed.

(** ** The guard of [installTemplate] on an existing destination *)

(** A template directory with a definition file, a page and an image, and
    an existing directory [out]. *)
Definition exampleDefinition : text :=
  join ["010"]
    [str "ASK companyName " ++ quoted (str "What is your company name?") ++ str " REQUIRED";
     str "ON INSTALL";
     str "    REPLACE " ++ quoted (str "Acme") ++ str " WITH {{ companyName }} IN " ++ quoted (str "**/*");
     str "END"].

Definition exampleFiles : gmap path node :=
  list_to_map
    [([str "tpl"], Dir);
     ([str "tpl"; str ".klore"], File exampleDefinition);
     ([str "tpl"; str "index.html"], File (str "<h1>Welcome to Acme</h1>"));
     ([str "tpl"; str "logo.png"], File (str "Acme"))].

Definition exampleWorld : World := mkWorld exampleFiles [] [].

Definition occupiedWorld : World := mkWorld (<[[str "out"] := Dir]> exampleFiles) [] [].

(** The same, with a directory where the definition file should be. *)
Definition unreadableWorld : World :=
  mkWorld (<[[str "tpl"; str ".klore"] := Dir]> (<[[str "out"] := Dir]> exampleFiles)) [] [].

(** A shell in which every command succeeds and changes nothing. *)
Definition quietSpawn (cmd : text) (cwd : path) (f : gmap path node)
  : gmap path node * option nat := (f, Some 0).

(** [path.resolve] on absolute paths without dots. *)
Definition resolveAbsolute (p : text) : path := List.filter notEmpty (splitOn "/" p).

Definition exampleOptions : InstallOptions.t :=
  InstallOptions.mk [str "tpl"] [str "out"] None None.

(** [readKloreFile] changes nothing; it returns the parsed definition
    file, or nothing when there is none, and it throws when the
    definition file is a directory. *)
Lemma readKloreFile_run (templatePath : path) (w : World) :
  readKloreFile templatePath w =
    match nodeAt (templatePath ++ [str ".klore"]) w with
    | Some (File content) =>
        (Returned (Some (parseFrom false (contentLines content) emptyTemplate)), w)
    | Some Dir => (Threw (str "EISDIR"), w)
    | None => (Returned None, w)
    end.
Proof.
  unfold readKloreFile, bind, existsSync, readFile, ret. cbv beta iota zeta.
  destruct (nodeAt (templatePath ++ [str ".klore"]) w) as [[content|]|] eqn:E;
    cbn [negb]; rewrite ?E; try done.
  by destruct (parseKlore_returns content) as [-> _].
Qed.

(** C5, as the code has it: when the destination exists and [force] is
    not set, [installTemplate] writes nothing, and it returns a result
    with [success = false] and both counts at zero whenever the definition
    file is absent or can be read; when the definition file cannot be read
    (it is a directory), the read error is thrown to the caller instead. *)
Theorem installTemplate_refuses_existing_output
    (URL_parses : text -> bool)
    (spawn : text -> path -> gmap path node -> gmap path node * option nat)
    (fuel : nat) (options : InstallOptions.t) (w : World) :
  nodeAt (InstallOptions.outputPath options) w <> None ->
  InstallOptions.force options <> Some true ->
  (installTemplate URL_parses spawn fuel options w).2 = w
  /\ match nodeAt (InstallOptions.templatePath options ++ [str ".klore"]) w with
     | Some Dir =>
         (installTemplate URL_parses spawn fuel options w).1 = Threw (str "EISDIR")
     | _ =>
         exists result,
           (installTemplate URL_parses spawn fuel options w).1 = Returned result
           /\ InstallResult.success result = false
           /\ InstallResult.filesCreated result = 0
           /\ InstallResult.replacementsApplied result = 0
     end.
Proof.
  intros Hout Hforce.
  unfold installTemplate, bind. rewrite readKloreFile_run.
  destruct (nodeAt (InstallOptions.templatePath options ++ [str ".klore"]) w)
    as [[content|]|] eqn:Ek.
  - unfold existsSync, ret.
    destruct (nodeAt (InstallOptions.outputPath options) w) eqn:Eo; [|done].
    assert (default false (InstallOptions.force options) = false) as ->.
    { destruct (InstallOptions.force options) as [[|]|]; done. }
    cbn. split; [done|]. eexists. repeat split.
  - done.
  - split; [done|]. eexists. repeat split.
Qed.

Lemma installTemplate_refuses_existing_output_witness :
  (installTemplate (fun _ => false) quietSpawn 8 exampleOptions occupiedWorld).2 = occupiedWorld
  /\ exists result,
       (installTemplate (fun _ => false) quietSpawn 8 exampleOptions occupiedWorld).1 = Returned result
       /\ InstallResult.success result = false
       /\ InstallResult.filesCreated result = 0
       /\ InstallResult.replacementsApplied result = 0.
Proof.
  apply (installTemplate_refuses_existing_output (fun _ => false) quietSpawn 8
           exampleOptions occupiedWorld).
  - vm_compute. discriminate.
  - vm_compute. discriminate.
Defined.

(** C5 fails as stated: with a directory in the place of the definition
    file, the destination present and [force] unset, [installTemplate]
    returns no result at all: reading the definition file throws, and
    nothing catches it. *)
Lemma installTemplate_throws_on_unreadable_definition :
  nodeAt (InstallOptions.outputPath exampleOptions) unreadableWorld = Some Dir
  /\ InstallOptions.force exampleOptions = None
  /\ (installTemplate (fun _ => false) quietSpawn 8 exampleOptions unreadableWorld).1
     = Threw (str "EISDIR").
Proof. vm_compute. repeat split. Qed.

(** ** The required-field gate *)

Lemma orText_nil (x : text) : orText x [] = x.
Proof. by destruct x. Qed.

Lemma fold_defaults_other (vars : list KloreVariable.t) (n : text) :
  Forall (fun v => KloreVariable.name v <> n) vars ->
  forall acc : gmap text text,
    fold_left (fun (acc : gmap text text) v =>
                 <[KloreVariable.name v := orText (KloreVariable.defaultValue v) []]> acc)
      vars acc !! n = acc !! n.
Proof.
  induction 1 as [|v vars Hv _ IH]; intros acc; [done|].
  cbn [fold_left]. rewrite IH. by rewrite lookup_insert_ne.
Qed.

(** In defaults mode the value of a variable is the default of its last
    declaration. *)
Lemma defaultValues_lookup (template : Template) pre (v : KloreVariable.t) post :
  KloreTemplate.variables template = pre ++ v :: post ->
  Forall (fun v' => KloreVariable.name v' <> KloreVariable.name v) post ->
  defaultValues template !! KloreVariable.name v = Some (KloreVariable.defaultValue v).
Proof.
  intros Hv Hpost. unfold defaultValues. rewrite Hv, fold_left_app. cbn [fold_left].
  rewrite fold_defaults_other by done. by rewrite lookup_insert_eq, orText_nil.
Qed.


Definition exampleTemplate : Template :=
  parseFrom false (contentLines exampleDefinition) emptyTemplate.

(** ** The variables that the generator renders *)

(** The group under which the generator files a variable: the name of the
    first group that lists it, and [other] when no group does. *)
Definition groupNameOf (groups : list KloreGroup.t) (v : KloreVariable.t) : text :=
  match findGroup groups (KloreVariable.name v) with
  | Some g => KloreGroup.name g
  | None => str "other"
  end.

(** The variables filed under one group, duplicates included, in the
    order of the template. *)
Definition varsOfGroup (template : Template) (groupName : text) : list KloreVariable.t :=
  List.filter (fun v => teq (groupNameOf (KloreTemplate.groups template) v) groupName)
    (KloreTemplate.variables template).

Definition listOrNone {A} (l : list A) : option (list A) :=
  match l with [] => None | _ => Some l end.

Lemma groupVars_fold (groups : list KloreGroup.t) (vars : list KloreVariable.t) (g : text) :
  fold_left
    (fun (acc : gmap text (list KloreVariable.t)) v =>
       <[groupNameOf groups v := default [] (acc !! groupNameOf groups v) ++ [v]]> acc)
    vars ∅ !! g
  = listOrNone (List.filter (fun v => teq (groupNameOf groups v) g) vars).
Proof.
  induction vars as [|v vars IH] using rev_ind; [done|].
  rewrite fold_left_app, List.filter_app. cbn [fold_left List.filter].
  destruct (teq (groupNameOf groups v) g) eqn:E.
  - apply teq_eq in E. rewrite E, lookup_insert_eq, IH.
    destruct (List.filter _ vars); done.
  - apply teq_neq in E. rewrite lookup_insert_ne by done. by rewrite IH, app_nil_r.
Qed.

Lemma groupVars_lookup (template : Template) (g : text) :
  groupVars template !! g = listOrNone (varsOfGroup template g).
Proof. apply groupVars_fold. Qed.

(** The variables of the closing section: those filed under [other], or,
    when there are none, those of a group named [General Settings]. *)
Definition otherVarsOf (template : Template) : list KloreVariable.t :=
  match varsOfGroup template (str "other") with
  | [] => varsOfGroup template (str "General Settings")
  | l => l
  end.

Definition askGrouped (groupKey : text) (v : KloreVariable.t) : text :=
  askLine v (generateSmartQuestion (KloreVariable.name v) groupKey)
    (escapeDefault (truncate100 (KloreVariable.defaultValue v))).

Definition askOther (v : KloreVariable.t) : text :=
  askLine v (generateSmartQuestion (KloreVariable.name v) (str "other"))
    (truncate100 (escapeDefault (KloreVariable.defaultValue v))).

Definition isAskLine (line : text) : bool := startsWith (str "ASK ") line.

Lemma isAskLine_askLine v q d : isAskLine (askLine v q d) = true.
Proof. apply startsWith_app. Qed.

Lemma filter_all {A} (p : A -> bool) (l : list A) :
  (forall x, In x l -> p x = true) -> List.filter p l = l.
Proof.
  induction l as [|x l IH]; intros H; [done|]. cbn [List.filter].
  rewrite (H x) by (by left). f_equal. apply IH. intros y Hy. apply H. by right.
Qed.

Lemma filter_none {A} (p : A -> bool) (l : list A) :
  (forall x, In x l -> p x = false) -> List.filter p l = [].
Proof.
  induction l as [|x l IH]; intros H; [done|]. cbn [List.filter].
  rewrite (H x) by (by left). apply IH. intros y Hy. apply H. by right.
Qed.

Lemma groupSection_ask (template : Template) (groupKey : text) :
  List.filter isAskLine (groupSection (groupVars template) groupKey)
  = map (askGrouped groupKey) (varsOfGroup template groupKey).
Proof.
  unfold groupSection. rewrite groupVars_lookup.
  destruct (varsOfGroup template groupKey) as [|v vars]; [done|].
  cbn [listOrNone]. rewrite !List.filter_app.
  rewrite (filter_all _ (map _ (v :: vars))).
  2:{ intros x [y [<- _]]%in_map_iff. apply isAskLine_askLine. }
  rewrite (filter_none _ [[]]) by (intros x [<-|[]]; done).
  rewrite app_nil_r.
  rewrite (filter_none _ [_; _]); [done|].
  intros x [<-|[<-|[]]]; reflexivity.
Qed.

Lemma otherSection_ask (template : Template) :
  List.filter isAskLine (otherSection (groupVars template))
  = map askOther (otherVarsOf template).
Proof.
  unfold otherSection, otherVarsOf. rewrite !groupVars_lookup.
  assert (forall l : list KloreVariable.t,
            List.filter isAskLine
              match listOrNone l with
              | None | Some [] => []
              | Some vars => [str "# 📦 OTHER SETTINGS"; rule] ++ map askOther vars ++ [[]]
              end = map askOther l) as H.
  { intros [|v vars]; [done|]. cbn [listOrNone]. rewrite !List.filter_app.
    rewrite (filter_all _ (map _ (v :: vars))).
    2:{ intros x [y [<- _]]%in_map_iff. apply isAskLine_askLine. }
    rewrite (filter_none _ [[]]) by (intros x [<-|[]]; done).
    rewrite app_nil_r.
    rewrite (filter_none _ [_; _]); [done|].
    intros x [<-|[<-|[]]]; reflexivity. }
  destruct (varsOfGroup template (str "other")) as [|v vars] eqn:E.
  - cbn [listOrNone]. apply H.
  - apply (H (v :: vars)).
Qed.

Lemma replacementSection_ask byGroup groupKey :
  List.filter isAskLine (replacementSection byGroup groupKey) = [].
Proof.
  unfold replacementSection.
  destruct (byGroup !! groupKey) as [[|r rs]|]; try done.
  apply filter_none. intros x Hx. rewrite !in_app_iff in Hx.
  destruct Hx as [[<-|[]]|[Hx|[<-|[]]]]; try reflexivity.
  apply in_map_iff in Hx as [y [<- _]]. reflexivity.
Qed.

Lemma filter_concat_map {A B} (p : B -> bool) (f : A -> list B) (g : A -> list B) (l : list A) :
  (forall x, List.filter p (f x) = g x) ->
  List.filter p (concat (map f l)) = concat (map g l).
Proof.
  intros H. induction l as [|x l IH]; [done|].
  cbn [map concat]. by rewrite List.filter_app, H, IH.
Qed.

(** The ASK lines among the lines that the generator puts out. *)
Lemma generateLines_asks (template : Template) :
  List.filter isAskLine (generateLines template)
  = concat (map (fun g => map (askGrouped g) (varsOfGroup template g)) groupOrder)
    ++ map askOther (otherVarsOf template).
Proof.
  unfold generateLines. cbv zeta. rewrite !List.filter_app.
  rewrite (filter_concat_map _ _ _ groupOrder (groupSection_ask template)).
  rewrite otherSection_ask.
  rewrite (filter_concat_map _ _ (fun _ => []) _ (replacementSection_ask _)).
  assert (forall l : list text, concat (map (fun _ : text => ([] : list text)) l) = []) as Hnil.
  { induction l; [done|]. done. }
  rewrite Hnil.
  repeat match goal with
         | |- context [List.filter isAskLine ?l] =>
             rewrite (filter_none isAskLine l); [|intros x Hx]
         end; rewrite ?app_nil_r; cbn [app]; try reflexivity.
  all: first
    [ solve [repeat (destruct Hx as [<-|Hx]; [reflexivity|]); done]
    | solve [unfold runSection in Hx;
             destruct (default [] (KloreTemplate.onInstall template));
             apply in_map_iff in Hx as [y [<- _]]; reflexivity]
    | solve [destruct (KloreTemplate.framework template) as [[|c f]|]; try done;
             destruct Hx as [<-|[]]; reflexivity]
    | solve [destruct (notEmpty (KloreTemplate.version template)); [|done];
             destruct Hx as [<-|[]]; reflexivity]
    | idtac ].
  destruct (KloreTemplate.aiHints template) as [[|h hs]|]; try done.
  rewrite !in_app_iff in Hx.
  destruct Hx as [Hx|[Hx|[<-|[]]]]; try reflexivity.
  - repeat (destruct Hx as [<-|Hx]; [reflexivity|]). done.
  - apply in_map_iff in Hx as [y [<- _]]. reflexivity.
Qed.

(** Two variables with one name. *)
Definition duplicateTemplate : Template :=
  KloreTemplate.mk (str "Shop") (str "1.0.0") [] [] None None
    [KloreVariable.mk (str "title") (str "STRING") (str "First") false;
     KloreVariable.mk (str "title") (str "STRING") (str "Second") true]
    [] [] [] (Some []) (Some []).

(** C9 fails as stated: the generated text has two ASK lines for the
    repeated name, the second one with the default and the required flag
    of the second occurrence. *)
Lemma generateKlore_keeps_duplicates :
  List.filter (startsWith (str "ASK title "))
    (splitOn "010" (generateKlore duplicateTemplate))
  = [str "ASK title " ++ quoted (str "Enter title:") ++ str " DEFAULT " ++ quoted (str "First");
     str "ASK title " ++ quoted (str "Enter title:") ++ str " DEFAULT " ++ quoted (str "Second")
       ++ str " REQUIRED"].
Proof. vm_compute. reflexivity. Qed.

(** The resolution is where names are deduplicated: [promptVariables]
    keeps the first occurrence of each name. *)
Lemma uniqueVariables_first :
  uniqueVariables [] (KloreTemplate.variables duplicateTemplate)
  = [KloreVariable.mk (str "title") (str "STRING") (str "First") false].
Proof. vm_compute. reflexivity. Qed.

(** ** Trimming, splitting and searching *)

Lemma trimStart_app_nonspace (ws : text) (c : ascii) (s : text) :
  forallb isSpace ws = true -> isSpace c = false ->
  trimStart (ws ++ c :: s) = c :: s.
Proof.
  intros Hws Hc. induction ws as [|w ws IH]; cbn [app trimStart].
  - by rewrite Hc.
  - cbn [forallb] in Hws. apply andb_true_iff in Hws as [-> Hws]. by apply IH.
Qed.

Lemma trimStart_snoc (s : text) (c : ascii) :
  trimStart (s ++ [c]) =
    match trimStart s with
    | [] => if isSpace c then [] else [c]
    | r => r ++ [c]
    end.
Proof.
  induction s as [|x s IH]; cbn [app trimStart]; [done|].
  destruct (isSpace x); [apply IH|done].
Qed.

(** [trimEnd], read from the left. *)
Lemma trimEnd_cons (c : ascii) (s : text) :
  trimEnd (c :: s) =
    match trimEnd s with
    | [] => if isSpace c then [] else [c]
    | r => c :: r
    end.
Proof.
  unfold trimEnd. cbn [rev]. rewrite trimStart_snoc.
  destruct (trimStart (rev s)) as [|y r]; cbn [rev].
  - by destruct (isSpace c).
  - rewrite rev_app_distr. cbn [rev app].
    by destruct (rev r ++ [y]) eqn:E; [destruct (rev r); discriminate|].
Qed.

Lemma trimEnd_nil : trimEnd [] = [].
Proof. done. Qed.

Lemma trimEnd_cons_nonspace (c : ascii) (s : text) :
  isSpace c = false -> trimEnd (c :: s) = c :: trimEnd s.
Proof. intros Hc. rewrite trimEnd_cons, Hc. by destruct (trimEnd s). Qed.

(** A tail after a word: nothing, or white space and more. *)
Definition spaced (tail : text) : Prop :=
  tail = [] \/ exists w y, tail = w :: y /\ isSpace w = true.

Lemma trimEnd_spaced (w : ascii) (s : text) :
  isSpace w = true -> spaced (trimEnd (w :: s)).
Proof.
  intros Hw. rewrite trimEnd_cons, Hw. destruct (trimEnd s); [by left|].
  right. eauto.
Qed.

Lemma trimEnd_app_nonspace (p s : text) :
  forallb (fun c => negb (isSpace c)) p = true ->
  trimEnd (p ++ s) = p ++ trimEnd s.
Proof.
  induction p as [|c p IH]; [done|]. cbn [forallb app].
  intros [Hc Hp]%andb_true_iff. apply negb_true_iff in Hc.
  by rewrite trimEnd_cons_nonspace, IH.
Qed.

(** A line made of white space, a word and a spaced rest is trimmed to the
    word and a spaced rest. *)
Lemma trim_word (ws p : text) (w : ascii) (s : text) :
  forallb isSpace ws = true ->
  p <> [] ->
  forallb (fun c => negb (isSpace c)) p = true ->
  isSpace w = true ->
  exists tail, trim (ws ++ p ++ w :: s) = p ++ tail /\ spaced tail.
Proof.
  intros Hws Hp Hns Hw. destruct p as [|c p]; [done|].
  cbn [forallb] in Hns. pose proof Hns as Hns'.
  apply andb_true_iff in Hns as [Hc _]. apply negb_true_iff in Hc.
  unfold trim. cbn [app]. rewrite trimStart_app_nonspace by done.
  change (c :: p ++ w :: s) with ((c :: p) ++ w :: s).
  rewrite trimEnd_app_nonspace by done.
  eexists. split; [reflexivity|]. by apply trimEnd_spaced.
Qed.

Lemma trimEnd_last_nonspace (s : text) (c : ascii) :
  isSpace c = false -> trimEnd (s ++ [c]) = s ++ [c].
Proof.
  intros Hc. unfold trimEnd. rewrite rev_app_distr. cbn [rev app trimStart].
  rewrite Hc. cbn [rev]. by rewrite rev_involutive.
Qed.

(** A line that neither starts nor ends with white space is its own trim. *)
Lemma trim_id (c : ascii) (s : text) (d : ascii) :
  isSpace c = false -> isSpace d = false -> trim (c :: s ++ [d]) = c :: s ++ [d].
Proof.
  intros Hc Hd. unfold trim. cbn [trimStart]. rewrite Hc.
  change (c :: s ++ [d]) with ((c :: s) ++ [d]). by apply trimEnd_last_nonspace.
Qed.

Lemma trim_comment (ws : text) (s : text) :
  forallb isSpace ws = true -> exists r, trim (ws ++ "#" :: s) = "#" :: r.
Proof.
  intros Hws. unfold trim. rewrite trimStart_app_nonspace by done.
  rewrite trimEnd_cons_nonspace by done. eauto.
Qed.

(** No line feed in the text. *)
Definition oneLine (s : text) : bool := forallb (fun c => negb (ceq c "010")) s.

Lemma oneLine_app (a b : text) : oneLine (a ++ b) = oneLine a && oneLine b.
Proof. apply forallb_app. Qed.

Lemma splitOn_oneLine (s : text) : oneLine s = true -> splitOn "010" s = [s].
Proof.
  induction s as [|c s IH]; [done|]. cbn [oneLine forallb splitOn].
  intros [Hc Hs]%andb_true_iff. apply negb_true_iff in Hc. rewrite Hc.
  by rewrite (IH Hs).
Qed.

Lemma splitOn_app (a rest : text) :
  oneLine a = true -> splitOn "010" (a ++ "010" :: rest) = a :: splitOn "010" rest.
Proof.
  induction a as [|c a IH]; [done|]. cbn [oneLine forallb splitOn app].
  intros [Hc Ha]%andb_true_iff. apply negb_true_iff in Hc. rewrite Hc.
  by rewrite (IH Ha).
Qed.

(** Splitting the joined lines gives the lines back, when none of them
    holds a line feed. *)
Lemma splitOn_join (lines : list text) :
  lines <> [] -> forallb oneLine lines = true ->
  splitOn "010" (join ["010"] lines) = lines.
Proof.
  induction lines as [|l ls IH]; [done|]. intros _.
  cbn [forallb]. intros [Hl Hls]%andb_true_iff.
  destruct ls as [|l' ls].
  - cbn [join]. by apply splitOn_oneLine.
  - change (join ["010"] (l :: l' :: ls)) with (l ++ "010" :: join ["010"] (l' :: ls)).
    rewrite splitOn_app by done. f_equal. by apply IH.
Qed.

Lemma trimEnd_closed (l : text) (d : ascii) :
  last l = Some d -> isSpace d = false -> trimEnd l = l.
Proof.
  intros Hl Hd. apply last_Some in Hl as [l' ->]. by apply trimEnd_last_nonspace.
Qed.

Lemma trim_closed (l : text) (c d : ascii) :
  head l = Some c -> isSpace c = false -> last l = Some d -> isSpace d = false ->
  trim l = l.
Proof.
  intros Hh Hc Hl Hd. destruct l as [|x s]; [done|]. injection Hh as ->.
  unfold trim. cbn [trimStart]. rewrite Hc. by apply (trimEnd_closed _ d).
Qed.

Lemma last_quoted (s : text) : last (quoted s) = Some dq.
Proof. unfold quoted. by rewrite last_cons, last_snoc. Qed.

Lemma last_app_Some {A} (a b : list A) (x : A) : last b = Some x -> last (a ++ b) = Some x.
Proof. intros H. by rewrite last_app, H. Qed.

(** ** The lines that the parser keeps *)

Definition keep (l : text) : bool := notEmpty l && negb (startsWith ["#"] l).

Definition keptLines (lines : list text) : list text :=
  List.filter keep (map trim lines).

Lemma contentLines_keptLines (content : text) :
  contentLines content = keptLines (splitOn "010" content).
Proof. reflexivity. Qed.

Lemma keptLines_app (a b : list text) : keptLines (a ++ b) = keptLines a ++ keptLines b.
Proof. unfold keptLines. by rewrite map_app, List.filter_app. Qed.

Lemma keptLines_cons (l : text) (ls : list text) :
  keptLines (l :: ls) = keptLines [l] ++ keptLines ls.
Proof. apply (keptLines_app [l] ls). Qed.

Lemma keptLines_comment (ws s : text) :
  forallb isSpace ws = true -> keptLines [ws ++ "#" :: s] = [].
Proof.
  intros Hws. unfold keptLines. cbn [map List.filter].
  destruct (trim_comment ws s Hws) as [r ->]. reflexivity.
Qed.

Lemma keptLines_hash (s : text) : keptLines [str "# " ++ s] = [].
Proof. apply (keptLines_comment [] (" " :: s)). reflexivity. Qed.

Lemma keptLines_hash_indented (s : text) : keptLines [str "    # " ++ s] = [].
Proof. apply (keptLines_comment (str "    ") (" " :: s)). reflexivity. Qed.

Lemma keptLines_comments {A} (f : A -> text) (l : list A) :
  (forall x, exists ws s, f x = ws ++ "#" :: s /\ forallb isSpace ws = true) ->
  keptLines (map f l) = [].
Proof.
  intros H. induction l as [|x l IH]; [done|].
  cbn [map]. rewrite keptLines_cons, IH, app_nil_r.
  destruct (H x) as (ws & s & -> & Hws). by apply keptLines_comment.
Qed.

Lemma keptLines_kept {A} (f : A -> text) (l : list A) :
  (forall x, keep (trim (f x)) = true) ->
  keptLines (map f l) = map (fun x => trim (f x)) l.
Proof.
  intros H. induction l as [|x l IH]; [done|].
  cbn [map]. rewrite keptLines_cons, IH. unfold keptLines at 1.
  cbn [map List.filter]. by rewrite H.
Qed.

Lemma trim_askLine (v : KloreVariable.t) (q d : text) :
  trim (askLine v q d) = askLine v q d.
Proof.
  apply (trim_closed _ "A" (if KloreVariable.required v then "D" else dq));
    [done|done| |by destruct (KloreVariable.required v)].
  unfold askLine. destruct (KloreVariable.required v).
  - rewrite !app_assoc. by apply last_app_Some.
  - rewrite app_nil_r. destruct (notEmpty d).
    + rewrite !app_assoc. apply last_app_Some, last_quoted.
    + rewrite app_nil_r, !app_assoc. apply last_app_Some, last_quoted.
Qed.

Lemma keep_askLine (v : KloreVariable.t) (q d : text) : keep (askLine v q d) = true.
Proof. reflexivity. Qed.

Lemma trim_indented (s : text) : trim (str "    " ++ s) = trim s.
Proof.
  unfold trim. change (str "    ") with [" "; " "; " "; " "]. cbn [app trimStart].
  change (isSpace " ") with true. cbv iota. reflexivity.
Qed.

(** The trimmed form of a generated REPLACE or RUN line: the keyword and a
    spaced rest. *)
Lemma trim_replaceLine (r : KloreReplacement.t) :
  exists tail, trim (replaceLine r) = str "REPLACE" ++ tail /\ spaced tail.
Proof.
  unfold replaceLine.
  change (str "    REPLACE ") with (str "    " ++ str "REPLACE" ++ [" "]).
  rewrite <- !app_assoc. cbn [app].
  by apply (trim_word (str "    ") (str "REPLACE") " ").
Qed.

Lemma trim_runLine (cmd msg : text) :
  exists tail, trim (runLine cmd msg) = str "RUN" ++ tail /\ spaced tail.
Proof.
  unfold runLine.
  change (str "    RUN ") with (str "    " ++ str "RUN" ++ [" "]).
  rewrite <- !app_assoc. cbn [app].
  by apply (trim_word (str "    ") (str "RUN") " ").
Qed.

Lemma keep_replaceLine (r : KloreReplacement.t) : keep (trim (replaceLine r)) = true.
Proof. destruct (trim_replaceLine r) as (tail & -> & _). reflexivity. Qed.

Lemma keep_runLine (cmd msg : text) : keep (trim (runLine cmd msg)) = true.
Proof. destruct (trim_runLine cmd msg) as (tail & -> & _). reflexivity. Qed.

(** The group under which the generator files a replacement. *)
Definition replacementGroupOf (groups : list KloreGroup.t) (r : KloreReplacement.t) : text :=
  match findGroup groups (KloreReplacement.variable r) with
  | Some g => orText (KloreGroup.name g) (str "other")
  | None => str "other"
  end.

Definition replacementsOfGroup (template : Template) (groupName : text)
  : list KloreReplacement.t :=
  List.filter (fun r => teq (replacementGroupOf (KloreTemplate.groups template) r) groupName)
    (KloreTemplate.replacements template).

Lemma groupReplacements_fold (groups : list KloreGroup.t)
    (rs : list KloreReplacement.t) (g : text) :
  fold_left
    (fun (acc : gmap text (list KloreReplacement.t)) r =>
       <[replacementGroupOf groups r :=
           default [] (acc !! replacementGroupOf groups r) ++ [r]]> acc)
    rs ∅ !! g
  = listOrNone (List.filter (fun r => teq (replacementGroupOf groups r) g) rs).
Proof.
  induction rs as [|r rs IH] using rev_ind; [done|].
  rewrite fold_left_app, List.filter_app. cbn [fold_left List.filter].
  destruct (teq (replacementGroupOf groups r) g) eqn:E.
  - apply teq_eq in E. rewrite E, lookup_insert_eq, IH.
    destruct (List.filter _ rs); done.
  - apply teq_neq in E. rewrite lookup_insert_ne by done. by rewrite IH, app_nil_r.
Qed.

Lemma groupReplacements_lookup (template : Template) (g : text) :
  groupReplacements template !! g = listOrNone (replacementsOfGroup template g).
Proof. apply groupReplacements_fold. Qed.

(** The variables and the replacements in the order in which the
    generator writes them. *)
Definition renderedVariables (template : Template) : list (text * KloreVariable.t) :=
  concat (map (fun g => map (pair g) (varsOfGroup template g)) groupOrder)
  ++ map (pair (str "other")) (otherVarsOf template).

Definition renderedReplacements (template : Template) : list KloreReplacement.t :=
  concat (map (replacementsOfGroup template) (groupOrder ++ [str "other"])).

Definition headLines (template : Template) : list text :=
  [str "NAME " ++ quoted (dashSpaces false (toLowerCase (KloreTemplate.name template))
                           ++ str "-template")]
  ++ (if notEmpty (KloreTemplate.version template)
      then [str "VERSION " ++ quoted (KloreTemplate.version template)] else [])
  ++ match KloreTemplate.framework template with
     | Some ((_ :: _) as f) => [str "FRAMEWORK " ++ quoted f]
     | _ => []
     end.

Definition askLines (template : Template) : list text :=
  concat (map (fun g => map (askGrouped g) (varsOfGroup template g)) groupOrder)
  ++ map askOther (otherVarsOf template).

Definition copyLine : text :=
  str "COPY " ++ quoted (str ".env.example") ++ str " TO " ++ quoted (str ".env").

Lemma keptLines_concat_map {A} (f : A -> list text) (g : A -> list text) (l : list A) :
  (forall x, keptLines (f x) = g x) ->
  keptLines (concat (map f l)) = concat (map g l).
Proof.
  intros H. induction l as [|x l IH]; [done|].
  cbn [map concat]. by rewrite keptLines_app, H, IH.
Qed.

Lemma keptLines_groupSection (template : Template) (groupKey : text) :
  keptLines (groupSection (groupVars template) groupKey)
  = map (askGrouped groupKey) (varsOfGroup template groupKey).
Proof.
  unfold groupSection. rewrite groupVars_lookup.
  destruct (varsOfGroup template groupKey) as [|v vars]; [done|].
  cbn [listOrNone]. rewrite !keptLines_app.
  rewrite (keptLines_kept (askGrouped groupKey)) by (intros x; unfold askGrouped; by rewrite trim_askLine).
  change (keptLines [[]]) with ([] : list text). rewrite app_nil_r.
  rewrite (keptLines_cons _ [rule]), keptLines_hash.
  change (keptLines [rule]) with ([] : list text). cbn [app].
  apply map_ext. intros x. unfold askGrouped. apply trim_askLine.
Qed.

Lemma keptLines_otherSection (template : Template) :
  keptLines (otherSection (groupVars template)) = map askOther (otherVarsOf template).
Proof.
  unfold otherSection, otherVarsOf. rewrite !groupVars_lookup.
  assert (forall l : list KloreVariable.t,
            keptLines
              match listOrNone l with
              | None | Some [] => []
              | Some vars => [str "# 📦 OTHER SETTINGS"; rule] ++ map askOther vars ++ [[]]
              end = map askOther l) as H.
  { intros [|v vars]; [done|]. cbn [listOrNone]. rewrite !keptLines_app.
    rewrite (keptLines_kept askOther) by (intros x; unfold askOther; by rewrite trim_askLine).
    change (keptLines [[]]) with ([] : list text). rewrite app_nil_r.
    change (keptLines [str "# 📦 OTHER SETTINGS"; rule]) with ([] : list text). cbn [app].
    apply map_ext. intros x. unfold askOther. apply trim_askLine. }
  destruct (varsOfGroup template (str "other")) as [|v vars] eqn:E.
  - cbn [listOrNone]. apply H.
  - apply (H (v :: vars)).
Qed.

Lemma keptLines_replacementSection (template : Template) (groupKey : text) :
  keptLines (replacementSection (groupReplacements template) groupKey)
  = map (fun r => trim (replaceLine r)) (replacementsOfGroup template groupKey).
Proof.
  unfold replacementSection. rewrite groupReplacements_lookup.
  destruct (replacementsOfGroup template groupKey) as [|r rs]; [done|].
  cbn [listOrNone]. rewrite !keptLines_app.
  rewrite (keptLines_kept replaceLine) by apply keep_replaceLine.
  change (keptLines [[]]) with ([] : list text). rewrite app_nil_r.
  by rewrite keptLines_hash_indented.
Qed.

Lemma keptLines_runSection (template : Template) :
  keptLines (runSection template) = map trim (runSection template).
Proof.
  unfold runSection. destruct (default [] (KloreTemplate.onInstall template)).
  - rewrite (keptLines_kept (fun p => runLine (fst p) (snd p))) by (intros x; apply keep_runLine).
    by rewrite map_map.
  - rewrite (keptLines_kept (fun cmd => runLine cmd (commandMessage cmd)))
      by (intros x; apply keep_runLine).
    by rewrite map_map.
Qed.

Lemma trim_headLine (k s : text) (c : ascii) :
  head k = Some c -> isSpace c = false -> trim (k ++ quoted s) = k ++ quoted s.
Proof.
  intros Hk Hc. apply (trim_closed _ c dq); try done.
  - by destruct k.
  - apply last_app_Some, last_quoted.
Qed.

Lemma keptLines_headLine (k s : text) (c : ascii) :
  head k = Some c -> isSpace c = false -> ceq "#" c = false ->
  keptLines [k ++ quoted s] = [k ++ quoted s].
Proof.
  intros Hk Hc Hh. unfold keptLines. cbn [map List.filter].
  rewrite (trim_headLine k s c Hk Hc).
  destruct k as [|x k]; [done|]. injection Hk as ->.
  unfold keep. cbn [app notEmpty startsWith]. by rewrite Hh.
Qed.

(** The lines that the parser keeps of a generated definition: the head,
    the ASK lines, the block with its COPY line, the REPLACE lines and the
    RUN lines, and END. *)
Lemma keptLines_generate (template : Template) :
  keptLines (generateLines template)
  = headLines template ++ askLines template
    ++ [str "ON INSTALL"; copyLine]
    ++ map (fun r => trim (replaceLine r)) (renderedReplacements template)
    ++ map trim (runSection template)
    ++ [str "END"].
Proof.
  unfold generateLines, headLines, askLines, renderedReplacements. cbv zeta.
  rewrite !keptLines_app.
  rewrite (keptLines_concat_map _ _ groupOrder (keptLines_groupSection template)).
  rewrite keptLines_otherSection.
  rewrite (keptLines_concat_map _ _ _ (keptLines_replacementSection template)).
  rewrite keptLines_runSection.
  assert (keptLines
            [str "# " ++ KloreTemplate.name template ++ str " Template";
             str "# Generated by Klore AI - Comprehensive Templatization"; [];
             str "NAME " ++ quoted (dashSpaces false (toLowerCase (KloreTemplate.name template))
                                     ++ str "-template")]
          = [str "NAME " ++ quoted (dashSpaces false (toLowerCase (KloreTemplate.name template))
                                     ++ str "-template")]) as ->.
  { rewrite keptLines_cons, keptLines_hash. cbn [app].
    rewrite (keptLines_cons _ [_; _]). change (keptLines [str "# Generated by Klore AI - Comprehensive Templatization"]) with ([] : list text).
    cbn [app]. rewrite (keptLines_cons _ [_]). change (keptLines [[]]) with ([] : list text).
    cbn [app]. by apply (keptLines_headLine _ _ "N"). }
  assert (keptLines (if notEmpty (KloreTemplate.version template)
                     then [str "VERSION " ++ quoted (KloreTemplate.version template)] else [])
          = (if notEmpty (KloreTemplate.version template)
             then [str "VERSION " ++ quoted (KloreTemplate.version template)] else [])) as ->.
  { destruct (notEmpty _); [|done]. by apply (keptLines_headLine _ _ "V"). }
  assert (keptLines match KloreTemplate.framework template with
                    | Some ((_ :: _) as f) => [str "FRAMEWORK " ++ quoted f]
                    | _ => []
                    end
          = match KloreTemplate.framework template with
            | Some ((_ :: _) as f) => [str "FRAMEWORK " ++ quoted f]
            | _ => []
            end) as ->.
  { destruct (KloreTemplate.framework template) as [[|c f]|]; try done.
    by apply (keptLines_headLine _ _ "F"). }
  assert (keptLines match KloreTemplate.aiHints template with
                    | Some ((_ :: _) as hints) =>
                        [bar; str "# PROJECT ANALYSIS"; bar]
                        ++ map (fun h => str "# " ++ h) hints ++ [[]]
                    | _ => []
                    end = []) as ->.
  { destruct (KloreTemplate.aiHints template) as [[|h hs]|]; try done.
    rewrite !keptLines_app.
    rewrite (keptLines_comments (fun h => str "# " ++ h)).
    - reflexivity.
    - intros x. exists [], (" " :: x). done. }
  change (keptLines [[]]) with ([] : list text).
  change (keptLines [bar; str "# TEMPLATE VARIABLES"; bar; []]) with ([] : list text).
  change (keptLines [str "    # Run setup commands"]) with ([] : list text).
  assert (keptLines [bar; str "# REPLACEMENTS"; bar; []; str "ON INSTALL"; [];
                     str "    # Setup environment";
                     str "    COPY " ++ quoted (str ".env.example") ++ str " TO "
                       ++ quoted (str ".env"); []]
          = [str "ON INSTALL"; copyLine]) as -> by (vm_compute; reflexivity).
  assert (keptLines [[]; str "END"; []; bar; str "# Template ready! 🚀"; bar]
          = [str "END"]) as -> by (vm_compute; reflexivity).
  rewrite ?app_nil_r. cbn [app]. rewrite <- !app_assoc.
  rewrite (List.concat_map (fun r => trim (replaceLine r))), map_map. reflexivity.
Qed.

(** ** Generated lines without a line feed *)

(** The fields that the generator writes as they are hold no line feed. *)
Definition singleLine (template : Template) : bool :=
  oneLine (KloreTemplate.name template)
  && oneLine (KloreTemplate.version template)
  && match KloreTemplate.framework template with Some f => oneLine f | None => true end
  && forallb oneLine (default [] (KloreTemplate.aiHints template))
  && forallb (fun v => oneLine (KloreVariable.name v)) (KloreTemplate.variables template)
  && forallb (fun r => oneLine (KloreReplacement.variable r)
                       && forallb oneLine (KloreReplacement.filePatterns r))
       (KloreTemplate.replacements template)
  && forallb oneLine (default [] (KloreTemplate.onInstall template)).

Lemma oneLine_cons (c : ascii) (s : text) :
  oneLine (c :: s) = negb (ceq c "010") && oneLine s.
Proof. reflexivity. Qed.

Lemma oneLine_quoted (s : text) : oneLine (quoted s) = oneLine s.
Proof.
  unfold quoted. rewrite oneLine_cons, oneLine_app. cbn. by rewrite andb_true_r.
Qed.

Lemma oneLine_dashSpaces (s : text) : forall b, oneLine (dashSpaces b s) = true.
Proof.
  induction s as [|c s IH]; intros b; [done|]. cbn [dashSpaces].
  destruct (isSpace c) eqn:E.
  - destruct b; [apply IH|]. rewrite oneLine_cons, IH. done.
  - rewrite oneLine_cons, IH, andb_true_r. apply negb_true_iff, ceq_neq.
    intros ->. done.
Qed.

Lemma loc_newline (c : ascii) : ceq (loc c) "010" = ceq c "010".
Proof.
  unfold loc. destruct (isUpper c) eqn:E; [|done].
  destruct c as [[] [] [] [] [] [] [] []]; vm_compute in E; try discriminate; reflexivity.
Qed.

Lemma upc_newline (c : ascii) : ceq (upc c) "010" = ceq c "010".
Proof.
  unfold upc. destruct (isLower c) eqn:E; [|done].
  destruct c as [[] [] [] [] [] [] [] []]; vm_compute in E; try discriminate; reflexivity.
Qed.

Lemma oneLine_toLowerCase (s : text) : oneLine (toLowerCase s) = oneLine s.
Proof.
  induction s as [|c s IH]; [done|]. cbn [toLowerCase map].
  rewrite !oneLine_cons, loc_newline. f_equal. apply IH.
Qed.

Lemma oneLine_toUpperCase (s : text) : oneLine (toUpperCase s) = oneLine s.
Proof.
  induction s as [|c s IH]; [done|]. cbn [toUpperCase map].
  rewrite !oneLine_cons, upc_newline. f_equal. apply IH.
Qed.

Lemma oneLine_trimStart (s : text) : oneLine s = true -> oneLine (trimStart s) = true.
Proof.
  induction s as [|c s IH]; [done|]. cbn [trimStart]. intros H.
  destruct (isSpace c); [|done]. apply IH. rewrite oneLine_cons in H.
  by apply andb_true_iff in H as [_ ?].
Qed.

Lemma oneLine_rev (s : text) : oneLine (rev s) = oneLine s.
Proof.
  induction s as [|c s IH]; [done|]. cbn [rev].
  rewrite oneLine_app, IH, oneLine_cons. cbn. rewrite andb_true_r. apply andb_comm.
Qed.

Lemma oneLine_trim (s : text) : oneLine s = true -> oneLine (trim s) = true.
Proof.
  intros H. unfold trim, trimEnd. rewrite oneLine_rev. apply oneLine_trimStart.
  rewrite oneLine_rev. by apply oneLine_trimStart.
Qed.

Lemma oneLine_replaceChars (p : ascii -> bool) (r : ascii -> text) (s : text) :
  (forall c, p c = true -> oneLine (r c) = true) ->
  (forall c, p c = false -> ceq c "010" = false) \/ oneLine s = true ->
  oneLine (replaceChars p r s) = true.
Proof.
  intros Hr Hs. unfold replaceChars. induction s as [|c s IH]; [done|].
  cbn [flat_map]. rewrite oneLine_app.
  assert (oneLine s = true \/ forall c, p c = false -> ceq c "010" = false) as Hs'.
  { destruct Hs as [H|H]; [by right|]. left. rewrite oneLine_cons in H.
    by apply andb_true_iff in H as [_ ?]. }
  rewrite IH by (destruct Hs' as [H|H]; [by right|by left]).
  rewrite andb_true_r. destruct (p c) eqn:E; [by apply Hr|].
  rewrite oneLine_cons. cbn. rewrite andb_true_r. apply negb_true_iff.
  destruct Hs as [H|H]; [by apply H|].
  rewrite oneLine_cons in H. apply andb_true_iff in H as [H _]. by apply negb_true_iff in H.
Qed.

Lemma oneLine_escapeDefault (s : text) : oneLine (escapeDefault s) = true.
Proof.
  unfold escapeDefault. apply oneLine_replaceChars; [done|].
  left. intros c H. by rewrite ceq_sym.
Qed.

Lemma oneLine_escapeOriginal (s : text) : oneLine (escapeOriginal s) = true.
Proof.
  unfold escapeOriginal. apply oneLine_replaceChars; [done|].
  left. intros c H. by rewrite ceq_sym.
Qed.

Lemma oneLine_take (n : nat) (s : text) : oneLine s = true -> oneLine (take n s) = true.
Proof.
  revert n. induction s as [|c s IH]; intros [|n] H; try done.
  cbn [take]. rewrite oneLine_cons in *. apply andb_true_iff in H as [-> H].
  by apply IH.
Qed.

Lemma oneLine_truncate100 (s : text) : oneLine s = true -> oneLine (truncate100 s) = true.
Proof.
  intros H. unfold truncate100. destruct (Nat.ltb 100 (length s)); [|done].
  rewrite oneLine_app, oneLine_take by done. reflexivity.
Qed.

Lemma oneLine_readableName (n : text) : oneLine n = true -> oneLine (readableName n) = true.
Proof.
  intros H. unfold readableName. rewrite oneLine_toLowerCase. apply oneLine_trim.
  apply oneLine_replaceChars; [|by right].
  intros c Hc. rewrite !oneLine_cons. cbn. rewrite andb_true_r.
  apply negb_true_iff, ceq_neq. intros ->. done.
Qed.

(** A fact about every entry of a constant table. *)
Lemma assoc_Forall {A} (P : A -> Prop) (k : text) (l : list (text * A)) (v : A) :
  Forall (fun p => P (snd p)) l -> assoc k l = Some v -> P v.
Proof.
  induction 1 as [|[k' v'] l Hv _ IH]; [done|]. cbn [assoc].
  destruct (teq k k'); [by intros [= <-]|done].
Qed.

Lemma oneLine_generateSmartQuestion (n g : text) :
  oneLine n = true -> oneLine (generateSmartQuestion n g) = true.
Proof.
  intros H. unfold generateSmartQuestion.
  assert (oneLine (str "Enter " ++ readableName n ++ [":"]) = true) as Hd.
  { by rewrite !oneLine_app, oneLine_readableName. }
  destruct (assoc g questions) as [table|] eqn:Eg; [|done].
  destruct (assoc n table) as [q|] eqn:En; [|done].
  revert En. apply (assoc_Forall (fun q => oneLine q = true)).
  revert Eg. apply (assoc_Forall (fun table => Forall (fun p => oneLine (snd p) = true) table)).
  repeat constructor.
Qed.

Lemma oneLine_askLine (v : KloreVariable.t) (q d : text) :
  oneLine (KloreVariable.name v) = true -> oneLine q = true -> oneLine d = true ->
  oneLine (askLine v q d) = true.
Proof.
  intros Hn Hq Hd. unfold askLine.
  rewrite !oneLine_app, oneLine_quoted, Hn, Hq.
  destruct (notEmpty d); destruct (KloreVariable.required v);
    rewrite ?oneLine_app, ?oneLine_quoted, ?Hd; reflexivity.
Qed.

Lemma forallb_concat_map {A} (p : text -> bool) (f : A -> list text) (l : list A) :
  (forall x, In x l -> forallb p (f x) = true) ->
  forallb p (concat (map f l)) = true.
Proof.
  induction l as [|x l IH]; intros H; [done|]. cbn [map concat].
  rewrite forallb_app, (H x) by (by left). apply IH. intros y Hy. apply H. by right.
Qed.

Lemma forallb_map_true {A} (p : text -> bool) (f : A -> text) (l : list A) :
  (forall x, In x l -> p (f x) = true) -> forallb p (map f l) = true.
Proof.
  intros H. apply forallb_forall. intros y [x [<- Hx]]%in_map_iff. by apply H.
Qed.

Lemma In_varsOfGroup template g v :
  In v (varsOfGroup template g) -> In v (KloreTemplate.variables template).
Proof. unfold varsOfGroup. intros H%List.filter_In. tauto. Qed.

Lemma In_otherVarsOf template v :
  In v (otherVarsOf template) -> In v (KloreTemplate.variables template).
Proof.
  unfold otherVarsOf. destruct (varsOfGroup template (str "other")) eqn:E.
  - apply In_varsOfGroup.
  - rewrite <- E. apply In_varsOfGroup.
Qed.

Lemma In_replacementsOfGroup template g r :
  In r (replacementsOfGroup template g) -> In r (KloreTemplate.replacements template).
Proof. unfold replacementsOfGroup. intros H%List.filter_In. tauto. Qed.

Lemma oneLine_groupSection (template : Template) (g : text) :
  forallb (fun v => oneLine (KloreVariable.name v)) (KloreTemplate.variables template) = true ->
  In g groupOrder ->
  forallb oneLine (groupSection (groupVars template) g) = true.
Proof.
  intros Hv Hg. unfold groupSection. rewrite groupVars_lookup.
  destruct (varsOfGroup template g) as [|v vars] eqn:E; [done|]. cbn [listOrNone].
  rewrite !forallb_app. apply andb_true_iff. split; [|apply andb_true_iff; split; [|done]].
  - clear E. unfold groupOrder in Hg. cbn [map In] in Hg.
    repeat (destruct Hg as [<-|Hg]; [vm_compute; reflexivity|]). done.
  - apply forallb_map_true. intros x Hx. apply oneLine_askLine.
    + rewrite forallb_forall in Hv. apply Hv. rewrite <- E in Hx. by apply In_varsOfGroup in Hx.
    + apply oneLine_generateSmartQuestion.
      rewrite forallb_forall in Hv. apply Hv. rewrite <- E in Hx. by apply In_varsOfGroup in Hx.
    + apply oneLine_escapeDefault.
Qed.

Lemma oneLine_otherSection (template : Template) :
  forallb (fun v => oneLine (KloreVariable.name v)) (KloreTemplate.variables template) = true ->
  forallb oneLine (otherSection (groupVars template)) = true.
Proof.
  intros Hv. pose proof (keptLines_otherSection template) as _.
  unfold otherSection. rewrite !groupVars_lookup.
  assert (forall l : list KloreVariable.t,
            (forall x, In x l -> In x (KloreTemplate.variables template)) ->
            forallb oneLine
              match listOrNone l with
              | None | Some [] => []
              | Some vars => [str "# 📦 OTHER SETTINGS"; rule] ++ map askOther vars ++ [[]]
              end = true) as H.
  { intros [|v vars] Hl; [done|]. cbn [listOrNone].
    rewrite !forallb_app. apply andb_true_iff. split; [reflexivity|].
    apply andb_true_iff. split; [|done].
    apply forallb_map_true. intros x Hx. apply oneLine_askLine.
    - rewrite forallb_forall in Hv. by apply Hv, Hl.
    - apply oneLine_generateSmartQuestion. rewrite forallb_forall in Hv. by apply Hv, Hl.
    - apply oneLine_truncate100, oneLine_escapeDefault. }
  destruct (varsOfGroup template (str "other")) as [|v vars] eqn:E.
  - cbn [listOrNone]. apply H. apply In_varsOfGroup.
  - apply (H (v :: vars)). intros x Hx. rewrite <- E in Hx. by apply In_varsOfGroup in Hx.
Qed.

Lemma oneLine_join (sep : text) (l : list text) :
  oneLine sep = true -> forallb oneLine l = true -> oneLine (join sep l) = true.
Proof.
  intros Hsep. induction l as [|x l IH]; [done|]. cbn [forallb].
  intros [Hx Hl]%andb_true_iff. destruct l as [|y l]; [done|].
  change (join sep (x :: y :: l)) with (x ++ sep ++ join sep (y :: l)).
  by rewrite !oneLine_app, Hx, Hsep, IH.
Qed.

Lemma oneLine_replaceLine (r : KloreReplacement.t) :
  oneLine (KloreReplacement.variable r) = true ->
  forallb oneLine (KloreReplacement.filePatterns r) = true ->
  oneLine (replaceLine r) = true.
Proof.
  intros Hv Hp. unfold replaceLine.
  rewrite !oneLine_app, !oneLine_quoted, !oneLine_app, oneLine_escapeOriginal, Hv.
  rewrite oneLine_join; [done|done|].
  apply forallb_map_true. intros x Hx. rewrite oneLine_quoted.
  rewrite forallb_forall in Hp. by apply Hp.
Qed.

Lemma oneLine_replacementSection (template : Template) (g : text) :
  forallb (fun r => oneLine (KloreReplacement.variable r)
                    && forallb oneLine (KloreReplacement.filePatterns r))
    (KloreTemplate.replacements template) = true ->
  In g (groupOrder ++ [str "other"]) ->
  forallb oneLine (replacementSection (groupReplacements template) g) = true.
Proof.
  intros Hr Hg. unfold replacementSection. rewrite groupReplacements_lookup.
  destruct (replacementsOfGroup template g) as [|r rs] eqn:E; [done|]. cbn [listOrNone].
  rewrite !forallb_app. apply andb_true_iff. split; [|apply andb_true_iff; split; [|done]].
  - clear E. unfold groupOrder in Hg. cbn [map In app] in Hg.
    repeat (destruct Hg as [<-|Hg]; [vm_compute; reflexivity|]). done.
  - apply forallb_map_true. intros x Hx. rewrite <- E in Hx.
    apply In_replacementsOfGroup in Hx. rewrite forallb_forall in Hr.
    apply Hr in Hx. apply andb_true_iff in Hx as [? ?]. by apply oneLine_replaceLine.
Qed.

Lemma oneLine_includes_msg (cmd : text) :
  oneLine cmd = true -> oneLine (commandMessage cmd) = true.
Proof.
  intros H. unfold commandMessage.
  repeat match goal with |- context [if ?b then _ else _] => destruct b end;
    rewrite ?oneLine_app, ?H; reflexivity.
Qed.

Lemma oneLine_runSection (template : Template) :
  forallb oneLine (default [] (KloreTemplate.onInstall template)) = true ->
  forallb oneLine (runSection template) = true.
Proof.
  intros H. unfold runSection.
  destruct (default [] (KloreTemplate.onInstall template)) as [|c cs] eqn:E; [reflexivity|].
  apply forallb_map_true. intros x Hx. unfold runLine.
  rewrite forallb_forall in H. specialize (H x Hx).
  by rewrite !oneLine_app, !oneLine_quoted, H, oneLine_includes_msg.
Qed.

(** No generated line holds a line feed when the fields hold none. *)
Lemma forallb_oneLine_cons (a : text) (l : list text) :
  forallb oneLine (a :: l) = oneLine a && forallb oneLine l.
Proof. reflexivity. Qed.

Lemma oneLine_generateLines (template : Template) :
  singleLine template = true -> forallb oneLine (generateLines template) = true.
Proof.
  unfold singleLine. rewrite !andb_true_iff.
  intros [[[[[[Hname Hversion] Hframework] Hhints] Hvars] Hrepl] Hcmds].
  unfold generateLines. cbv zeta. rewrite !forallb_app, !andb_true_iff.
  repeat match goal with |- _ /\ _ => split end.
  - rewrite !forallb_oneLine_cons, !oneLine_app, oneLine_quoted, oneLine_app,
      oneLine_dashSpaces, Hname.
    reflexivity.
  - destruct (notEmpty _); [|done].
    by rewrite forallb_oneLine_cons, oneLine_app, oneLine_quoted, Hversion.
  - destruct (KloreTemplate.framework template) as [[|c f]|]; try done.
    by rewrite forallb_oneLine_cons, oneLine_app, oneLine_quoted, Hframework.
  - reflexivity.
  - destruct (KloreTemplate.aiHints template) as [[|h hs]|]; try done.
    rewrite !forallb_app. apply andb_true_iff. split; [reflexivity|].
    apply andb_true_iff. split; [|done].
    apply forallb_map_true. intros x Hx. cbn [default] in Hhints.
    rewrite forallb_forall in Hhints. by rewrite oneLine_app, (Hhints x Hx).
  - reflexivity.
  - apply forallb_concat_map. intros g Hg. by apply oneLine_groupSection.
  - by apply oneLine_otherSection.
  - reflexivity.
  - apply forallb_concat_map. intros g Hg. by apply oneLine_replacementSection.
  - reflexivity.
  - by apply oneLine_runSection.
  - reflexivity.
Qed.

(** The lines that the parser reads back from a generated definition. *)
Lemma contentLines_generateKlore (template : Template) :
  singleLine template = true ->
  contentLines (generateKlore template)
  = headLines template ++ askLines template
    ++ [str "ON INSTALL"; copyLine]
    ++ map (fun r => trim (replaceLine r)) (renderedReplacements template)
    ++ map trim (runSection template)
    ++ [str "END"].
Proof.
  intros H. rewrite contentLines_keptLines. unfold generateKlore.
  rewrite splitOn_join.
  - apply keptLines_generate.
  - unfold generateLines. done.
  - by apply oneLine_generateLines.
Qed.

(** ** The ASK lines of a generated definition *)

(** C9, as the code has it: the generator does not deduplicate.  For a
    template whose written fields hold no line feed, the lines of the
    generated text that start with ASK are one for each variable of the
    template filed under a canonical group, group after group in the
    canonical order, then one for each variable of the closing section,
    in the order of the template, every occurrence of a repeated name
    included, each with the default and the required flag of its own
    occurrence.  (The names of the groups and of the variables are not
    ones that a plain object inherits, and the names and the defaults of
    the variables are 7-bit text.) *)
Theorem generateKlore_ask_lines (template : Template) :
  singleLine template = true ->
  ownGroups template = true ->
  ownNames template = true ->
  sevenBitVariables template = true ->
  List.filter isAskLine (splitOn "010" (generateKlore template))
  = concat (map (fun g => map (askGrouped g) (varsOfGroup template g)) groupOrder)
    ++ map askOther (otherVarsOf template).
Proof.
  intros Hs _ _ _. unfold generateKlore. rewrite splitOn_join.
  - apply generateLines_asks.
  - unfold generateLines. done.
  - by apply oneLine_generateLines.
Qed.

Lemma generateKlore_ask_lines_witness :
  List.filter isAskLine (splitOn "010" (generateKlore duplicateTemplate))
  = concat (map (fun g => map (askGrouped g) (varsOfGroup duplicateTemplate g)) groupOrder)
    ++ map askOther (otherVarsOf duplicateTemplate).
Proof. apply (generateKlore_ask_lines duplicateTemplate); vm_compute; reflexivity. Defined.

(** ** The parser on the lines of a generated definition *)

Lemma spanOf_app (p : ascii -> bool) (a b : text) :
  forallb p a = true ->
  match b with c :: _ => p c = false | [] => True end ->
  spanOf p (a ++ b) = (a, b).
Proof.
  intros Ha Hb. induction a as [|x a IH]; cbn [app spanOf].
  - destruct b as [|c b]; [done|]. cbn [spanOf]. by rewrite Hb.
  - cbn [forallb] in Ha. apply andb_true_iff in Ha as [-> Ha]. by rewrite IH.
Qed.

Lemma spaced_head (tail : text) :
  spaced tail -> match tail with c :: _ => negb (isSpace c) = false | [] => True end.
Proof. intros [->|(w & y & -> & Hw)]; [done|]. by rewrite Hw. Qed.

(** The first token of a line that starts with a plain word. *)
Lemma tokenize_word (k : ascii) (word tail : text) :
  forallb (fun c => negb (isSpace c)) (k :: word) = true ->
  isDQuote k = false -> isSQuote k = false -> ceq k "[" = false ->
  spaced tail ->
  exists toks, tokenize (k :: word ++ tail) = (k :: word) :: toks.
Proof.
  intros Hw Hd Hs Hb Ht. cbn [forallb] in Hw. apply andb_true_iff in Hw as [Hk Hw].
  apply negb_true_iff in Hk.
  unfold tokenize. cbn [tokenizeFrom]. rewrite Hk.
  unfold tokenAt. rewrite Hd, Hs, Hb.
  rewrite (spanOf_app _ word tail Hw (spaced_head tail Ht)). cbn [fst].
  eauto.
Qed.

Lemma isBlockStart_word (k : ascii) (word tail : text) :
  forallb (fun c => negb (isSpace c)) (k :: word) = true ->
  isDQuote k = false -> isSQuote k = false -> ceq k "[" = false ->
  spaced tail ->
  isBlockStart (k :: word ++ tail)
  = teq (toUpperCase (k :: word)) (str "ON_INSTALL") || teq (toUpperCase (k :: word)) (str "ON").
Proof.
  intros Hw Hd Hs Hb Ht. unfold isBlockStart.
  by destruct (tokenize_word k word tail Hw Hd Hs Hb Ht) as [toks ->].
Qed.

Lemma spaced_space (s : text) : spaced (" " :: s).
Proof. right. by exists " ", s. Qed.

(** What a line of the head does: it sets the name, the version or the
    framework, and nothing else. *)
Definition sameLists (a b : Template) : Prop :=
  KloreTemplate.variables a = KloreTemplate.variables b
  /\ KloreTemplate.replacements a = KloreTemplate.replacements b
  /\ KloreTemplate.onInstall a = KloreTemplate.onInstall b.

Lemma sameLists_refl t : sameLists t t.
Proof. by repeat split. Qed.

Lemma sameLists_trans a b c : sameLists a b -> sameLists b c -> sameLists a c.
Proof. intros (?&?&?) (?&?&?). repeat split; congruence. Qed.

Lemma wordLine_top (k : ascii) (word x : text) (t : Template) :
  forallb (fun c => negb (isSpace c)) (k :: word) = true ->
  isDQuote k = false -> isSQuote k = false -> ceq k "[" = false ->
  elemT (toUpperCase (k :: word)) (map str ["NAME"; "VERSION"; "FRAMEWORK"]%string) = true ->
  isBlockStart (k :: word ++ " " :: x) = false
  /\ sameLists (topLine (k :: word ++ " " :: x) t) t.
Proof.
  intros Hw Hd Hs Hb Hk.
  destruct (tokenize_word k word (" " :: x) Hw Hd Hs Hb (spaced_space x)) as [toks Ht].
  cbn [elemT existsb map] in Hk. rewrite !orb_true_iff in Hk.
  split.
  - rewrite isBlockStart_word by (try done; apply spaced_space).
    destruct Hk as [Hk|[Hk|[Hk|Hk]]]; try done; apply teq_eq in Hk; by rewrite Hk.
  - unfold topLine, parseLine. rewrite Ht.
    destruct Hk as [Hk|[Hk|[Hk|Hk]]]; try done; apply teq_eq in Hk; rewrite Hk;
      by repeat split.
Qed.

Lemma headLine_top (line : text) (template : Template) :
  In line (headLines template) ->
  forall t, isBlockStart line = false /\ sameLists (topLine line t) t.
Proof.
  unfold headLines. rewrite !in_app_iff. intros [[<-|[]]|[H|H]] t.
  - change (str "NAME " ++ ?x) with ("N" :: str "AME" ++ " " :: x).
    by apply wordLine_top.
  - destruct (notEmpty _); [|done]. destruct H as [<-|[]].
    change (str "VERSION " ++ ?x) with ("V" :: str "ERSION" ++ " " :: x).
    by apply wordLine_top.
  - destruct (KloreTemplate.framework template) as [[|c f]|]; try done.
    destruct H as [<-|[]].
    change (str "FRAMEWORK " ++ ?x) with ("F" :: str "RAMEWORK" ++ " " :: x).
    by apply wordLine_top.
Qed.

Lemma askLine_top (v : KloreVariable.t) (q d : text) (t : Template) :
  isBlockStart (askLine v q d) = false
  /\ topLine (askLine v q d) t = KloreTemplate.push_variable (parseAsk (askLine v q d)) t.
Proof.
  assert (exists rest, askLine v q d = "A" :: str "SK" ++ " " :: rest) as [rest E].
  { unfold askLine. change (str "ASK ") with ("A" :: str "SK" ++ [" "]).
    cbn [app]. rewrite <- app_assoc. cbn [app]. eauto. }
  destruct (tokenize_word "A" (str "SK") (" " :: rest) eq_refl eq_refl eq_refl eq_refl
              (spaced_space rest)) as [toks Ht].
  split.
  - rewrite E. by rewrite isBlockStart_word by (try done; apply spaced_space).
  - unfold topLine, parseLine. rewrite E at 1. rewrite Ht. reflexivity.
Qed.

Lemma parseFrom_top_app (lines rest : list text) :
  Forall (fun l => isBlockStart l = false) lines ->
  forall t, parseFrom false (lines ++ rest) t
            = parseFrom false rest (fold_left (fun t l => topLine l t) lines t).
Proof.
  induction 1 as [|l lines Hl _ IH]; intros t; [done|].
  cbn [app parseFrom fold_left]. rewrite Hl. apply IH.
Qed.

Lemma parseFrom_block_app (lines rest : list text) :
  Forall (fun l => teq (toUpperCase l) (str "END") = false) lines ->
  forall t, parseFrom true (lines ++ rest) t
            = parseFrom true rest (fold_left (fun t l => blockLine l t) lines t).
Proof.
  induction 1 as [|l lines Hl _ IH]; intros t; [done|].
  cbn [app parseFrom fold_left]. rewrite Hl. apply IH.
Qed.

Lemma trimStart_idem (s : text) : trimStart (trimStart s) = trimStart s.
Proof.
  induction s as [|c s IH]; [done|]. cbn [trimStart].
  destruct (isSpace c) eqn:E; [done|]. cbn [trimStart]. by rewrite E.
Qed.

Lemma trimStart_head (s : text) :
  match trimStart s with c :: _ => isSpace c = false | [] => True end.
Proof.
  induction s as [|c s IH]; [done|]. cbn [trimStart].
  by destruct (isSpace c) eqn:E.
Qed.

Lemma trim_trim (s : text) : trim (trim s) = trim s.
Proof.
  unfold trim. pose proof (trimStart_head s) as Hh.
  destruct (trimStart s) as [|c u]; [done|].
  rewrite trimEnd_cons_nonspace by done.
  cbn [trimStart]. rewrite Hh.
  rewrite <- (trimEnd_cons_nonspace c u Hh).
  unfold trimEnd. by rewrite rev_involutive, trimStart_idem.
Qed.

Lemma replaceLine_block (r : KloreReplacement.t) (t : Template) :
  teq (toUpperCase (trim (replaceLine r))) (str "END") = false
  /\ blockLine (trim (replaceLine r)) t
     = KloreTemplate.push_replacement (parseReplacement (trim (replaceLine r))) t.
Proof.
  destruct (trim_replaceLine r) as (tail & E & _).
  assert (startsWith (str "RUN") (toUpperCase (trim (replaceLine r))) = false) as H1
    by (rewrite E; reflexivity).
  assert (startsWith (str "REPLACE") (toUpperCase (trim (replaceLine r))) = true) as H2
    by (rewrite E; reflexivity).
  split.
  - rewrite E. reflexivity.
  - unfold blockLine. by rewrite trim_trim, H1, H2.
Qed.

Lemma runLine_block (cmd msg : text) (t : Template) :
  teq (toUpperCase (trim (runLine cmd msg))) (str "END") = false
  /\ blockLine (trim (runLine cmd msg)) t
     = (if notEmpty (extractString (trim (runLine cmd msg)))
        then KloreTemplate.push_onInstall (extractString (trim (runLine cmd msg))) t
        else t).
Proof.
  destruct (trim_runLine cmd msg) as (tail & E & _).
  assert (startsWith (str "RUN") (toUpperCase (trim (runLine cmd msg))) = true) as H1
    by (rewrite E; reflexivity).
  split.
  - rewrite E. reflexivity.
  - unfold blockLine. by rewrite trim_trim, H1.
Qed.

(** The commands that the parser reads from RUN lines. *)
Definition commandsOf (lines : list text) : list text :=
  List.filter notEmpty (map extractString lines).

Lemma fold_top_head (template : Template) (lines : list text) :
  (forall l, In l lines -> In l (headLines template)) ->
  forall t,
    Forall (fun l => isBlockStart l = false) lines
    /\ sameLists (fold_left (fun t l => topLine l t) lines t) t.
Proof.
  induction lines as [|l lines IH]; intros Hin t.
  - split; [constructor|apply sameLists_refl].
  - destruct (headLine_top l template (Hin l (or_introl eq_refl)) t) as [Hb Hs].
    destruct (IH (fun x Hx => Hin x (or_intror Hx)) (topLine l t)) as [Hbs Hss].
    split; [by constructor|]. cbn [fold_left]. by eapply sameLists_trans.
Qed.

(** A line built by [askLine]. *)
Definition askShaped (l : text) : Prop := exists v q d, l = askLine v q d.

Lemma fold_top_asks (lines : list text) :
  Forall askShaped lines ->
  forall t,
    Forall (fun l => isBlockStart l = false) lines
    /\ KloreTemplate.variables (fold_left (fun t l => topLine l t) lines t)
       = KloreTemplate.variables t ++ map parseAsk lines
    /\ KloreTemplate.replacements (fold_left (fun t l => topLine l t) lines t)
       = KloreTemplate.replacements t
    /\ KloreTemplate.onInstall (fold_left (fun t l => topLine l t) lines t)
       = KloreTemplate.onInstall t.
Proof.
  induction 1 as [|l lines (v & q & d & ->) _ IH]; intros t.
  - split; [constructor|]. by rewrite app_nil_r.
  - destruct (askLine_top v q d t) as [Hb Ht].
    destruct (IH (topLine (askLine v q d) t)) as (Hbs & Hv & Hr & Ho).
    split; [by constructor|]. cbn [fold_left map]. rewrite Hv, Hr, Ho, Ht.
    cbn. by rewrite <- app_assoc.
Qed.

Lemma askLines_shaped (template : Template) : Forall askShaped (askLines template).
Proof.
  unfold askLines. apply Forall_app. split.
  - apply Forall_concat, Forall_forall. intros ls [g [<- _]]%list_elem_of_In%in_map_iff.
    apply Forall_forall. intros l [v [<- _]]%list_elem_of_In%in_map_iff.
    unfold askGrouped. red. eauto.
  - apply Forall_forall. intros l [v [<- _]]%list_elem_of_In%in_map_iff.
    unfold askOther. red. eauto.
Qed.

Lemma fold_block_replaces (rs : list KloreReplacement.t) :
  forall t,
    Forall (fun l => teq (toUpperCase l) (str "END") = false)
      (map (fun r => trim (replaceLine r)) rs)
    /\ KloreTemplate.variables
         (fold_left (fun t l => blockLine l t) (map (fun r => trim (replaceLine r)) rs) t)
       = KloreTemplate.variables t
    /\ KloreTemplate.replacements
         (fold_left (fun t l => blockLine l t) (map (fun r => trim (replaceLine r)) rs) t)
       = KloreTemplate.replacements t
         ++ map (fun r => parseReplacement (trim (replaceLine r))) rs
    /\ KloreTemplate.onInstall
         (fold_left (fun t l => blockLine l t) (map (fun r => trim (replaceLine r)) rs) t)
       = KloreTemplate.onInstall t.
Proof.
  induction rs as [|r rs IH]; intros t.
  - split; [constructor|]. by rewrite app_nil_r.
  - destruct (replaceLine_block r t) as [He Hb].
    destruct (IH (blockLine (trim (replaceLine r)) t)) as (Hes & Hv & Hr & Ho).
    split; [by constructor|]. cbn [fold_left map]. rewrite Hv, Hr, Ho, Hb.
    cbn. by rewrite <- app_assoc.
Qed.

Lemma fold_block_runs (cmds : list (text * text)) :
  forall t,
    let lines := map (fun p => trim (runLine (fst p) (snd p))) cmds in
    Forall (fun l => teq (toUpperCase l) (str "END") = false) lines
    /\ KloreTemplate.variables (fold_left (fun t l => blockLine l t) lines t)
       = KloreTemplate.variables t
    /\ KloreTemplate.replacements (fold_left (fun t l => blockLine l t) lines t)
       = KloreTemplate.replacements t
    /\ KloreTemplate.onInstall (fold_left (fun t l => blockLine l t) lines t)
       = option_map (fun l => l ++ commandsOf lines) (KloreTemplate.onInstall t).
Proof.
  induction cmds as [|[cmd msg] cmds IH]; intros t; cbv zeta.
  - split; [constructor|]. repeat split. cbn. destruct (KloreTemplate.onInstall t); [|done].
    cbn. by rewrite app_nil_r.
  - destruct (runLine_block cmd msg t) as [He Hb].
    destruct (IH (blockLine (trim (runLine cmd msg)) t)) as (Hes & Hv & Hr & Ho).
    split; [by constructor|]. cbn [fold_left map fst snd].
    rewrite Hv, Hr, Ho, Hb. unfold commandsOf. cbn [map List.filter].
    destruct (notEmpty (extractString (trim (runLine cmd msg)))).
    + cbn. repeat split. destruct (KloreTemplate.onInstall t); [|done].
      cbn. by rewrite <- app_assoc.
    + done.
Qed.

(** The commands of the RUN lines and their messages. *)
Definition runPairs (template : Template) : list (text * text) :=
  match default [] (KloreTemplate.onInstall template) with
  | [] => defaultCommands
  | commands => map (fun cmd => (cmd, commandMessage cmd)) commands
  end.

Lemma runSection_pairs (template : Template) :
  runSection template = map (fun p => runLine (fst p) (snd p)) (runPairs template).
Proof.
  unfold runSection, runPairs.
  destruct (default [] (KloreTemplate.onInstall template)); [done|].
  by rewrite map_map.
Qed.

(** What the parser reads back from a generated definition whose fields
    hold no line feed: the variables of the ASK lines, the replacements of
    the REPLACE lines and the commands of the RUN lines, in the order in
    which the generator wrote them. *)
Lemma parseKlore_generateKlore (template : Template) :
  singleLine template = true ->
  exists parsed,
    parseKlore (generateKlore template) = Some parsed
    /\ KloreTemplate.variables parsed = map parseAsk (askLines template)
    /\ KloreTemplate.replacements parsed
       = map (fun r => parseReplacement (trim (replaceLine r))) (renderedReplacements template)
    /\ KloreTemplate.onInstall parsed
       = Some (commandsOf (map (fun p => trim (runLine (fst p) (snd p))) (runPairs template))).
Proof.
  intros Hs. destruct (parseKlore_returns (generateKlore template)) as [-> _].
  eexists. split; [reflexivity|].
  rewrite (contentLines_generateKlore template Hs), runSection_pairs, map_map.
  destruct (fold_top_head template (headLines template) (fun l H => H) emptyTemplate)
    as [Hb1 (Hv1 & Hr1 & Ho1)].
  set (t1 := fold_left (fun t l => topLine l t) (headLines template) emptyTemplate) in *.
  destruct (fold_top_asks (askLines template) (askLines_shaped template) t1)
    as (Hb2 & Hv2 & Hr2 & Ho2).
  set (t2 := fold_left (fun t l => topLine l t) (askLines template) t1) in *.
  destruct (fold_block_replaces (renderedReplacements template) t2) as (He3 & Hv3 & Hr3 & Ho3).
  set (t3 := fold_left (fun t l => blockLine l t)
               (map (fun r => trim (replaceLine r)) (renderedReplacements template)) t2) in *.
  destruct (fold_block_runs (runPairs template) t3) as (He4 & Hv4 & Hr4 & Ho4).
  cbv zeta in He4, Hv4, Hr4, Ho4.
  set (t4 := fold_left (fun t l => blockLine l t)
               (map (fun p => trim (runLine (fst p) (snd p))) (runPairs template)) t3) in *.
  assert (parseFrom false
            (headLines template ++ askLines template ++ [str "ON INSTALL"; copyLine]
             ++ map (fun r => trim (replaceLine r)) (renderedReplacements template)
             ++ map (fun p => trim (runLine (fst p) (snd p))) (runPairs template)
             ++ [str "END"]) emptyTemplate = t4) as ->.
  { rewrite parseFrom_top_app by done. fold t1.
    rewrite parseFrom_top_app by done. fold t2.
    cbn [app]. change (parseFrom false (str "ON INSTALL" :: ?l) t2) with (parseFrom true l t2).
    change (parseFrom true (copyLine :: ?l) t2) with (parseFrom true l t2).
    rewrite parseFrom_block_app by done. fold t3.
    rewrite parseFrom_block_app by done. fold t4.
    reflexivity. }
  rewrite Hv4, Hv3, Hv2, Hv1, Hr4, Hr3, Hr2, Hr1, Ho4, Ho3, Ho2, Ho1.
  repeat split.
Qed.

(** ** The default install commands *)







(** ** Searching in text *)

Lemma includes_cons (p : text) (c : ascii) (s : text) :
  includes p (c :: s) = startsWith p (c :: s) || includes p s.
Proof.
  unfold includes. cbn [indexOf]. destruct (startsWith p (c :: s)); [done|].
  cbn [orb]. by destruct (indexOf p s).
Qed.








(** ** Case *)






Lemma isDQuote_loc (c : ascii) : isDQuote (loc c) = isDQuote c.
Proof. destruct c as [[] [] [] [] [] [] [] []]; reflexivity. Qed.







(** ** The question of an ASK line *)


Lemma forallb_rev (P : ascii -> bool) (s : text) : forallb P (rev s) = forallb P s.
Proof.
  induction s as [|c s IH]; [done|]. cbn [rev forallb].
  rewrite forallb_app, IH. cbn [forallb]. rewrite andb_true_r. apply andb_comm.
Qed.


Lemma forallb_impl (P Q : ascii -> bool) (s : text) :
  (forall c, P c = true -> Q c = true) -> forallb P s = true -> forallb Q s = true.
Proof.
  intros H. induction s as [|c s IH]; [done|]. cbn [forallb].
  intros [Hc Hs]%andb_true_iff. by rewrite (H c Hc), IH.
Qed.

Lemma forallb_map_char (P : ascii -> bool) (f : ascii -> ascii) (s : text) :
  (forall c, P (f c) = P c) -> forallb P (map f s) = forallb P s.
Proof.
  intros H. induction s as [|c s IH]; [done|]. cbn [map forallb]. by rewrite H, IH.
Qed.








(** ** Leftmost matches *)



Lemma spanOf_spec (p : ascii -> bool) (s : text) :
  s = fst (spanOf p s) ++ snd (spanOf p s)
  /\ forallb p (fst (spanOf p s)) = true
  /\ match snd (spanOf p s) with c :: _ => p c = false | [] => True end.
Proof.
  induction s as [|c s IH]; [done|]. cbn [spanOf].
  destruct (p c) eqn:E; [|done].
  destruct (spanOf p s) as [a b]. cbn [fst snd] in *.
  destruct IH as (-> & Ha & Hb). cbn [forallb]. by rewrite E, Ha.
Qed.








Lemma endsWith_refl (p : text) : endsWith p p = true.
Proof. unfold endsWith. rewrite <- (app_nil_r (rev p)) at 2. apply startsWith_app. Qed.







Lemma breakAt_app (p : ascii -> bool) (a : text) (c : ascii) (b : text) :
  forallb (fun x => negb (p x)) a = true -> p c = true ->
  breakAt p (a ++ c :: b) = Some (a, b).
Proof.
  intros Ha Hc. induction a as [|x a IH]; cbn [app breakAt].
  - by rewrite Hc.
  - cbn [forallb] in Ha. apply andb_true_iff in Ha as [Hx Ha]. apply negb_true_iff in Hx.
    by rewrite Hx, IH.
Qed.

(** ** An ASK line read back *)











(** ** A REPLACE line read back *)


(** The scan of an escaped original ends at the quote that closes it. *)
Lemma scanOriginal_escaped (o rest : text) : forall i,
  scanOriginal false i (flat_map escapeChar o ++ dq :: rest)
  = Some (i + length (flat_map escapeChar o)).
Proof.
  induction o as [|c o IH]; intros i.
  - cbn [flat_map app scanOriginal length]. change (ceq dq "\") with false.
    change (isDQuote dq) with true. cbn [andb negb]. f_equal. lia.
  - cbn [flat_map]. rewrite <- app_assoc. unfold escapeChar at 1 3.
    destruct (ceq c "\") eqn:E1; [|destruct (ceq c dq) eqn:E2; [|destruct (ceq c "010") eqn:E3]].
    + cbn [app scanOriginal length]. change (ceq "\" "\") with true. cbn [andb negb].
      change (isDQuote "\") with false. cbn [andb]. rewrite IH. f_equal. lia.
    + cbn [app scanOriginal length]. change (ceq "\" "\") with true. cbn [andb negb].
      change (ceq dq "\") with false. change (isDQuote dq) with true. cbn [andb negb].
      rewrite IH. f_equal. lia.
    + cbn [app scanOriginal length]. change (ceq "\" "\") with true. cbn [andb negb].
      change (ceq "n" "\") with false. change (isDQuote "n") with false. cbn [andb].
      rewrite IH. f_equal. lia.
    + cbn [app scanOriginal length]. rewrite E1. unfold isDQuote. rewrite E2. cbn [andb].
      rewrite IH. f_equal. lia.
Qed.















(** ** Variables and replacements through a generated definition *)














(** The variables and the replacements that the generator writes, in the
    order of its sections. *)
Definition writtenVariables (template : Template) : list KloreVariable.t :=
  concat (map (varsOfGroup template) groupOrder) ++ otherVarsOf template.

Lemma In_writtenVariables (template : Template) (v : KloreVariable.t) :
  In v (writtenVariables template) -> In v (KloreTemplate.variables template).
Proof.
  unfold writtenVariables. rewrite in_app_iff, in_concat.
  intros [(l & [g [<- _]]%in_map_iff & Hv)|Hv].
  - by apply In_varsOfGroup in Hv.
  - by apply In_otherVarsOf in Hv.
Qed.



(** ** The order of the sections *)


(** A list of names without a repetition. *)
Fixpoint distinctT (ks : list text) : bool :=
  match ks with
  | [] => true
  | k :: r => negb (elemT k r) && distinctT r
  end.

Lemma elemT_In (x : text) (l : list text) : elemT x l = true <-> In x l.
Proof.
  unfold elemT. rewrite existsb_exists. split.
  - intros (y & Hy & ->%teq_eq). done.
  - intros H. exists x. split; [done|apply teq_refl].
Qed.


Definition canonicalKeys : list text := groupOrder ++ [str "other"].





Lemma concat_nil_map {A B} (f : A -> list B) (l : list A) :
  (forall x, In x l -> f x = []) -> concat (map f l) = [].
Proof.
  induction l as [|x l IH]; intros H; [done|]. cbn [map concat].
  rewrite (H x) by (by left). apply IH. intros y Hy. apply H. by right.
Qed.


(** ** The round trip of the variables and of the replacements *)








(** ** The round trip of a template *)








(** ** Quoted values *)

Definition quoteFree (s : text) : bool := forallb (fun c => negb (isDQuote c)) s.

Lemma extractString_first (k s rest : text) :
  forallb (fun c => negb (isQuote c)) k = true ->
  quoteFree s = true ->
  extractString (k ++ quoted s ++ rest) = s.
Proof.
  intros Hk Hs. induction k as [|c k IH].
  - unfold quoted. cbn [app extractString]. change (isDQuote dq) with true. cbv iota.
    rewrite <- app_assoc. cbn [app]. by rewrite breakAt_app.
  - cbn [forallb] in Hk. apply andb_true_iff in Hk as [Hc Hk].
    apply negb_true_iff in Hc. unfold isQuote in Hc. apply orb_false_iff in Hc as [Hd Hq].
    cbn [app extractString]. rewrite Hd, Hq. by apply IH.
Qed.

Lemma extractString_only (k s : text) :
  forallb (fun c => negb (isQuote c)) k = true ->
  quoteFree s = true ->
  extractString (k ++ quoted s) = s.
Proof.
  intros Hk Hs. rewrite <- (app_nil_r (quoted s)). by apply extractString_first.
Qed.

Lemma extractString_none (line : text) :
  forallb (fun c => negb (isQuote c)) line = true -> extractString line = [].
Proof.
  induction line as [|c r IH]; [done|]. cbn [forallb extractString].
  intros [Hc Hr]%andb_true_iff. apply negb_true_iff in Hc. unfold isQuote in Hc.
  apply orb_false_iff in Hc as [-> ->]. by apply IH.
Qed.

(** ** The head of a generated definition *)

(** The fields that only a line of the head, a GROUP line or a hint can
    set. *)
Definition sameHead (a b : Template) : Prop :=
  KloreTemplate.name a = KloreTemplate.name b
  /\ KloreTemplate.version a = KloreTemplate.version b
  /\ KloreTemplate.author a = KloreTemplate.author b
  /\ KloreTemplate.description a = KloreTemplate.description b
  /\ KloreTemplate.framework a = KloreTemplate.framework b
  /\ KloreTemplate.requires a = KloreTemplate.requires b
  /\ KloreTemplate.groups a = KloreTemplate.groups b
  /\ KloreTemplate.aiHints a = KloreTemplate.aiHints b.

Lemma sameHead_refl t : sameHead t t.
Proof. by repeat split. Qed.

Lemma sameHead_trans a b c : sameHead a b -> sameHead b c -> sameHead a c.
Proof.
  intros (?&?&?&?&?&?&?&?) (?&?&?&?&?&?&?&?). repeat split; congruence.
Qed.

Lemma blockLine_sameHead (line : text) (t : Template) : sameHead (blockLine line t) t.
Proof.
  unfold blockLine.
  destruct (startsWith (str "RUN") _).
  - destruct (notEmpty _); by repeat split.
  - destruct (startsWith (str "REPLACE") _); by repeat split.
Qed.

Lemma fold_block_sameHead (lines : list text) (t : Template) :
  sameHead (fold_left (fun t l => blockLine l t) lines t) t.
Proof.
  revert t. induction lines as [|l lines IH]; intros t; [apply sameHead_refl|].
  cbn [fold_left]. eapply sameHead_trans; [apply IH|apply blockLine_sameHead].
Qed.

Lemma fold_asks_sameHead (lines : list text) (t : Template) :
  Forall askShaped lines ->
  sameHead (fold_left (fun t l => topLine l t) lines t) t.
Proof.
  intros H. revert t. induction H as [|l lines (v & q & d & ->) _ IH]; intros t;
    [apply sameHead_refl|].
  cbn [fold_left]. eapply sameHead_trans; [apply IH|].
  destruct (askLine_top v q d t) as [_ ->]. by repeat split.
Qed.

(** The template that the parser builds from the lines of a generated
    definition: the head, then the ASK lines, then the block. *)
Definition afterHead (template : Template) : Template :=
  fold_left (fun t l => topLine l t) (headLines template) emptyTemplate.

Lemma parsed_sameHead (template : Template) :
  singleLine template = true ->
  exists parsed,
    parseKlore (generateKlore template) = Some parsed
    /\ sameHead parsed (afterHead template).
Proof.
  intros Hs. destruct (parseKlore_returns (generateKlore template)) as [-> _].
  eexists. split; [reflexivity|].
  rewrite (contentLines_generateKlore template Hs), runSection_pairs, map_map.
  destruct (fold_top_head template (headLines template) (fun l H => H) emptyTemplate)
    as [Hb1 _].
  destruct (fold_top_asks (askLines template) (askLines_shaped template) (afterHead template))
    as (Hb2 & _).
  rewrite parseFrom_top_app by done. fold (afterHead template).
  rewrite parseFrom_top_app by done.
  set (t2 := fold_left (fun t l => topLine l t) (askLines template) (afterHead template)).
  cbn [app]. change (parseFrom false (str "ON INSTALL" :: ?l) t2) with (parseFrom true l t2).
  change (parseFrom true (copyLine :: ?l) t2) with (parseFrom true l t2).
  destruct (fold_block_replaces (renderedReplacements template) t2) as (He3 & _).
  rewrite parseFrom_block_app by done.
  set (t3 := fold_left (fun t l => blockLine l t) _ t2).
  destruct (fold_block_runs (runPairs template) t3) as (He4 & _). cbv zeta in He4.
  rewrite parseFrom_block_app by done.
  cbn [parseFrom]. change (teq (toUpperCase (str "END")) (str "END")) with true. cbv iota.
  eapply sameHead_trans; [apply fold_block_sameHead|].
  eapply sameHead_trans; [apply fold_block_sameHead|].
  apply fold_asks_sameHead, askLines_shaped.
Qed.

Lemma topLine_NAME (x : text) (t : Template) :
  quoteFree x = true ->
  topLine (str "NAME " ++ quoted x) t = KloreTemplate.set_name x t.
Proof.
  intros Hx. change (str "NAME " ++ quoted x) with ("N" :: str "AME" ++ " " :: quoted x).
  destruct (tokenize_word "N" (str "AME") (" " :: quoted x) eq_refl eq_refl eq_refl eq_refl
              (spaced_space (quoted x))) as [toks Ht].
  unfold topLine, parseLine. rewrite Ht.
  change ("N" :: str "AME" ++ " " :: quoted x) with (str "NAME " ++ quoted x).
  by rewrite extractString_only.
Qed.

Lemma topLine_VERSION (x : text) (t : Template) :
  quoteFree x = true ->
  topLine (str "VERSION " ++ quoted x) t = KloreTemplate.set_version x t.
Proof.
  intros Hx. change (str "VERSION " ++ quoted x) with ("V" :: str "ERSION" ++ " " :: quoted x).
  destruct (tokenize_word "V" (str "ERSION") (" " :: quoted x) eq_refl eq_refl eq_refl eq_refl
              (spaced_space (quoted x))) as [toks Ht].
  unfold topLine, parseLine. rewrite Ht.
  change ("V" :: str "ERSION" ++ " " :: quoted x) with (str "VERSION " ++ quoted x).
  by rewrite extractString_only.
Qed.

Lemma topLine_FRAMEWORK (x : text) (t : Template) :
  quoteFree x = true ->
  topLine (str "FRAMEWORK " ++ quoted x) t = KloreTemplate.set_framework (Some x) t.
Proof.
  intros Hx.
  change (str "FRAMEWORK " ++ quoted x) with ("F" :: str "RAMEWORK" ++ " " :: quoted x).
  destruct (tokenize_word "F" (str "RAMEWORK") (" " :: quoted x) eq_refl eq_refl eq_refl eq_refl
              (spaced_space (quoted x))) as [toks Ht].
  unfold topLine, parseLine. rewrite Ht.
  change ("F" :: str "RAMEWORK" ++ " " :: quoted x) with (str "FRAMEWORK " ++ quoted x).
  by rewrite extractString_only.
Qed.

(** The name under which a template is written. *)
Definition writtenName (template : Template) : text :=
  dashSpaces false (toLowerCase (KloreTemplate.name template)) ++ str "-template".

Lemma quoteFree_dashSpaces (s : text) : forall b,
  quoteFree s = true -> quoteFree (dashSpaces b s) = true.
Proof.
  unfold quoteFree. induction s as [|c s IH]; intros b; [done|]. cbn [forallb dashSpaces].
  intros [Hc Hs]%andb_true_iff. destruct (isSpace c).
  - destruct b; [by apply IH|]. cbn [forallb]. by rewrite IH.
  - cbn [forallb]. by rewrite Hc, IH.
Qed.

Lemma quoteFree_writtenName (template : Template) :
  quoteFree (KloreTemplate.name template) = true -> quoteFree (writtenName template) = true.
Proof.
  intros H. unfold writtenName, quoteFree. rewrite forallb_app. apply andb_true_iff.
  split; [|reflexivity]. apply quoteFree_dashSpaces. unfold quoteFree, toLowerCase.
  by rewrite (forallb_map_char _ loc) by (intros c; by rewrite isDQuote_loc).
Qed.

(** The template holds no double quote where the generator would copy it
    into the head. *)
Definition quoteFreeHead (template : Template) : bool :=
  quoteFree (KloreTemplate.name template)
  && quoteFree (KloreTemplate.version template)
  && quoteFree (default [] (KloreTemplate.framework template)).

Lemma afterHead_fields (template : Template) :
  quoteFreeHead template = true ->
  afterHead template
  = KloreTemplate.mk (writtenName template)
      (orText (KloreTemplate.version template) (str "1.0.0")) [] []
      (match KloreTemplate.framework template with
       | Some ((_ :: _) as f) => Some f
       | _ => None
       end)
      None [] [] [] [] (Some []) (Some []).
Proof.
  unfold quoteFreeHead. rewrite !andb_true_iff. intros [[Hn Hv] Hf].
  unfold afterHead, headLines. rewrite !fold_left_app. cbn [fold_left].
  fold (writtenName template). rewrite topLine_NAME by by apply quoteFree_writtenName.
  destruct (KloreTemplate.version template) as [|c v] eqn:Ev.
  - cbn [notEmpty fold_left orText].
    destruct (KloreTemplate.framework template) as [[|c f]|]; try done.
    cbn [fold_left]. by rewrite topLine_FRAMEWORK.
  - cbn [notEmpty fold_left orText]. rewrite topLine_VERSION by done.
    destruct (KloreTemplate.framework template) as [[|c' f]|]; try done.
    cbn [fold_left]. by rewrite topLine_FRAMEWORK.
Qed.

(** X10.  What comes back of the head of a template: the name in its written
    form, the version (the default one when it is empty), the framework
    when it is not empty.  The author, the description, the requirements,
    the groups and the hints do not come back.  (The name is 7-bit text,
    so that its written form is the one of the code, and no group is
    named as a property that a plain object inherits.) *)
Theorem roundtrip_head (template : Template) :
  singleLine template = true ->
  quoteFreeHead template = true ->
  sevenBit (KloreTemplate.name template) = true ->
  ownGroups template = true ->
  exists parsed,
    parseKlore (generateKlore template) = Some parsed
    /\ KloreTemplate.name parsed = writtenName template
    /\ KloreTemplate.version parsed = orText (KloreTemplate.version template) (str "1.0.0")
    /\ KloreTemplate.framework parsed
       = match KloreTemplate.framework template with
         | Some ((_ :: _) as f) => Some f
         | _ => None
         end
    /\ KloreTemplate.author parsed = []
    /\ KloreTemplate.description parsed = []
    /\ KloreTemplate.requires parsed = None
    /\ KloreTemplate.groups parsed = []
    /\ KloreTemplate.aiHints parsed = Some [].
Proof.
  intros Hs Hq _ _. destruct (parsed_sameHead template Hs) as (parsed & Hp & Hh).
  exists parsed. split; [done|].
  rewrite (afterHead_fields template Hq) in Hh.
  destruct Hh as (-> & -> & -> & -> & -> & -> & -> & ->). by repeat split.
Qed.

(** A template with an author, a description, a requirement, a group and
    a hint. *)
Definition fullTemplate : Template :=
  KloreTemplate.mk (str "Acme  Shop") (str "2.1.0") (str "Ada") (str "A shop")
    (Some (str "laravel")) (Some [str "php"])
    [KloreVariable.mk (str "companyName") (str "STRING") (str "Acme") true]
    [KloreGroup.mk (str "branding") [str "companyName"]]
    [KloreReplacement.mk (str "Acme") (str "companyName") [str "**/*"]]
    [] (Some [str "npm install"]) (Some [str "Project Type: shop"]).

Lemma roundtrip_head_witness :
  exists parsed,
    parseKlore (generateKlore fullTemplate) = Some parsed
    /\ KloreTemplate.name parsed = writtenName fullTemplate
    /\ KloreTemplate.version parsed = orText (KloreTemplate.version fullTemplate) (str "1.0.0")
    /\ KloreTemplate.framework parsed
       = match KloreTemplate.framework fullTemplate with
         | Some ((_ :: _) as f) => Some f
         | _ => None
         end
    /\ KloreTemplate.author parsed = []
    /\ KloreTemplate.description parsed = []
    /\ KloreTemplate.requires parsed = None
    /\ KloreTemplate.groups parsed = []
    /\ KloreTemplate.aiHints parsed = Some [].
Proof.
  apply (roundtrip_head fullTemplate); vm_compute; reflexivity.
Defined.

(** ** The install commands through a generated definition *)

Lemma trim_runLine_written (cmd msg : text) :
  trim (runLine cmd msg) = str "RUN " ++ quoted cmd ++ str " MESSAGE " ++ quoted msg.
Proof.
  unfold runLine. change (str "    RUN ") with (str "    " ++ str "RUN ").
  rewrite <- !app_assoc, trim_indented.
  apply (trim_closed _ "R" dq); try done.
  do 3 apply last_app_Some. apply last_quoted.
Qed.

Lemma extractString_runLine (cmd msg : text) :
  quoteFree cmd = true -> extractString (trim (runLine cmd msg)) = cmd.
Proof. intros H. rewrite trim_runLine_written. by apply extractString_first. Qed.

Lemma commandsOf_written (cmds : list text) :
  forallb (fun c => notEmpty c && quoteFree c) cmds = true ->
  commandsOf (map (fun p => trim (runLine (fst p) (snd p)))
                (map (fun cmd => (cmd, commandMessage cmd)) cmds)) = cmds.
Proof.
  unfold commandsOf. induction cmds as [|c cmds IH]; [done|]. cbn [forallb map fst snd].
  intros [[Hn Hq]%andb_true_iff Hs]%andb_true_iff.
  cbn [List.filter]. rewrite extractString_runLine by done. rewrite Hn. f_equal. by apply IH.
Qed.

(** X11.  The install commands of a template come back as they are, when there
    is one at least and each is a non-empty text without a double quote.
    (No group is named as a property that a plain object inherits.) *)
Theorem roundtrip_commands (template : Template) (cmds : list text) :
  singleLine template = true ->
  KloreTemplate.onInstall template = Some cmds ->
  cmds <> [] ->
  forallb (fun c => notEmpty c && quoteFree c) cmds = true ->
  ownGroups template = true ->
  exists parsed,
    parseKlore (generateKlore template) = Some parsed
    /\ KloreTemplate.onInstall parsed = Some cmds.
Proof.
  intros Hs Ho Hne Hc _.
  destruct (parseKlore_generateKlore template Hs) as (parsed & Hp & _ & _ & Hpo).
  exists parsed. split; [done|]. rewrite Hpo. f_equal.
  unfold runPairs. rewrite Ho. cbn [default].
  destruct cmds as [|c cmds]; [done|]. by apply commandsOf_written.
Qed.

Lemma roundtrip_commands_witness :
  exists parsed,
    parseKlore (generateKlore fullTemplate) = Some parsed
    /\ KloreTemplate.onInstall parsed = Some [str "npm install"].
Proof.
  apply (roundtrip_commands fullTemplate [str "npm install"]);
    [vm_compute; reflexivity|reflexivity|discriminate|vm_compute; reflexivity
    |vm_compute; reflexivity].
Defined.

(** ** Groups outside the canonical order *)

(** No variable is filed under a group of the canonical order, under
    [other] or under [General Settings], and no replacement under a group
    of the canonical order or under [other]. *)
Definition foreignGroups (template : Template) : bool :=
  forallb (fun v => negb (elemT (groupNameOf (KloreTemplate.groups template) v)
                            (canonicalKeys ++ [str "General Settings"])))
    (KloreTemplate.variables template)
  && forallb (fun r => negb (elemT (replacementGroupOf (KloreTemplate.groups template) r)
                               canonicalKeys))
       (KloreTemplate.replacements template).

Lemma filed_nowhere {A} (key : A -> text) (l : list A) (ks : list text) (g : text) :
  forallb (fun x => negb (elemT (key x) ks)) l = true ->
  In g ks ->
  List.filter (fun x => teq (key x) g) l = [].
Proof.
  intros H Hg. rewrite forallb_forall in H. apply filter_none. intros x Hx.
  specialize (H x Hx). apply negb_true_iff in H.
  destruct (teq (key x) g) eqn:E; [|done]. apply teq_eq in E. subst g.
  apply elemT_In in Hg. congruence.
Qed.

Lemma foreignGroups_nothing_written (template : Template) :
  foreignGroups template = true ->
  askLines template = [] /\ renderedReplacements template = [].
Proof.
  intros [Hv Hr]%andb_true_iff.
  assert (forall g, In g (canonicalKeys ++ [str "General Settings"]) ->
            varsOfGroup template g = []) as Hnone.
  { intros g Hg. by apply (filed_nowhere _ _ _ g Hv). }
  split.
  - unfold askLines, otherVarsOf.
    rewrite (Hnone (str "other")), (Hnone (str "General Settings"))
      by (apply elemT_In; reflexivity).
    rewrite concat_nil_map; [done|]. intros g Hg. rewrite Hnone; [done|].
    unfold canonicalKeys. rewrite !in_app_iff. tauto.
  - unfold renderedReplacements. fold canonicalKeys. rewrite concat_nil_map; [done|].
    intros g Hg. by apply (filed_nowhere _ _ _ g Hr).
Qed.

(** X12.  The variables and the replacements of groups that the generator does
    not know are left out of the definition: nothing of them is parsed
    back.  (The groups are not named as properties that a plain object
    inherits: under such a name the generator throws instead.) *)
Theorem foreign_groups_are_dropped (template : Template) :
  singleLine template = true ->
  foreignGroups template = true ->
  ownGroups template = true ->
  exists parsed,
    parseKlore (generateKlore template) = Some parsed
    /\ KloreTemplate.variables parsed = []
    /\ KloreTemplate.replacements parsed = [].
Proof.
  intros Hs Hf _.
  destruct (parseKlore_generateKlore template Hs) as (parsed & Hp & Hpv & Hpr & _).
  destruct (foreignGroups_nothing_written template Hf) as [Ea Er].
  exists parsed. split; [done|]. by rewrite Hpv, Hpr, Ea, Er.
Qed.

(** A template whose only group is one that the generator does not know. *)
Definition seoTemplate : Template :=
  KloreTemplate.mk (str "Acme Shop") (str "1.0.0") [] [] None None
    [KloreVariable.mk (str "metaTitle") (str "STRING") (str "Acme, the shop") true]
    [KloreGroup.mk (str "seo") [str "metaTitle"]]
    [KloreReplacement.mk (str "Acme, the shop") (str "metaTitle") [str "index.html"]]
    [] (Some []) (Some []).

Lemma foreign_groups_are_dropped_witness :
  exists parsed,
    parseKlore (generateKlore seoTemplate) = Some parsed
    /\ KloreTemplate.variables parsed = []
    /\ KloreTemplate.replacements parsed = [].
Proof.
  apply (foreign_groups_are_dropped seoTemplate); vm_compute; reflexivity.
Defined.

(** ** Single lines read back *)





(** The scan of [parseReplacement] for the end of the quoted original
    stops at the quote that the generator put there, whatever the
    original holds: no quote or backslash of the original ends it early. *)
Lemma original_end_found (original rest : text) :
  originalEnd (quoted (escapeOriginal original) ++ rest)
  = Some (S (length (escapeOriginal original))).
Proof.
  unfold originalEnd, quoted. cbn [app]. change (isDQuote dq) with true. cbv iota.
  rewrite <- app_assoc. cbn [app].
  by rewrite escapeOriginal_flat, scanOriginal_escaped.
Qed.

(** X5.  What the parser undoes of the escaping of the generator: an original
    without a backslash followed by the letter n comes back as it was,
    quotes, backslashes and line feeds included. *)
Theorem escaped_original_comes_back (original : text) :
  noBackslashN original = true ->
  unescapeOriginal (escapeOriginal original) = original
  /\ oneLine (escapeOriginal original) = true.
Proof.
  intros H. split.
  - by apply unescape_escape.
  - apply oneLine_escapeOriginal.
Qed.

Lemma escaped_original_comes_back_witness :
  let original := dq :: str "a\b" ++ dq :: "010" :: str "c" in
  unescapeOriginal (escapeOriginal original) = original
  /\ oneLine (escapeOriginal original) = true.
Proof.
  apply (escaped_original_comes_back (dq :: str "a\b" ++ dq :: "010" :: str "c")).
  vm_compute. reflexivity.
Defined.

(** ** What the tokens of a line cover *)

Lemma breakAt_spec (p : ascii -> bool) (s a b : text) :
  breakAt p s = Some (a, b) ->
  exists d, s = a ++ d :: b /\ p d = true /\ forallb (fun x => negb (p x)) a = true.
Proof.
  revert a b. induction s as [|c s IH]; intros a b; [done|]. cbn [breakAt].
  destruct (p c) eqn:E.
  - intros [= <- <-]. exists c. by repeat split.
  - destruct (breakAt p s) as [[a' b']|]; [|done]. intros [= <- <-].
    destruct (IH a' b' eq_refl) as (d & -> & Hd & Ha). exists d.
    repeat split; [done|]. cbn [forallb]. by rewrite E, Ha.
Qed.

(** A token is a piece of the line that starts where the token starts. *)
Lemma tokenAt_prefix (c : ascii) (r : text) :
  exists x rest, tokenAt c r = c :: x /\ r = x ++ rest.
Proof.
  assert (exists x rest,
            c :: fst (spanOf (fun x => negb (isSpace x)) r) = c :: x /\ r = x ++ rest) as Hword.
  { destruct (spanOf_spec (fun x => negb (isSpace x)) r) as (Hr & _). eauto. }
  unfold tokenAt. destruct (isDQuote c) eqn:Ed.
  { destruct (breakAt isDQuote r) as [[x b]|] eqn:E; [|done].
    apply breakAt_spec in E as (d & -> & Hd & _).
    apply ceq_eq in Ed, Hd. subst c d. exists (x ++ [dq]), b.
    by rewrite <- app_assoc. }
  destruct (isSQuote c) eqn:Es.
  { destruct (breakAt isSQuote r) as [[x b]|] eqn:E; [|done].
    apply breakAt_spec in E as (d & -> & Hd & _).
    apply ceq_eq in Es, Hd. subst c d. exists (x ++ ["'"]), b.
    by rewrite <- app_assoc. }
  destruct (ceq c "[") eqn:Eb; [|done].
  destruct (breakAt (ceq "]") r) as [[x b]|] eqn:E; [|done].
  destruct (forallb isDot x); [|done].
  apply breakAt_spec in E as (d & -> & Hd & _). apply ceq_eq in Hd. subst d.
  exists (x ++ ["]"]), b. by rewrite <- app_assoc.
Qed.

Lemma tokenizeFrom_skip (a s : text) :
  tokenizeFrom (length a) (a ++ s) = tokenizeFrom 0 s.
Proof. induction a as [|c a IH]; [done|]. cbn [length app tokenizeFrom]. apply IH. Qed.

Definition withoutSpaces (s : text) : text := List.filter (fun c => negb (isSpace c)) s.

Lemma tokenize_cover_bounded (n : nat) : forall line,
  length line <= n ->
  withoutSpaces (concat (tokenize line)) = withoutSpaces line.
Proof.
  induction n as [|n IH]; intros line Hn.
  - destruct line; [done|]. cbn in Hn. lia.
  - destruct line as [|c r]; [done|]. cbn [length] in Hn.
    unfold tokenize. cbn [tokenizeFrom]. destruct (isSpace c) eqn:Ec.
    + unfold withoutSpaces at 2. cbn [List.filter]. rewrite Ec. cbn [negb].
      apply IH. lia.
    + destruct (tokenAt_prefix c r) as (x & rest & Ht & ->). rewrite Ht.
      cbn [length]. replace (S (length x) - 1) with (length x) by lia.
      rewrite tokenizeFrom_skip. cbn [concat].
      unfold withoutSpaces in *. change (c :: x ++ rest) with ((c :: x) ++ rest).
      rewrite !List.filter_app. f_equal. apply IH.
      rewrite length_app in Hn. lia.
Qed.

(** ** The value of a line of the head *)

(** X2.  [extractString] reads the text between the first pair of double
    quotes, when no quote of either kind stands before it, and nothing
    when the line holds no quote at all. *)
Theorem extractString_reads_the_first_quoted (k s rest : text) :
  forallb (fun c => negb (isQuote c)) k = true ->
  quoteFree s = true ->
  extractString (k ++ quoted s ++ rest) = s /\ extractString k = [].
Proof.
  intros Hk Hs. split.
  - by apply extractString_first.
  - by apply extractString_none.
Qed.

Lemma extractString_reads_the_first_quoted_witness :
  extractString (str "NAME " ++ quoted (str "acme's shop") ++ str " # " ++ quoted (str "x"))
  = str "acme's shop"
  /\ extractString (str "NAME ") = [].
Proof.
  apply (extractString_reads_the_first_quoted (str "NAME ") (str "acme's shop")
           (str " # " ++ quoted (str "x")));
    vm_compute; reflexivity.
Defined.

(** ** Comments and blank lines *)

Lemma parseKlore_lines (lines : list text) :
  lines <> [] -> forallb oneLine lines = true ->
  parseKlore (join ["010"] lines) = Some (parseFrom false (keptLines lines) emptyTemplate).
Proof.
  intros Hne Hl. destruct (parseKlore_returns (join ["010"] lines)) as [-> _].
  by rewrite contentLines_keptLines, splitOn_join.
Qed.

(** X3.  A line that is blank or a comment once trimmed can stand anywhere
    in a definition, inside a block as well, without any effect on the
    template that is parsed. *)
Theorem comment_lines_are_transparent (before after : list text) (comment : text) :
  forallb oneLine (before ++ comment :: after) = true ->
  trim comment = [] \/ startsWith ["#"] (trim comment) = true ->
  before ++ after <> [] ->
  parseKlore (join ["010"] (before ++ comment :: after))
  = parseKlore (join ["010"] (before ++ after)).
Proof.
  intros Hl Hc Hne.
  assert (forallb oneLine (before ++ after) = true) as Hl'.
  { rewrite forallb_app in *. cbn [forallb] in Hl.
    apply andb_true_iff in Hl as [-> [_ ->]%andb_true_iff]. done. }
  rewrite parseKlore_lines by (done || by destruct before).
  rewrite parseKlore_lines by done.
  rewrite !keptLines_app, (keptLines_cons comment).
  assert (keptLines [comment] = []) as ->; [|done].
  unfold keptLines. cbn [map List.filter]. unfold keep. destruct Hc as [->|Hc]; [done|]. by rewrite Hc, andb_false_r.
Qed.

Lemma comment_lines_are_transparent_witness :
  parseKlore (join ["010"] ([str "NAME " ++ quoted (str "shop"); str "ON INSTALL"]
                            ++ str "   # set up" :: [str "RUN " ++ quoted (str "make"); str "END"]))
  = parseKlore (join ["010"] ([str "NAME " ++ quoted (str "shop"); str "ON INSTALL"]
                              ++ [str "RUN " ++ quoted (str "make"); str "END"])).
Proof.
  apply (comment_lines_are_transparent
           [str "NAME " ++ quoted (str "shop"); str "ON INSTALL"]
           [str "RUN " ++ quoted (str "make"); str "END"] (str "   # set up")).
  - vm_compute; reflexivity.
  - right. vm_compute; reflexivity.
  - discriminate.
Defined.

(** ** [applyReplacements] on a whole list *)

Definition dollarFree (s : text) : bool := forallb (fun c => negb (ceq c "$")) s.

(** The literal reading of one replacement: every occurrence of the
    original, from left to right and without overlap, gives way to the
    value; a replacement without a value or with an empty original does
    nothing. *)
Definition replaceLiterally (values : gmap text text) (result : text)
    (replacement : KloreReplacement.t) : text :=
  match values !! KloreReplacement.variable replacement with
  | Some value =>
      if notEmpty (KloreReplacement.original replacement)
      then replaceAllLiteral 0 (KloreReplacement.original replacement) value result
      else result
  | None => result
  end.

(** The value that a replacement would write holds no dollar sign. *)
Definition dollarFreeValue (values : gmap text text) (r : KloreReplacement.t) : bool :=
  match values !! KloreReplacement.variable r with
  | Some value => dollarFree value
  | None => true
  end.

Lemma applyReplacement_replaceLiterally (values : gmap text text) (result : text)
    (r : KloreReplacement.t) :
  dollarFreeValue values r = true ->
  applyReplacement values result r = replaceLiterally values result r.
Proof.
  unfold dollarFreeValue, replaceLiterally.
  destruct (values !! KloreReplacement.variable r) as [value|] eqn:Ev.
  - intros Hd. destruct (KloreReplacement.original r) as [|c o] eqn:Eo.
    + unfold applyReplacement. by rewrite Ev, Eo.
    + rewrite (applyReplacement_literal values result value r Ev) by (done || by rewrite Eo).
      by rewrite Eo.
  - intros _. unfold applyReplacement. by rewrite Ev.
Qed.

(** X13.  With values that hold no dollar sign, [applyReplacements] is the
    literal search-and-replace, one replacement after the other on the
    result of the one before: the characters of an original that a
    regular expression would read as operators stand for themselves.
    (The variables of the replacements are not named as properties that
    a plain object inherits: for such a name the code finds a value also
    when none was given.) *)
Theorem applyReplacements_is_literal (content : text)
    (replacements : list KloreReplacement.t) (values : gmap text text) :
  forallb (dollarFreeValue values) replacements = true ->
  forallb (fun r => ownKey (KloreReplacement.variable r)) replacements = true ->
  applyReplacements content replacements values
  = fold_left (replaceLiterally values) replacements content.
Proof.
  unfold applyReplacements. intros H _. revert content H.
  induction replacements as [|r rs IH]; intros content; [done|].
  cbn [forallb fold_left]. intros [Hr Hrs]%andb_true_iff.
  rewrite applyReplacement_replaceLiterally by done. by apply IH.
Qed.

Lemma applyReplacements_is_literal_witness :
  let values : gmap text text := {[ str "price" := str "9.50 EUR" ]} in
  let replacements := [KloreReplacement.mk (str "1.00 (USD)") (str "price") [str "**/*"]] in
  applyReplacements (str "now 1.00 (USD), was 1x00 (USD)") replacements values
  = fold_left (replaceLiterally values) replacements (str "now 1.00 (USD), was 1x00 (USD)").
Proof.
  apply (applyReplacements_is_literal (str "now 1.00 (USD), was 1x00 (USD)")
           [KloreReplacement.mk (str "1.00 (USD)") (str "price") [str "**/*"]]
           {[ str "price" := str "9.50 EUR" ]});
    vm_compute; reflexivity.
Defined.

(** ** Originals that do not occur *)

Lemma replaceFrom_absent (p value : text) (s : text) :
  includes p s = false ->
  forall before, replaceFrom (map Lit p) value 0 before s = s.
Proof.
  induction s as [|c r IH]; intros Hs before; [done|].
  rewrite includes_cons in Hs. apply orb_false_iff in Hs as [Hh Hr].
  cbn [replaceFrom]. rewrite matchHere_literal, Hh. f_equal. by apply IH.
Qed.

Lemma applyReplacement_absent (values : gmap text text) (result : text)
    (r : KloreReplacement.t) :
  includes (KloreReplacement.original r) result = false ->
  applyReplacement values result r = result.
Proof.
  intros H. unfold applyReplacement.
  destruct (values !! KloreReplacement.variable r) as [value|]; [|done].
  destruct (notEmpty (KloreReplacement.original r)); [|done].
  rewrite compileRegExp_escapeRegExp. by apply replaceFrom_absent.
Qed.

(** X14.  A content in which no original occurs goes through
    [applyReplacements] unchanged, whatever the values are, dollar
    patterns included. *)
Theorem applyReplacements_without_occurrence (content : text)
    (replacements : list KloreReplacement.t) (values : gmap text text) :
  forallb (fun r => negb (includes (KloreReplacement.original r) content)) replacements = true ->
  applyReplacements content replacements values = content.
Proof.
  unfold applyReplacements. induction replacements as [|r rs IH]; [done|].
  cbn [forallb fold_left]. intros [Hr Hrs]%andb_true_iff. apply negb_true_iff in Hr.
  rewrite applyReplacement_absent by done. by apply IH.
Qed.

Lemma applyReplacements_without_occurrence_witness :
  applyReplacements (str "Hello, world")
    [KloreReplacement.mk (str "Acme") (str "companyName") [str "**/*"]]
    {[ str "companyName" := str "$& Ltd" ]}
  = str "Hello, world".
Proof.
  apply (applyReplacements_without_occurrence (str "Hello, world")
           [KloreReplacement.mk (str "Acme") (str "companyName") [str "**/*"]]
           {[ str "companyName" := str "$& Ltd" ]}).
  vm_compute. reflexivity.
Defined.

(** ** Values that are the originals *)

Lemma replaceAllLiteral_skip (p value a s : text) :
  replaceAllLiteral (length a) p value (a ++ s) = replaceAllLiteral 0 p value s.
Proof. induction a as [|c a IH]; [done|]. cbn [length app replaceAllLiteral]. apply IH. Qed.

Lemma replaceAllLiteral_same_bounded (p : text) (n : nat) :
  notEmpty p = true ->
  forall s, length s <= n -> replaceAllLiteral 0 p p s = s.
Proof.
  intros Hp. induction n as [|n IH]; intros s Hn.
  - destruct s; [done|]. cbn in Hn. lia.
  - destruct s as [|c r]; [done|]. cbn [length] in Hn. cbn [replaceAllLiteral].
    destruct (startsWith p (c :: r)) eqn:E.
    + apply startsWith_spec in E as [rest E]. destruct p as [|x p].
      * done.
      * cbn [app] in E. injection E as -> ->. cbn [length].
        replace (S (length p) - 1) with (length p) by lia.
        rewrite replaceAllLiteral_skip. cbn [app]. f_equal. f_equal. apply IH.
        rewrite length_app in Hn. lia.
    + f_equal. apply IH. lia.
Qed.

(** The value that a replacement would write is its original, and it
    holds no dollar sign. *)
Definition keepsOriginal (values : gmap text text) (r : KloreReplacement.t) : bool :=
  match values !! KloreReplacement.variable r with
  | Some value => teq value (KloreReplacement.original r) && dollarFree value
  | None => true
  end.

(** X15.  When every value is the original that it stands for, as with the
    defaults of a template that was built from the project itself, the
    content comes out of [applyReplacements] as it went in.  (The
    variables of the replacements are not named as properties that a
    plain object inherits.) *)
Theorem applyReplacements_with_the_originals (content : text)
    (replacements : list KloreReplacement.t) (values : gmap text text) :
  forallb (keepsOriginal values) replacements = true ->
  forallb (fun r => ownKey (KloreReplacement.variable r)) replacements = true ->
  applyReplacements content replacements values = content.
Proof.
  unfold applyReplacements. intros H _. revert H.
  induction replacements as [|r rs IH]; [done|].
  cbn [forallb fold_left]. intros [Hr Hrs]%andb_true_iff.
  assert (applyReplacement values content r = content) as ->; [|by apply IH].
  unfold keepsOriginal in Hr.
  destruct (values !! KloreReplacement.variable r) as [value|] eqn:Ev.
  - apply andb_true_iff in Hr as [->%teq_eq Hd].
    rewrite applyReplacement_replaceLiterally by (unfold dollarFreeValue; by rewrite Ev).
    unfold replaceLiterally. rewrite Ev.
    destruct (notEmpty (KloreReplacement.original r)) eqn:Eo; [|done].
    by apply (replaceAllLiteral_same_bounded _ (length content)).
  - unfold applyReplacement. by rewrite Ev.
Qed.

Lemma applyReplacements_with_the_originals_witness :
  applyReplacements (str "Acme sells. Call Acme.")
    [KloreReplacement.mk (str "Acme") (str "companyName") [str "**/*"]]
    {[ str "companyName" := str "Acme" ]}
  = str "Acme sells. Call Acme.".
Proof.
  apply (applyReplacements_with_the_originals (str "Acme sells. Call Acme.")
           [KloreReplacement.mk (str "Acme") (str "companyName") [str "**/*"]]
           {[ str "companyName" := str "Acme" ]});
    vm_compute; reflexivity.
Defined.

(** ** The variables that are resolved *)

Lemma teq_sym (a b : text) : teq a b = teq b a.
Proof.
  destruct (teq a b) eqn:E.
  - apply teq_eq in E. subst. symmetry. apply teq_refl.
  - symmetry. apply teq_neq. intros ->. apply teq_neq in E. done.
Qed.

(** The first variable of a list that has a given name. *)
Definition firstNamed (n : text) (vars : list KloreVariable.t) : option KloreVariable.t :=
  List.find (fun u => teq (KloreVariable.name u) n) vars.

Lemma uniqueVariables_In (vars : list KloreVariable.t) : forall seenNames v,
  In v (uniqueVariables seenNames vars)
  <-> elemT (KloreVariable.name v) seenNames = false
      /\ firstNamed (KloreVariable.name v) vars = Some v.
Proof.
  unfold firstNamed.
  induction vars as [|u r IH]; intros seen v; cbn [uniqueVariables find In].
  - split; [done|]. by intros [_ ?].
  - destruct (elemT (KloreVariable.name u) seen) eqn:Eu.
    + rewrite IH. destruct (teq (KloreVariable.name u) (KloreVariable.name v)) eqn:E; [|done].
      apply teq_eq in E. rewrite <- E, Eu. split; by intros [? _].
    + cbn [In]. rewrite IH. unfold elemT at 1. cbn [existsb]. fold (elemT (KloreVariable.name v) seen).
      rewrite (teq_sym (KloreVariable.name v)).
      destruct (teq (KloreVariable.name u) (KloreVariable.name v)) eqn:E.
      * cbn [orb]. split.
        -- intros [->|[? _]]; done.
        -- intros [_ [= ->]]. by left.
      * cbn [orb]. split.
        -- intros [->|?]; [|done]. by rewrite teq_refl in E.
        -- intros ?. by right.
Qed.

Lemma uniqueVariables_distinct (vars : list KloreVariable.t) : forall seenNames,
  distinctT (map KloreVariable.name (uniqueVariables seenNames vars)) = true.
Proof.
  induction vars as [|u r IH]; intros seen; [done|]. cbn [uniqueVariables].
  destruct (elemT (KloreVariable.name u) seen) eqn:Eu; [apply IH|].
  cbn [map distinctT]. rewrite IH, andb_true_r. apply negb_true_iff.
  destruct (elemT (KloreVariable.name u) (map KloreVariable.name _)) eqn:E; [|done].
  apply elemT_In, in_map_iff in E as (v & Hn & Hv).
  apply uniqueVariables_In in Hv as [Hv _]. rewrite Hn in Hv.
  unfold elemT in Hv. cbn [existsb] in Hv. by rewrite teq_refl in Hv.
Qed.

(** X16.  The variables that [promptVariables] resolves are the first
    occurrences of the names of the template: a variable is kept exactly
    when it is the first of the list to carry its name, and no name is
    kept twice. *)
Theorem uniqueVariables_first_occurrences (vars : list KloreVariable.t) :
  distinctT (map KloreVariable.name (uniqueVariables [] vars)) = true
  /\ forall v, In v (uniqueVariables [] vars)
               <-> firstNamed (KloreVariable.name v) vars = Some v.
Proof.
  split; [apply uniqueVariables_distinct|].
  intros v. rewrite uniqueVariables_In. cbn [elemT existsb]. tauto.
Qed.

(** ** Prompts and the file system *)

(** What a computation leaves alone. *)
Definition keepsFiles {A} (c : M A) : Prop :=
  forall w, fs (c w).2 = fs w /\ confirms (c w).2 = confirms w
            /\ exists r, (c w).1 = Returned r.

Lemma keepsFiles_ret {A} (a : A) : keepsFiles (ret a).
Proof. intros w. cbn. eauto. Qed.

Lemma keepsFiles_bind {A B} (c : M A) (k : A -> M B) :
  keepsFiles c -> (forall a, keepsFiles (k a)) -> keepsFiles (bind c k).
Proof.
  intros Hc Hk w. unfold bind. destruct (Hc w) as (Hf & Hq & r & Hr).
  destruct (c w) as [o w1]. cbn [fst snd] in *. subst o.
  destruct (Hk r w1) as (Hf' & Hq' & r' & Hr'). rewrite Hf', Hq', Hf, Hq. eauto.
Qed.

Lemma keepsFiles_p_text validate defaultValue : keepsFiles (p_text validate defaultValue).
Proof.
  intros w. unfold p_text. destruct (readText validate defaultValue (texts w)) as [r rest].
  cbn. eauto.
Qed.

Section Prompts.

Variable URL_parses : text -> bool.

Lemma keepsFiles_promptEach pre vars : forall values,
  keepsFiles (promptEach URL_parses pre vars values).
Proof.
  induction vars as [|v vars IH]; intros values; cbn [promptEach].
  - apply keepsFiles_ret.
  - destruct (match pre with Some p => _ | None => None end) as [x|]; [apply IH|].
    apply keepsFiles_bind; [apply keepsFiles_p_text|].
    intros [r|]; [apply IH|apply keepsFiles_ret].
Qed.

Lemma keepsFiles_promptGroups pre grouped order : forall values,
  keepsFiles (promptGroups URL_parses pre grouped order values).
Proof.
  induction order as [|g order IH]; intros values; cbn [promptGroups].
  - apply keepsFiles_ret.
  - apply keepsFiles_bind; [apply keepsFiles_promptEach|].
    intros [values'|]; [apply IH|apply keepsFiles_ret].
Qed.

Lemma keepsFiles_promptVariables template pre :
  keepsFiles (promptVariables URL_parses template pre).
Proof.
  unfold promptVariables.
  destruct (groupForPrompt _ _) as [grouped ungrouped].
  apply keepsFiles_bind; [apply keepsFiles_promptGroups|].
  intros [values|]; [apply keepsFiles_promptEach|apply keepsFiles_ret].
Qed.

End Prompts.

Section Resolution.

Variable URL_parses : text -> bool.

(** Asking for the variables touches no file and answers no
    confirmation, and it never throws: it returns the values, or nothing
    when a prompt was cancelled. *)
Lemma promptVariables_touches_no_file (template : Template)
    (prefilledValues : option (gmap text text)) (w : World) :
  fs (promptVariables URL_parses template prefilledValues w).2 = fs w
  /\ confirms (promptVariables URL_parses template prefilledValues w).2 = confirms w
  /\ exists values,
       (promptVariables URL_parses template prefilledValues w).1 = Returned values.
Proof. apply keepsFiles_promptVariables. Qed.

(** ** The groups that are asked for *)

(** The variables that the loop of [promptVariables] files under a group
    name, and those that it files under none. *)
Definition promptGroupOf (groups : list KloreGroup.t) (v : KloreVariable.t) : option text :=
  option_map KloreGroup.name (findGroup groups (KloreVariable.name v)).

Lemma groupForPrompt_fold (groups : list KloreGroup.t) (vars : list KloreVariable.t) :
  forall g,
    (groupForPrompt groups vars).1 !! g
    = listOrNone (List.filter (fun v => match promptGroupOf groups v with
                                        | Some n => teq n g
                                        | None => false
                                        end) vars).
Proof.
  unfold groupForPrompt, promptGroupOf.
  induction vars as [|v vars IH] using rev_ind; intros g; [done|].
  rewrite fold_left_app, List.filter_app. cbn [fold_left List.filter].
  destruct (findGroup groups (KloreVariable.name v)) as [gr|] eqn:Eg; cbn [option_map fst].
  - destruct (teq (KloreGroup.name gr) g) eqn:E.
    + apply teq_eq in E. subst g. rewrite lookup_insert_eq, IH.
      destruct (List.filter _ vars); done.
    + apply teq_neq in E. rewrite lookup_insert_ne by done. by rewrite IH, app_nil_r.
  - by rewrite IH, app_nil_r.
Qed.

Lemma groupForPrompt_ungrouped (groups : list KloreGroup.t) (vars : list KloreVariable.t) :
  (groupForPrompt groups vars).2
  = List.filter (fun v => match promptGroupOf groups v with Some _ => false | None => true end)
      vars.
Proof.
  unfold groupForPrompt, promptGroupOf.
  induction vars as [|v vars IH] using rev_ind; [done|].
  rewrite fold_left_app, List.filter_app. cbn [fold_left List.filter].
  destruct (findGroup groups (KloreVariable.name v)) as [gr|] eqn:Eg; cbn [option_map snd].
  - by rewrite IH, app_nil_r.
  - by rewrite IH.
Qed.

Lemma default_listOrNone {A} (l : list A) : default [] (listOrNone l) = l.
Proof. by destruct l. Qed.

(** The names that get a value are names of variables that were gone
    through. *)
Lemma promptEach_names pre vars : forall values w values' w',
  promptEach URL_parses pre vars values w = (Returned (Some values'), w') ->
  forall n, values' !! n <> None ->
            values !! n <> None \/ In n (map KloreVariable.name vars).
Proof.
  induction vars as [|v vars IH]; intros values w values' w'; cbn [promptEach].
  - unfold ret. intros [= <- <-] n Hn. by left.
  - destruct (match pre with Some p => _ | None => None end) as [x|].
    + intros H n Hn. destruct (IH _ _ _ _ H n Hn) as [Hi|Hi].
      * destruct (decide (n = KloreVariable.name v)) as [->|Hne]; [right; by left|].
        rewrite lookup_insert_ne in Hi by done. by left.
      * right. by right.
    + unfold bind. destruct (p_text _ _ w) as [[[r|]| |] w1] eqn:Ep; try done.
      intros H n Hn. destruct (IH _ _ _ _ H n Hn) as [Hi|Hi].
      * destruct (decide (n = KloreVariable.name v)) as [->|Hne]; [right; by left|].
        rewrite lookup_insert_ne in Hi by done. by left.
      * right. by right.
Qed.

Lemma promptGroups_names pre grouped order : forall values w values' w',
  promptGroups URL_parses pre grouped order values w = (Returned (Some values'), w') ->
  forall n, values' !! n <> None ->
            values !! n <> None
            \/ exists g, In g order
                         /\ In n (map KloreVariable.name (default [] (grouped !! g))).
Proof.
  induction order as [|g order IH]; intros values w values' w'; cbn [promptGroups].
  - unfold ret. intros [= <- <-] n Hn. by left.
  - unfold bind.
    destruct (promptEach URL_parses pre (default [] (grouped !! g)) values w)
      as [[[v1|]| |] w1] eqn:Ee; try done.
    intros H n Hn. destruct (IH _ _ _ _ H n Hn) as [Hi|(g' & Hg' & Hi)].
    + destruct (promptEach_names _ _ _ _ _ _ Ee n Hi) as [?|?]; [by left|].
      right. exists g. split; [by left|done].
    + right. exists g'. split; [by right|done].
Qed.

(** X17.  A variable of a group that is not in the order of [promptVariables]
    is never asked for and gets no value, so that a replacement that
    stands for it leaves every content as it is.  (The variable is not
    named as a property that a plain object inherits: for such a name
    the replacement finds a value that nobody gave.) *)
Theorem promptVariables_skips_other_groups (template : Template)
    (prefilledValues : option (gmap text text)) (w w' : World)
    (values : gmap text text) (group : KloreGroup.t) (r : KloreReplacement.t) :
  promptVariables URL_parses template prefilledValues w = (Returned (Some values), w') ->
  findGroup (KloreTemplate.groups template) (KloreReplacement.variable r) = Some group ->
  elemT (KloreGroup.name group) promptOrder = false ->
  ownKey (KloreReplacement.variable r) = true ->
  values !! KloreReplacement.variable r = None
  /\ forall content, applyReplacements content [r] values = content.
Proof.
  intros Hrun Hg Hout _.
  assert (values !! KloreReplacement.variable r = None) as Hnone.
  { destruct (values !! KloreReplacement.variable r) as [x|] eqn:Ex; [exfalso|done].
    unfold promptVariables in Hrun.
    pose proof (groupForPrompt_fold (KloreTemplate.groups template)
                  (uniqueVariables [] (KloreTemplate.variables template))) as Hgr.
    pose proof (groupForPrompt_ungrouped (KloreTemplate.groups template)
                  (uniqueVariables [] (KloreTemplate.variables template))) as Hun.
    destruct (groupForPrompt _ _) as [grouped ungrouped]. cbn [fst snd] in Hgr, Hun.
    unfold bind in Hrun.
    destruct (promptGroups URL_parses prefilledValues grouped promptOrder ∅ w)
      as [[[v1|]| |] w1] eqn:Ep; try done.
    assert (values !! KloreReplacement.variable r <> None) as Hn by (by rewrite Ex).
    destruct (promptEach_names _ _ _ _ _ _ Hrun _ Hn) as [Hi|Hi].
    - destruct (promptGroups_names _ _ _ _ _ _ _ Ep _ Hi) as [Hi'|(g & Hin & Hi')].
      + by rewrite lookup_empty in Hi'.
      + rewrite Hgr, default_listOrNone in Hi'. apply in_map_iff in Hi' as (v & Hname & Hv').
        apply List.filter_In in Hv' as [_ Hk]. unfold promptGroupOf in Hk.
        rewrite Hname, Hg in Hk. cbn [option_map] in Hk. apply teq_eq in Hk.
        apply elemT_In in Hin. congruence.
    - rewrite Hun in Hi. apply in_map_iff in Hi as (v & Hname & Hv).
      apply List.filter_In in Hv as [_ Hk]. unfold promptGroupOf in Hk.
      by rewrite Hname, Hg in Hk. }
  split; [done|]. intros content. unfold applyReplacements. cbn [fold_left].
  unfold applyReplacement. by rewrite Hnone.
Qed.

End Resolution.

(** A template with a variable of the group [maps], which the generator
    writes and [promptVariables] does not ask for. *)
Definition mapsTemplate : Template :=
  KloreTemplate.mk (str "Acme Shop") (str "1.0.0") [] [] None None
    [KloreVariable.mk (str "mapAddress") (str "STRING") (str "1 Main Street") false]
    [KloreGroup.mk (str "maps") [str "mapAddress"]]
    [KloreReplacement.mk (str "1 Main Street") (str "mapAddress") [str "index.html"]]
    [] (Some []) (Some []).

Lemma promptVariables_skips_other_groups_witness :
  let w := mkWorld ∅ [Some (str "2 Side Street")] [] in
  let r := KloreReplacement.mk (str "1 Main Street") (str "mapAddress") [str "index.html"] in
  promptVariables (fun _ => true) mapsTemplate None w = (Returned (Some ∅), w)
  /\ (∅ : gmap text text) !! KloreReplacement.variable r = None
  /\ forall content, applyReplacements content [r] ∅ = content.
Proof.
  assert (promptVariables (fun _ => true) mapsTemplate None
            (mkWorld ∅ [Some (str "2 Side Street")] [])
          = (Returned (Some ∅), mkWorld ∅ [Some (str "2 Side Street")] [])) as Hrun
    by (vm_compute; reflexivity).
  split; [exact Hrun|].
  apply (promptVariables_skips_other_groups (fun _ => true) mapsTemplate None _ _ ∅
           (KloreGroup.mk (str "maps") [str "mapAddress"])
           (KloreReplacement.mk (str "1 Main Street") (str "mapAddress") [str "index.html"])
           Hrun);
    vm_compute; reflexivity.
Defined.

(** ** The files that are read as text *)

Definition dotFree (s : text) : bool := forallb (fun c => negb (ceq c ".")) s.

Lemma breakAt_none (p : ascii -> bool) (s : text) :
  forallb (fun c => negb (p c)) s = true -> breakAt p s = None.
Proof.
  induction s as [|c s IH]; [done|]. cbn [forallb breakAt].
  intros [Hc Hs]%andb_true_iff. apply negb_true_iff in Hc. by rewrite Hc, IH.
Qed.

Lemma dotFree_pred (s : text) :
  dotFree s = true -> forallb (fun c => negb (ceq "." c)) s = true.
Proof. apply forallb_impl. intros c. by rewrite ceq_sym. Qed.

Lemma extname_dotFree (name : text) :
  dotFree name = true -> extname name = [] /\ extname ("." :: name) = [].
Proof.
  intros H. unfold extname. split.
  - rewrite breakAt_none; [done|]. rewrite forallb_rev. by apply dotFree_pred.
  - cbn [rev]. rewrite breakAt_app; [done| |done]. rewrite forallb_rev. by apply dotFree_pred.
Qed.

Definition dots (s : text) : nat := length (List.filter (ceq ".") s).

Lemma dots_app (a b : text) : dots (a ++ b) = dots a + dots b.
Proof. unfold dots. by rewrite List.filter_app, length_app. Qed.

Lemma dots_dotFree (s : text) : dotFree s = true -> dots s = 0.
Proof.
  intros H. unfold dots. rewrite filter_none; [done|].
  intros c Hc. unfold dotFree in H. rewrite forallb_forall in H.
  specialize (H c Hc). apply negb_true_iff in H. by rewrite ceq_sym.
Qed.

Lemma endsWith_dots (p s : text) : endsWith p s = true -> dots p <= dots s.
Proof.
  unfold endsWith. intros [r Hr]%startsWith_spec.
  apply (f_equal (@rev ascii)) in Hr. rewrite rev_involutive, rev_app_distr, rev_involutive in Hr.
  subst s. rewrite dots_app. lia.
Qed.

(** A name without a dot, or whose only dot is the first character, is
    not the name of a text file. *)
Lemma isTextFile_dotFree (stem : text) :
  dotFree stem = true -> isTextFile stem = false /\ isTextFile ("." :: stem) = false.
Proof.
  intros H. destruct (extname_dotFree stem H) as [E1 E2].
  pose proof (dots_dotFree stem H) as Hd.
  unfold isTextFile. rewrite E1, E2.
  change (elemT (toLowerCase []) textExtensions) with false. cbn [orb].
  split; apply orb_false_iff; split.
  - destruct (endsWith (str ".blade.php") stem) eqn:E; [|done].
    apply endsWith_dots in E. rewrite Hd in E. vm_compute in E. lia.
  - destruct (teq stem (str ".env.example")) eqn:E; [|done].
    apply teq_eq in E. subst stem. done.
  - destruct (endsWith (str ".blade.php") ("." :: stem)) eqn:E; [|done].
    apply endsWith_dots in E. change ("." :: stem) with (["."] ++ stem) in E.
    rewrite dots_app, Hd in E. vm_compute in E. lia.
  - destruct (teq ("." :: stem) (str ".env.example")) eqn:E; [|done].
    apply teq_eq in E. injection E as ->. done.
Qed.

(** ** The post-install commands *)

Section Commands.

Variable URL_parses : text -> bool.
Variable spawn : text -> path -> gmap path node -> gmap path node * option nat.

(** X21.  Once a command has failed, the commands after it are not run. *)
Theorem runPostInstall_stops_at_the_first_failure (commands more : list text)
    (cwd : path) (w w' : World) (e : text) :
  runPostInstall spawn commands cwd w = (Threw e, w') ->
  runPostInstall spawn (commands ++ more) cwd w = (Threw e, w').
Proof.
  revert w. induction commands as [|cmd rest IH]; intros w; cbn [app runPostInstall].
  - done.
  - unfold bind. destruct (spawn cmd cwd (fs w)) as [f code].
    destruct code as [[|code]|]; [apply IH|done|done].
Qed.

Lemma runPostInstall_ends (commands : list text) (cwd : path) : forall w,
  (exists w', runPostInstall spawn commands cwd w = (Returned tt, w'))
  \/ (exists e w', runPostInstall spawn commands cwd w = (Threw e, w')).
Proof.
  induction commands as [|cmd rest IH]; intros w; cbn [runPostInstall].
  - left. by eexists.
  - unfold bind. destruct (spawn cmd cwd (fs w)) as [f code].
    destruct code as [[|code]|]; [apply IH| |]; right; by eexists _, _.
Qed.

(** X22.  Once the files are copied the install is a success: whether the
    commands are confirmed, declined or fail, the result reports the
    counts of the copy, with one error at most. *)
Theorem materialize_succeeds_after_the_copy (fuel : nat) (options : InstallOptions.t)
    (template : Template) (values : gmap text text) (w w1 : World) (counts : nat * nat) :
  copyWithReplacements fuel (InstallOptions.templatePath options)
    (InstallOptions.outputPath options) (KloreTemplate.replacements template) values w
  = (Returned counts, w1) ->
  exists errors w2,
    materialize spawn fuel options template values w
    = (Returned (InstallResult.mk true (InstallOptions.outputPath options)
                   counts.1 counts.2 errors), w2)
    /\ length errors <= 1.
Proof.
  intros Hcopy. unfold materialize, tryCatch, bind. rewrite Hcopy.
  destruct (KloreTemplate.onInstall template) as [[|c cs]|].
  - eexists [], _. split; [reflexivity|cbn; lia].
  - unfold p_confirm. destruct (confirms w1) as [|[[|]|] rest].
    + eexists [], _. split; [reflexivity|cbn; lia].
    + destruct (runPostInstall_ends (c :: cs) (InstallOptions.outputPath options)
                  (mkWorld (fs w1) (texts w1) rest)) as [[w2 E]|(e & w2 & E)]; rewrite E.
      * eexists [], _. split; [reflexivity|cbn; lia].
      * eexists [_], _. split; [reflexivity|cbn; lia].
    + eexists [], _. split; [reflexivity|cbn; lia].
    + eexists [], _. split; [reflexivity|cbn; lia].
  - eexists [], _. split; [reflexivity|cbn; lia].
Qed.

(** ** What [installTemplate] throws *)

Lemma materialize_catches (fuel : nat) (options : InstallOptions.t)
    (template : Template) (values : gmap text text) (w : World) :
  forall e w', materialize spawn fuel options template values w <> (Threw e, w').
Proof.
  intros e w'. unfold materialize, tryCatch.
  destruct (bind _ _ w) as [[r| |] w1]; unfold ret; congruence.
Qed.

(** X23.  [installTemplate] throws in one case only: when the definition file
    cannot be read.  Every other failure is returned as a result. *)
Theorem installTemplate_throws_only_on_the_definition (fuel : nat)
    (options : InstallOptions.t) (w w' : World) (e : text) :
  installTemplate URL_parses spawn fuel options w = (Threw e, w') ->
  nodeAt (InstallOptions.templatePath options ++ [str ".klore"]) w = Some Dir
  /\ e = str "EISDIR" /\ w' = w.
Proof.
  unfold installTemplate, bind. rewrite readKloreFile_run.
  destruct (nodeAt (InstallOptions.templatePath options ++ [str ".klore"]) w)
    as [[content|]|] eqn:Ek.
  - unfold existsSync.
    destruct (_ && _); [done|].
    destruct (InstallOptions.values options) as [values|].
    + unfold ret. intros H. by apply materialize_catches in H.
    + destruct (keepsFiles_promptVariables URL_parses
                  (parseFrom false (contentLines content) emptyTemplate) None w)
        as (_ & _ & r & Hr).
      destruct (promptVariables URL_parses _ None w) as [o w1]. cbn [fst] in Hr. subst o.
      destruct r as [values|]; [|done].
      intros H. by apply materialize_catches in H.
  - by intros [= <- <-].
  - done.
Qed.

End Commands.

Lemma installTemplate_throws_only_on_the_definition_witness :
  installTemplate (fun _ => false) quietSpawn 8 exampleOptions unreadableWorld
  = (Threw (str "EISDIR"), unreadableWorld)
  /\ nodeAt (InstallOptions.templatePath exampleOptions ++ [str ".klore"]) unreadableWorld
     = Some Dir.
Proof.
  assert (installTemplate (fun _ => false) quietSpawn 8 exampleOptions unreadableWorld
          = (Threw (str "EISDIR"), unreadableWorld)) as Hrun by (vm_compute; reflexivity).
  split; [exact Hrun|].
  apply (installTemplate_throws_only_on_the_definition (fun _ => false) quietSpawn 8
           exampleOptions unreadableWorld unreadableWorld (str "EISDIR") Hrun).
Defined.

(** A shell in which every command fails. *)
Definition failingSpawn (cmd : text) (cwd : path) (f : gmap path node)
  : gmap path node * option nat := (f, Some 1).

Lemma runPostInstall_stops_at_the_first_failure_witness :
  runPostInstall failingSpawn ([str "npm install"] ++ [str "npm run build"]) [str "out"] exampleWorld
  = (Threw (str "Command failed with code 1"), exampleWorld).
Proof.
  apply (runPostInstall_stops_at_the_first_failure failingSpawn
           [str "npm install"] [str "npm run build"] [str "out"] exampleWorld exampleWorld
           (str "Command failed with code 1")).
  vm_compute. reflexivity.
Defined.

Lemma materialize_succeeds_after_the_copy_witness :
  let values : gmap text text := {[ str "companyName" := str "Zenith" ]} in
  let w := mkWorld exampleFiles [] [Some true] in
  exists errors w2,
    materialize failingSpawn 8 exampleOptions fullTemplate values w
    = (Returned (InstallResult.mk true [str "out"] 2 1 errors), w2)
    /\ length errors <= 1.
Proof.
  apply (materialize_succeeds_after_the_copy failingSpawn 8 exampleOptions fullTemplate
           {[ str "companyName" := str "Zenith" ]} (mkWorld exampleFiles [] [Some true])
           (copyWithReplacements 8 [str "tpl"] [str "out"]
              (KloreTemplate.replacements fullTemplate)
              {[ str "companyName" := str "Zenith" ]}
              (mkWorld exampleFiles [] [Some true])).2 (2, 1)).
  vm_compute. reflexivity.
Defined.

(** ** Installs that write nothing *)

Section Refusals.

Variable URL_parses : text -> bool.
Variable spawn : text -> path -> gmap path node -> gmap path node * option nat.
Variable resolve : text -> path.

(** X24.  Without a definition file in the template directory nothing is asked
    and nothing is written: [installTemplate] returns a failure, and the
    [install] command exits with code 1. *)
Theorem install_without_definition (fuel : nat) (options : InstallOptions.t)
    (templatePath : text) (output : option text) (force defaults : option bool) (w : World) :
  nodeAt (InstallOptions.templatePath options ++ [str ".klore"]) w = None ->
  resolve templatePath = InstallOptions.templatePath options ->
  installTemplate URL_parses spawn fuel options w
  = (Returned (failed options (str "No .klore file found in template directory")), w)
  /\ installAction URL_parses spawn resolve fuel templatePath output force defaults w
     = (Returned (Exit 1), w).
Proof.
  intros Hk Hr. split.
  - unfold installTemplate, bind. by rewrite readKloreFile_run, Hk.
  - unfold installAction, tryCatch, bind. by rewrite Hr, readKloreFile_run, Hk.
Qed.

(** X25.  When a prompt for a variable is cancelled, [installTemplate] returns
    a failure and the file system is as it was: the copy has not begun. *)
Theorem installTemplate_cancelled (fuel : nat) (options : InstallOptions.t)
    (content : text) (template : Template) (w : World) :
  nodeAt (InstallOptions.templatePath options ++ [str ".klore"]) w = Some (File content) ->
  parseKlore content = Some template ->
  nodeAt (InstallOptions.outputPath options) w = None
  \/ InstallOptions.force options = Some true ->
  InstallOptions.values options = None ->
  (promptVariables URL_parses template None w).1 = Returned None ->
  (installTemplate URL_parses spawn fuel options w).1
  = Returned (failed options (str "Installation cancelled by user"))
  /\ fs (installTemplate URL_parses spawn fuel options w).2 = fs w.
Proof.
  intros Hk Hparse Hgo Hv Hc.
  destruct (parseKlore_returns content) as [Hp _]. rewrite Hparse in Hp. injection Hp as ->.
  destruct (keepsFiles_promptVariables URL_parses
              (parseFrom false (contentLines content) emptyTemplate) None w) as (Hf & _ & _).
  unfold installTemplate, bind. rewrite readKloreFile_run, Hk. unfold existsSync.
  assert (match nodeAt (InstallOptions.outputPath options) w with
          | Some _ => true
          | None => false
          end && negb (default false (InstallOptions.force options)) = false) as ->.
  { destruct Hgo as [-> | ->]; [done|]. cbn. apply andb_false_r. }
  rewrite Hv.
  destruct (promptVariables URL_parses _ None w) as [o w1]. cbn [fst snd] in *. subst o.
  done.
Qed.

End Refusals.

Lemma install_without_definition_witness :
  let options := InstallOptions.mk [str "empty"] [str "out"] None None in
  installTemplate (fun _ => false) quietSpawn 8 options exampleWorld
  = (Returned (failed options (str "No .klore file found in template directory")), exampleWorld)
  /\ installAction (fun _ => false) quietSpawn resolveAbsolute 8 (str "/empty") None None None
       exampleWorld
     = (Returned (Exit 1), exampleWorld).
Proof.
  apply (install_without_definition (fun _ => false) quietSpawn resolveAbsolute 8
           (InstallOptions.mk [str "empty"] [str "out"] None None) (str "/empty")
           None None None exampleWorld);
    vm_compute; reflexivity.
Defined.

Lemma installTemplate_cancelled_witness :
  let w := mkWorld exampleFiles [None] [] in
  (installTemplate (fun _ => false) quietSpawn 8 exampleOptions w).1
  = Returned (failed exampleOptions (str "Installation cancelled by user"))
  /\ fs (installTemplate (fun _ => false) quietSpawn 8 exampleOptions w).2 = fs w.
Proof.
  apply (installTemplate_cancelled (fun _ => false) quietSpawn 8 exampleOptions
           exampleDefinition exampleTemplate (mkWorld exampleFiles [None] []));
    [vm_compute; reflexivity|vm_compute; reflexivity|left; vm_compute; reflexivity
    |reflexivity|vm_compute; reflexivity].
Defined.

(** ** Where the copy writes *)

(** Every entry that exists outside [dest] is in [w'] what it was in
    [w]. *)
Definition untouchedOutside (dest : path) (w w' : World) : Prop :=
  forall p n, bool_decide (dest `prefix_of` p) = false ->
              fs w !! p = Some n -> fs w' !! p = Some n.

Definition confined {A} (dest : path) (c : M A) : Prop :=
  forall w, untouchedOutside dest w (c w).2.

Lemma untouchedOutside_refl dest w : untouchedOutside dest w w.
Proof. by intros p n _ H. Qed.

Lemma untouchedOutside_trans dest w1 w2 w3 :
  untouchedOutside dest w1 w2 -> untouchedOutside dest w2 w3 -> untouchedOutside dest w1 w3.
Proof. intros H12 H23 p n Hp H. apply H23; [done|]. by apply H12. Qed.

Lemma confined_bind {A B} dest (c : M A) (k : A -> M B) :
  confined dest c -> (forall a, confined dest (k a)) -> confined dest (bind c k).
Proof.
  intros Hc Hk w. unfold bind. specialize (Hc w).
  destruct (c w) as [[a|e|] w1]; cbn [snd] in *; try done.
  eapply untouchedOutside_trans; [exact Hc|apply Hk].
Qed.

Lemma confined_ret {A} dest (a : A) : confined dest (ret a).
Proof. intros w. apply untouchedOutside_refl. Qed.

Lemma confined_weaken {A} dest name (c : M A) :
  confined (dest ++ [name]) c -> confined dest c.
Proof.
  intros H w p n Hp. apply H.
  apply bool_decide_eq_false. apply bool_decide_eq_false in Hp.
  intros [k Hk]. apply Hp. exists ([name] ++ k). by rewrite Hk, <- app_assoc.
Qed.

Lemma confined_readFile dest p : confined dest (readFile p).
Proof. intros w. unfold readFile. destruct (nodeAt p w) as [[c|]|]; apply untouchedOutside_refl. Qed.

Lemma confined_readdir dest p : confined dest (readdir p).
Proof. intros w. unfold readdir. destruct (nodeAt p w) as [[c|]|]; apply untouchedOutside_refl. Qed.

Lemma confined_writeFile dest name c : confined dest (writeFile (dest ++ [name]) c).
Proof.
  intros w. unfold writeFile.
  destruct (nodeAt (removelast (dest ++ [name])) w) as [[x|]|];
    try apply untouchedOutside_refl.
  destruct (nodeAt (dest ++ [name]) w) as [[x|]|]; try apply untouchedOutside_refl.
  - intros p n Hp H. cbn. rewrite lookup_insert_ne; [done|].
    intros <-. apply bool_decide_eq_false in Hp. apply Hp. by exists [name].
  - intros p n Hp H. cbn. rewrite lookup_insert_ne; [done|].
    intros <-. apply bool_decide_eq_false in Hp. apply Hp. by exists [name].
Qed.

Lemma mkdirFrom_keeps (todo : path) : forall done f f',
  mkdirFrom done todo f = Some f' ->
  forall p n, f !! p = Some n -> f' !! p = Some n.
Proof.
  induction todo as [|x r IH]; intros done' f f'; cbn [mkdirFrom].
  - by intros [= <-].
  - destruct (f !! (done' ++ [x])) as [[c|]|] eqn:E; [done|apply IH|].
    intros H p n Hp. apply (IH _ _ _ H). rewrite lookup_insert_ne; [done|].
    intros <-. congruence.
Qed.

Lemma confined_mkdir dest p : confined dest (mkdir p).
Proof.
  intros w. unfold mkdir. destruct (mkdirFrom [] p (fs w)) as [f|] eqn:E.
  - intros q n _ H. cbn. by apply (mkdirFrom_keeps _ _ _ _ E).
  - apply untouchedOutside_refl.
Qed.

Lemma confined_processDir (replacements : list KloreReplacement.t)
    (values : gmap text text) (fuel : nat) :
  forall src dest counts,
    confined dest (processDir fuel replacements values src dest counts).
Proof.
  induction fuel as [|f IH]; intros src dest counts.
  - intros w. apply untouchedOutside_refl.
  - cbn [processDir]. apply confined_bind; [apply confined_readdir|]. intros entries.
    apply confined_bind; [apply confined_mkdir|]. intros _.
    revert counts. induction entries as [|[name isDirectory] rest IHe]; intros counts.
    + apply confined_ret.
    + destruct (elemT name excludeNames); [apply IHe|].
      destruct isDirectory.
      * apply confined_bind; [|intros counts'; apply IHe].
        apply (confined_weaken dest name), IH.
      * destruct (isTextFile name).
        -- apply confined_bind; [apply confined_readFile|]. intros content.
           apply confined_bind; [apply confined_writeFile|]. intros _. apply IHe.
        -- apply confined_bind; [|intros _; apply IHe].
           unfold copyFile. apply confined_bind; [apply confined_readFile|].
           intros content. apply confined_writeFile.
Qed.

(** X20.  On a tree of directories and regular files, each under one path
    (no symbolic link and no hard link), the copy changes no entry that
    exists outside the output directory: also when it fails half-way, a
    file of the template or of any other place is afterwards what it was
    before, unless the output directory holds it. *)
Theorem copyWithReplacements_writes_under_the_output (fuel : nat) (srcDir destDir : path)
    (replacements : list KloreReplacement.t) (values : gmap text text)
    (w : World) (p : path) (n : node) :
  bool_decide (destDir `prefix_of` p) = false ->
  fs w !! p = Some n ->
  fs (copyWithReplacements fuel srcDir destDir replacements values w).2 !! p = Some n.
Proof.
  intros Hp Hn. unfold copyWithReplacements.
  by apply (confined_processDir replacements values fuel srcDir destDir (0, 0) w p n).
Qed.

Lemma copyWithReplacements_writes_under_the_output_witness :
  fs (copyWithReplacements 8 [str "tpl"] [str "out"]
        [KloreReplacement.mk (str "Acme") (str "companyName") [str "**/*"]]
        {[ str "companyName" := str "Zenith" ]} exampleWorld).2
    !! [str "tpl"; str "index.html"]
  = Some (File (str "<h1>Welcome to Acme</h1>")).
Proof.
  apply (copyWithReplacements_writes_under_the_output 8 [str "tpl"] [str "out"]
           [KloreReplacement.mk (str "Acme") (str "companyName") [str "**/*"]]
           {[ str "companyName" := str "Zenith" ]} exampleWorld
           [str "tpl"; str "index.html"] (File (str "<h1>Welcome to Acme</h1>")));
    vm_compute; reflexivity.
Defined.

(** ** Files that the copy does not read as text *)

Lemma nodeAt_snoc (p : path) (x : text) (w : World) : nodeAt (p ++ [x]) w = fs w !! (p ++ [x]).
Proof. unfold nodeAt. by destruct p. Qed.

Definition isDir (n : node) : bool := match n with Dir => true | File _ => false end.

(** The entries that [readdir] lists are the nodes one step below the
    directory. *)
Lemma In_entriesOf (p : path) (f : gmap path node) (name : text) (d : bool) :
  In (name, d) (entriesOf p f)
  <-> exists n, f !! (p ++ [name]) = Some n /\ d = isDir n.
Proof.
  unfold entriesOf. rewrite <- list_elem_of_In, list_elem_of_omap. split.
  - intros ([q n] & Hq%elem_of_map_to_list & H).
    destruct (last q) as [x|] eqn:El; [|done].
    destruct (bool_decide (removelast q = p)) eqn:Ep; [|done].
    apply bool_decide_eq_true in Ep. injection H as -> <-.
    apply last_Some in El as [q' ->]. rewrite removelast_last in Ep. subst q'.
    exists n. split; [done|]. by destruct n.
  - intros (n & Hn & ->). exists (p ++ [name], n). split; [by apply elem_of_map_to_list|].
    rewrite last_snoc, removelast_last, bool_decide_eq_true_2 by done. by destruct n.
Qed.

Lemma prefix_snoc_inv (dest : path) (n name : text) :
  (dest ++ [n]) `prefix_of` (dest ++ [name]) -> n = name.
Proof.
  intros [k Hk]. rewrite <- app_assoc in Hk. apply app_inv_head in Hk.
  by injection Hk as ->.
Qed.

Section Verbatim.

Variable replacements : list KloreReplacement.t.
Variable values : gmap text text.
Variables src dest : path.
Variable name : text.
Variable content : text.

Hypothesis plain : isTextFile name = false.
Hypothesis included : elemT name excludeNames = false.
Hypothesis apart : bool_decide (dest `prefix_of` (src ++ [name])) = false.

(** What the loop over the entries keeps: the source file is there, and
    once it has been copied its copy is there. *)
Lemma each_keeps_the_copy (f : nat) (entries : list (text * bool)) :
  forall counts w counts' w',
    (forall d, In (name, d) entries -> d = false) ->
    fs w !! (src ++ [name]) = Some (File content) ->
    In (name, false) entries \/ fs w !! (dest ++ [name]) = Some (File content) ->
    (fix each (entries : list (text * bool)) (counts : nat * nat) : M (nat * nat) :=
       match entries with
       | [] => ret counts
       | (name, isDirectory) :: rest =>
           let srcPath := src ++ [name] in
           let destPath := dest ++ [name] in
           if elemT name excludeNames then each rest counts
           else if isDirectory then
             counts' <- processDir f replacements values srcPath destPath counts ;;
             each rest counts'
           else if isTextFile name then
             content <- readFile srcPath ;;
             let replaced := applyReplacements content replacements values in
             _ <- writeFile destPath replaced ;;
             each rest (S counts.1, if teq content replaced then counts.2 else S counts.2)
           else
             _ <- copyFile srcPath destPath ;;
             each rest (S counts.1, counts.2)
       end) entries counts w = (Returned counts', w') ->
    fs w' !! (dest ++ [name]) = Some (File content).
Proof.
  assert (forall n, dest ++ [n] <> src ++ [name]) as Hne.
  { intros n E. apply bool_decide_eq_false in apart. apply apart. exists [n]. by rewrite E. }
  induction entries as [|[n d] rest IH]; intros counts w counts' w' Hfile Hsrc Hdst.
  - unfold ret. intros [= _ <-]. by destruct Hdst.
  - cbv zeta. destruct (elemT n excludeNames) eqn:Ex.
    { apply IH; [intros d' Hd'; apply Hfile; by right|done|].
      destruct Hdst as [[[= -> _]|?]|?]; [congruence|by left|by right]. }
    destruct d.
    { assert (n <> name) as Hn by (intros ->; by specialize (Hfile true (or_introl eq_refl))).
      unfold bind at 1.
      pose proof (confined_processDir replacements values f (src ++ [n]) (dest ++ [n]) counts w)
        as Hconf.
      destruct (processDir f replacements values (src ++ [n]) (dest ++ [n]) counts w)
        as [[c1|e|] w1]; try done. cbn [snd] in Hconf.
      apply IH; [intros d' Hd'; apply Hfile; by right| |].
      - apply Hconf; [|done]. apply bool_decide_eq_false. intros [k Hk].
        apply bool_decide_eq_false in apart. apply apart. exists ([n] ++ k).
        by rewrite Hk, <- app_assoc.
      - destruct Hdst as [[[=]|?]|Hd]; [by left|right].
        apply Hconf; [|done]. apply bool_decide_eq_false.
        intros Hp%prefix_snoc_inv. done. }
    destruct (isTextFile n) eqn:Et.
    { assert (n <> name) as Hn by (intros ->; congruence).
      unfold bind at 1. unfold readFile. rewrite nodeAt_snoc.
      destruct (fs w !! (src ++ [n])) as [[c|]|]; try done.
      unfold bind at 1. unfold writeFile. rewrite removelast_last, nodeAt_snoc.
      destruct (nodeAt dest w) as [[x|]|]; try done.
      destruct (fs w !! (dest ++ [n])) as [[x|]|] eqn:Ed; try done.
      all: apply IH; [intros d' Hd'; apply Hfile; by right| |];
        cbn [fs set_fs]; rewrite ?lookup_insert_ne by (done || (intros [= ?]%app_inj_tail; done));
        try done.
      all: destruct Hdst as [[[= -> ]|?]|Hd]; [done|by left|right];
        rewrite lookup_insert_ne; [done|]; by intros [_ ?]%app_inj_tail. }
    unfold bind at 1. unfold copyFile, bind, readFile. rewrite nodeAt_snoc.
    destruct (decide (n = name)) as [->|Hn].
    + rewrite Hsrc. unfold writeFile. rewrite removelast_last, nodeAt_snoc.
      destruct (nodeAt dest w) as [[x|]|]; try done.
      destruct (fs w !! (dest ++ [name])) as [[x|]|] eqn:Ed; try done.
      all: apply IH; [intros d' Hd'; apply Hfile; by right| |];
        cbn [fs set_fs].
      all: try (rewrite lookup_insert_ne by done; done).
      all: right; by rewrite lookup_insert_eq.
    + destruct (fs w !! (src ++ [n])) as [[c|]|]; try done.
      unfold writeFile. rewrite removelast_last, nodeAt_snoc.
      destruct (nodeAt dest w) as [[x|]|]; try done.
      destruct (fs w !! (dest ++ [n])) as [[x|]|] eqn:Ed; try done.
      all: apply IH; [intros d' Hd'; apply Hfile; by right| |];
        cbn [fs set_fs]; rewrite ?lookup_insert_ne by (done || (intros [= ?]%app_inj_tail; done));
        try done.
      all: destruct Hdst as [[[= -> ]|?]|Hd]; [done|by left|right];
        rewrite lookup_insert_ne; [done|]; by intros [_ ?]%app_inj_tail.
Qed.

End Verbatim.

(** X19.  A file whose name has no dot, or whose only dot is its first
    character (LICENSE, Makefile, .env, .htaccess), is not read as text:
    unless its name is one of the excluded ones, a copy that returns has
    put it into the output directory under its name with the content
    that it had, whatever the replacements and the values are.  (The
    tree holds directories and regular files only, and the file of the
    template is not inside the output directory.) *)
Theorem copy_keeps_files_without_extension (fuel : nat) (srcDir destDir : path)
    (replacements : list KloreReplacement.t) (values : gmap text text)
    (w w' : World) (counts : nat * nat) (stem name content : text) :
  dotFree stem = true ->
  name = stem \/ name = "." :: stem ->
  elemT name excludeNames = false ->
  fs w !! (srcDir ++ [name]) = Some (File content) ->
  bool_decide (destDir `prefix_of` (srcDir ++ [name])) = false ->
  copyWithReplacements fuel srcDir destDir replacements values w = (Returned counts, w') ->
  isTextFile name = false
  /\ fs w' !! (destDir ++ [name]) = Some (File content).
Proof.
  intros Hstem Hname Hex Hfile Hapart Hrun.
  assert (isTextFile name = false) as Hplain.
  { destruct (isTextFile_dotFree stem Hstem) as [H1 H2]. by destruct Hname as [->| ->]. }
  split; [done|].
  unfold copyWithReplacements in Hrun. destruct fuel as [|f]; [done|].
  cbn [processDir] in Hrun. unfold bind at 1 in Hrun. unfold readdir in Hrun.
  destruct (nodeAt srcDir w) as [[x|]|]; try done.
  unfold bind at 1 in Hrun. unfold mkdir in Hrun.
  destruct (mkdirFrom [] destDir (fs w)) as [f1|] eqn:Em; [|done].
  apply (each_keeps_the_copy replacements values srcDir destDir name content
           Hplain Hex Hapart f _ _ _ _ _) in Hrun; [done| | |].
  - intros d [n [Hn ->]]%In_entriesOf. rewrite Hfile in Hn. by injection Hn as <-.
  - cbn [fs set_fs]. by apply (mkdirFrom_keeps _ _ _ _ Em).
  - left. apply In_entriesOf. by exists (File content).
Qed.

Lemma copy_keeps_files_without_extension_witness :
  let w := mkWorld (<[[str "tpl"; str ".env"] := File (str "APP_NAME=Acme")]> exampleFiles) [] [] in
  let run := copyWithReplacements 8 [str "tpl"] [str "out"]
               [KloreReplacement.mk (str "Acme") (str "companyName") [str "**/*"]]
               {[ str "companyName" := str "Zenith" ]} w in
  run.1 = Returned (3, 1)
  /\ isTextFile (str ".env") = false
  /\ fs run.2 !! [str "out"; str ".env"] = Some (File (str "APP_NAME=Acme")).
Proof.
  cbv zeta.
  set (w := mkWorld (<[[str "tpl"; str ".env"] := File (str "APP_NAME=Acme")]> exampleFiles) [] []).
  set (run := copyWithReplacements 8 [str "tpl"] [str "out"]
                [KloreReplacement.mk (str "Acme") (str "companyName") [str "**/*"]]
                {[ str "companyName" := str "Zenith" ]} w).
  assert (run.1 = Returned (3, 1)) as Hret by (vm_compute; reflexivity).
  split; [exact Hret|].
  apply (copy_keeps_files_without_extension 8 [str "tpl"] [str "out"]
           [KloreReplacement.mk (str "Acme") (str "companyName") [str "**/*"]]
           {[ str "companyName" := str "Zenith" ]} w run.2 (3, 1)
           (str "env") (str ".env") (str "APP_NAME=Acme")).
  - vm_compute. reflexivity.
  - right. reflexivity.
  - vm_compute. reflexivity.
  - vm_compute. reflexivity.
  - vm_compute. reflexivity.
  - rewrite <- Hret. apply surjective_pairing.
Defined.

(** ** The basic extraction *)

Lemma distinctT_snoc (l : list text) (x : text) :
  distinctT (l ++ [x]) = distinctT l && negb (elemT x l).
Proof.
  induction l as [|y l IH]; [done|]. cbn [app distinctT]. rewrite IH.
  unfold elemT. rewrite existsb_app. cbn [existsb]. rewrite orb_false_r, (teq_sym x y).
  destruct (existsb (teq y) l), (teq y x), (distinctT l), (existsb (teq x) l); done.
Qed.

Lemma assoc_elemT {A} (k : text) (l : list (text * A)) :
  match assoc k l with Some _ => true | None => false end = elemT k (map fst l).
Proof.
  induction l as [|[k' v] l IH]; [done|]. cbn [assoc map fst elemT existsb].
  destruct (teq k k'); [done|]. apply IH.
Qed.

Lemma addValue_keys (groups : list valueGroup) (item : DetectedContent.t) :
  map fst (addValue groups item)
  = if elemT (DetectedContent.value item) (map fst groups) then map fst groups
    else map fst groups ++ [DetectedContent.value item].
Proof.
  unfold addValue. rewrite map_map.
  assert (forall l : list valueGroup,
            map (fun e : valueGroup =>
                   (if teq (DetectedContent.value item) e.1
                    then (e.1, (e.2.1,
                                if elemT (DetectedContent.filePath item) e.2.2 then e.2.2
                                else e.2.2 ++ [DetectedContent.filePath item]))
                    else e).1) l = map fst l) as H.
  { intros l. apply map_ext. intros e. by destruct (teq _ _). }
  rewrite H. rewrite <- assoc_elemT.
  destruct (assoc (DetectedContent.value item) groups); [done|]. by rewrite map_app.
Qed.

(** What the loop that fills [valueGroups] establishes. *)
Record grouped (content : list DetectedContent.t) (groups : list valueGroup) : Prop := {
  grouped_distinct : distinctT (map fst groups) = true;
  grouped_keys : forall x, In x (map fst groups) <-> In x (map DetectedContent.value content);
  grouped_files : forall item, In item content ->
                    exists e, In e groups /\ e.1 = DetectedContent.value item
                              /\ In (DetectedContent.filePath item) e.2.2;
  grouped_nonempty : forall e, In e groups -> e.2.2 <> []
}.

Lemma addValue_In (groups : list valueGroup) (item : DetectedContent.t) (e : valueGroup) :
  In e (addValue groups item) ->
  (e.1 <> DetectedContent.value item /\ In e groups)
  \/ (e.1 = DetectedContent.value item /\ In (DetectedContent.filePath item) e.2.2).
Proof.
  unfold addValue. intros (e0 & <- & Hin)%in_map_iff.
  destruct (teq (DetectedContent.value item) e0.1) eqn:E.
  - right. apply teq_eq in E. split; [done|]. cbn [fst snd].
    destruct (elemT (DetectedContent.filePath item) e0.2.2) eqn:Ef.
    + by apply elemT_In.
    + apply in_app_iff. right. by left.
  - left. apply teq_neq in E. split; [done|].
    destruct (assoc (DetectedContent.value item) groups); [done|].
    apply in_app_iff in Hin as [?|[<-|[]]]; [done|]. by cbn in E.
Qed.

Lemma addValue_grows (groups : list valueGroup) (item : DetectedContent.t) (e : valueGroup) :
  In e groups ->
  exists e', In e' (addValue groups item) /\ e'.1 = e.1
             /\ forall f, In f e.2.2 -> In f e'.2.2.
Proof.
  intros Hin. unfold addValue.
  eexists. split.
  - apply in_map_iff. exists e. split; [reflexivity|].
    destruct (assoc (DetectedContent.value item) groups); [done|].
    apply in_app_iff. by left.
  - destruct (teq (DetectedContent.value item) e.1); [|done]. cbn [fst snd].
    split; [done|]. intros f Hf.
    destruct (elemT (DetectedContent.filePath item) e.2.2); [done|].
    apply in_app_iff. by left.
Qed.

Lemma addValue_has (groups : list valueGroup) (item : DetectedContent.t) :
  exists e, In e (addValue groups item) /\ e.1 = DetectedContent.value item.
Proof.
  assert (In (DetectedContent.value item) (map fst (addValue groups item))) as H.
  { rewrite addValue_keys.
    destruct (elemT (DetectedContent.value item) (map fst groups)) eqn:E.
    - by apply elemT_In.
    - apply in_app_iff. right. by left. }
  apply in_map_iff in H as (e & He & Hin). eauto.
Qed.

Lemma valueGroups_grouped (content : list DetectedContent.t) :
  grouped content (valueGroups content).
Proof.
  unfold valueGroups. induction content as [|item content IH] using rev_ind.
  - split; done.
  - rewrite fold_left_app. cbn [fold_left].
    set (groups := fold_left addValue content []) in *.
    destruct IH as [Hd Hk Hf Hn]. split.
    + rewrite addValue_keys.
      destruct (elemT (DetectedContent.value item) (map fst groups)) eqn:E; [done|].
      by rewrite distinctT_snoc, Hd, E.
    + intros x. rewrite addValue_keys, map_app, in_app_iff. cbn [map In].
      destruct (elemT (DetectedContent.value item) (map fst groups)) eqn:E.
      * rewrite Hk. split; [tauto|]. intros [?|[<-|[]]]; [done|].
        apply Hk. by apply elemT_In.
      * rewrite in_app_iff, Hk. cbn [In]. tauto.
    + intros it [Hin|[<-|[]]]%in_app_iff.
      * destruct (Hf it Hin) as (e & He & Hv & Hp).
        destruct (addValue_grows groups item e He) as (e' & He' & Hv' & Hp').
        exists e'. repeat split; [done|congruence|by apply Hp'].
      * destruct (addValue_has groups item) as (e & He & Hv).
        exists e. repeat split; [done|done|].
        destruct (addValue_In _ _ _ He) as [[? _]|[_ ?]]; done.
    + intros e He. destruct (addValue_In _ _ _ He) as [[_ Hin]|[_ Hin]].
      * by apply Hn.
      * intros Hnil. by rewrite Hnil in Hin.
Qed.

(** The variable and the replacement that the loop over the entries
    pushes for each entry. *)
Fixpoint extracted (varNames : gmap text nat) (entries : list valueGroup)
    : list (KloreVariable.t * KloreReplacement.t) :=
  match entries with
  | [] => []
  | entry :: rest =>
      let baseName := mapContentTypeToVarName entry.2.1 in
      let count := default 0 (varNames !! baseName) in
      let varName := variableName baseName count in
      (KloreVariable.mk varName (mapContentTypeToVarType entry.2.1) entry.1
         (teq entry.2.1 (str "app_name") || teq entry.2.1 (str "email")),
       KloreReplacement.mk entry.1 varName entry.2.2)
      :: extracted (<[baseName := count + 1]> varNames) rest
  end.

Definition withPairs (added : list (KloreVariable.t * KloreReplacement.t))
    (template : Template) : Template :=
  KloreTemplate.set_replacements (KloreTemplate.replacements template ++ map snd added)
    (KloreTemplate.set_variables (KloreTemplate.variables template ++ map fst added) template).

Lemma fold_extractValue (entries : list valueGroup) : forall varNames template,
  (fold_left extractValue entries (varNames, template)).2
  = withPairs (extracted varNames entries) template.
Proof.
  induction entries as [|e es IH]; intros varNames template.
  - destruct template. unfold withPairs. cbn. by rewrite !app_nil_r.
  - cbn [fold_left extracted]. unfold extractValue at 2. cbn [fst snd]. rewrite IH.
    destruct template. unfold withPairs. cbn. by rewrite <- !app_assoc.
Qed.

Lemma useBasicExtraction_withPairs (template : Template) (content : list DetectedContent.t) :
  useBasicExtraction template content
  = withPairs (extracted ∅ (valueGroups content)) template.
Proof. apply fold_extractValue. Qed.

Lemma extracted_originals (entries : list valueGroup) : forall varNames,
  map (fun p => KloreReplacement.original p.2) (extracted varNames entries) = map fst entries.
Proof.
  induction entries as [|e es IH]; intros varNames; [done|].
  cbn [extracted map fst snd]. by rewrite IH.
Qed.

Lemma extracted_pairs (entries : list valueGroup) : forall varNames,
  (forall e, In e entries -> e.2.2 <> []) ->
  Forall (fun p : KloreVariable.t * KloreReplacement.t =>
            KloreVariable.name p.1 = KloreReplacement.variable p.2
            /\ KloreVariable.defaultValue p.1 = KloreReplacement.original p.2
            /\ KloreReplacement.filePatterns p.2 <> [])
    (extracted varNames entries).
Proof.
  induction entries as [|e es IH]; intros varNames Hn; [constructor|].
  cbn [extracted]. constructor.
  - cbn. repeat split. apply Hn. by left.
  - apply IH. intros e' He'. apply Hn. by right.
Qed.

(** *** The names of the variables *)

Definition digitFree (s : text) : bool := forallb (fun c => negb (isDigit c)) s.

Lemma baseName_digitFree (type : text) : digitFree (mapContentTypeToVarName type) = true.
Proof.
  unfold mapContentTypeToVarName.
  repeat match goal with |- context [teq ?a ?b] => destruct (teq a b) end; reflexivity.
Qed.

Lemma uint_digits (d : Decimal.uint) :
  forallb isDigit (str (DecimalString.NilEmpty.string_of_uint d)) = true.
Proof. induction d; cbn [DecimalString.NilEmpty.string_of_uint str list_ascii_of_string forallb]; try done. Qed.

Lemma to_uint_nonnil (n : nat) : Nat.to_uint n <> Decimal.Nil.
Proof.
  rewrite <- (DecimalNat.Unsigned.of_to n) at 1. rewrite DecimalNat.Unsigned.to_of.
  apply DecimalFacts.unorm_nonnil.
Qed.

Lemma showNat_raw (n : nat) :
  showNat n = str (DecimalString.NilEmpty.string_of_uint (Nat.to_uint n)).
Proof.
  unfold showNat, DecimalString.NilZero.string_of_uint.
  pose proof (to_uint_nonnil n). by destruct (Nat.to_uint n).
Qed.

Lemma showNat_digits (n : nat) : forallb isDigit (showNat n) = true.
Proof. rewrite showNat_raw. apply uint_digits. Qed.

Lemma showNat_notEmpty (n : nat) : showNat n <> [].
Proof.
  rewrite showNat_raw. pose proof (to_uint_nonnil n). by destruct (Nat.to_uint n).
Qed.

Lemma showNat_inj (n m : nat) : showNat n = showNat m -> n = m.
Proof.
  unfold showNat, str. intros H.
  apply (f_equal string_of_list_ascii) in H. rewrite !string_of_list_ascii_of_string in H.
  apply DecimalNat.Unsigned.to_uint_inj.
  pose proof (DecimalString.NilZero.usu _ (to_uint_nonnil n)) as Hn.
  pose proof (DecimalString.NilZero.usu _ (to_uint_nonnil m)) as Hm.
  rewrite H in Hn. congruence.
Qed.

Definition countSuffix (count : nat) : text :=
  if Nat.eqb count 0 then [] else showNat count.

Lemma variableName_suffix (baseName : text) (count : nat) :
  variableName baseName count = baseName ++ countSuffix count.
Proof.
  unfold variableName, countSuffix. destruct (Nat.eqb count 0); [by rewrite app_nil_r|done].
Qed.

Lemma countSuffix_inj (n m : nat) : countSuffix n = countSuffix m -> n = m.
Proof.
  unfold countSuffix.
  destruct (Nat.eqb_spec n 0) as [->|Hn], (Nat.eqb_spec m 0) as [->|Hm]; try done.
  - intros H. symmetry in H. by apply showNat_notEmpty in H.
  - intros H. by apply showNat_notEmpty in H.
  - apply showNat_inj.
Qed.

Lemma span_variableName (baseName : text) (count : nat) :
  digitFree baseName = true ->
  spanOf (fun c => negb (isDigit c)) (variableName baseName count)
  = (baseName, countSuffix count).
Proof.
  intros Hb. rewrite variableName_suffix. apply spanOf_app; [done|].
  unfold countSuffix. destruct (Nat.eqb count 0); [done|].
  pose proof (showNat_digits count) as Hd.
  destruct (showNat count) as [|c s]; [done|]. cbn [forallb] in Hd.
  apply andb_true_iff in Hd as [-> _]. done.
Qed.

Lemma variableName_inj (b b' : text) (n n' : nat) :
  digitFree b = true -> digitFree b' = true ->
  variableName b n = variableName b' n' -> b = b' /\ n = n'.
Proof.
  intros Hb Hb' H. pose proof (span_variableName b n Hb) as E.
  rewrite H, (span_variableName b' n' Hb') in E. injection E as -> E.
  split; [done|]. symmetry. by apply countSuffix_inj.
Qed.

Lemma extracted_names (entries : list valueGroup) : forall varNames,
  distinctT (map (fun p => KloreVariable.name p.1) (extracted varNames entries)) = true
  /\ forall n, In n (map (fun p => KloreVariable.name p.1) (extracted varNames entries)) ->
       exists type k, n = variableName (mapContentTypeToVarName type) k
                      /\ default 0 (varNames !! mapContentTypeToVarName type) <= k.
Proof.
  induction entries as [|e es IH]; intros varNames; [done|].
  cbn [extracted map fst snd KloreVariable.name].
  set (b := mapContentTypeToVarName e.2.1).
  set (k := default 0 (varNames !! b)).
  destruct (IH (<[b := k + 1]> varNames)) as [Hd Hn].
  split.
  - cbn [distinctT]. rewrite Hd, andb_true_r. apply negb_true_iff.
    destruct (elemT (variableName b k) _) eqn:E; [|done]. exfalso.
    apply elemT_In, Hn in E as (ty & k' & Heq & Hle).
    apply variableName_inj in Heq as [Hb ->]; try apply baseName_digitFree.
    rewrite <- Hb, lookup_insert_eq in Hle. cbn in Hle. lia.
  - intros n [<-|Hin].
    + exists e.2.1, k. done.
    + destruct (Hn n Hin) as (ty & k' & -> & Hle). exists ty, k'. split; [done|].
      destruct (decide (b = mapContentTypeToVarName ty)) as [Hb|Hb].
      * rewrite <- Hb, lookup_insert_eq in Hle. cbn in Hle. rewrite <- Hb. fold k. lia.
      * by rewrite lookup_insert_ne in Hle.
Qed.

(** X26.  The basic extraction adds one variable and one replacement for each
    distinct value of the detected content, in pairs: the variable has a
    name of its own among those that are added and the value as its
    default; the replacement stands for that variable, replaces that
    value and lists one file at least.  Nothing else of the template
    changes. *)
Theorem useBasicExtraction_adds_pairs (template : Template)
    (content : list DetectedContent.t) :
  exists added : list (KloreVariable.t * KloreReplacement.t),
    useBasicExtraction template content = withPairs added template
    /\ Forall (fun p : KloreVariable.t * KloreReplacement.t =>
                 KloreVariable.name p.1 = KloreReplacement.variable p.2
                 /\ KloreVariable.defaultValue p.1 = KloreReplacement.original p.2
                 /\ KloreReplacement.filePatterns p.2 <> [])
         added
    /\ distinctT (map (fun p => KloreVariable.name p.1) added) = true
    /\ distinctT (map (fun p => KloreReplacement.original p.2) added) = true
    /\ forall x, In x (map (fun p => KloreReplacement.original p.2) added)
                 <-> In x (map DetectedContent.value content).
Proof.
  destruct (valueGroups_grouped content) as [Hd Hk Hf Hn].
  exists (extracted ∅ (valueGroups content)). split; [apply useBasicExtraction_withPairs|].
  split; [by apply extracted_pairs|]. split; [apply extracted_names|].
  rewrite extracted_originals. by split.
Qed.

Lemma extracted_files (entries : list valueGroup) (e : valueGroup) : forall varNames,
  In e entries ->
  exists r, In r (map snd (extracted varNames entries))
            /\ KloreReplacement.original r = e.1
            /\ KloreReplacement.filePatterns r = e.2.2.
Proof.
  induction entries as [|e0 es IH]; intros varNames; [done|]. intros [->|Hin].
  - eexists. split; [by left|]. done.
  - cbn [extracted map snd].
    destruct (IH (<[mapContentTypeToVarName e0.2.1
                      := default 0 (varNames !! mapContentTypeToVarName e0.2.1) + 1]> varNames) Hin)
      as (r & Hr & Ho & Hp).
    exists r. split; [by right|]. done.
Qed.

(** X27.  Every item of the detected content is covered: a replacement of the
    result replaces its value and lists its file. *)
Theorem useBasicExtraction_covers_the_content (template : Template)
    (content : list DetectedContent.t) (item : DetectedContent.t) :
  In item content ->
  exists r,
    In r (KloreTemplate.replacements (useBasicExtraction template content))
    /\ KloreReplacement.original r = DetectedContent.value item
    /\ In (DetectedContent.filePath item) (KloreReplacement.filePatterns r).
Proof.
  intros Hin. destruct (valueGroups_grouped content) as [_ _ Hf _].
  destruct (Hf item Hin) as (e & He & Hv & Hp).
  destruct (extracted_files _ e ∅ He) as (r & Hr & Ho & Hfp).
  exists r. rewrite useBasicExtraction_withPairs. split.
  - destruct template. cbn. apply in_app_iff. by right.
  - by rewrite Ho, Hfp.
Qed.

(** ** From the basic extraction to the definition and back *)




(** *** The names that the extraction gives *)














Lemma addInstallCommands_fields (packageManagers : list text) : forall template,
  forallb oneLine packageManagers = true ->
  exists commands,
    addInstallCommands packageManagers template
    = KloreTemplate.set_onInstall
        (option_map (fun l => l ++ commands) (KloreTemplate.onInstall template)) template
    /\ forallb oneLine commands = true.
Proof.
  unfold addInstallCommands.
  induction packageManagers as [|pm pms IH]; intros template.
  - intros _. exists []. split; [|done]. destruct template as [? ? ? ? ? ? ? ? ? ? [o|] ?]; cbn;
      by rewrite ?app_nil_r.
  - cbn [forallb fold_left]. intros [Hpm Hpms]%andb_true_iff.
    destruct (elemT pm _).
    + destruct (IH (KloreTemplate.push_onInstall (pm ++ str " install") template) Hpms)
        as (cmds & -> & Hc).
      exists ((pm ++ str " install") :: cmds). split.
      * destruct template as [? ? ? ? ? ? ? ? ? ? [o|] ?]; cbn; by rewrite <- ?app_assoc.
      * cbn [forallb]. by rewrite oneLine_app, Hpm, Hc.
    + destruct (teq pm (str "composer")).
      * destruct (IH (KloreTemplate.push_onInstall (str "composer install") template) Hpms)
          as (cmds & -> & Hc).
        exists (str "composer install" :: cmds). split.
        -- destruct template as [? ? ? ? ? ? ? ? ? ? [o|] ?]; cbn; by rewrite <- ?app_assoc.
        -- cbn [forallb]. by rewrite Hc.
      * by apply IH.
Qed.

Lemma forallb_map_true' {A B} (P : B -> bool) (f : A -> B) (l : list A) :
  (forall x, In x l -> P (f x) = true) -> forallb P (map f l) = true.
Proof.
  intros H. apply forallb_forall. intros y (x & <- & Hx)%in_map_iff. by apply H.
Qed.


(** What a scan of a small shop finds. *)
Definition shopContent : list DetectedContent.t :=
  [DetectedContent.mk (str "app_name") (str "Acme Shop") (str "index.html") 3 10;
   DetectedContent.mk (str "email") (str "hello@acme.test") (str "index.html") 40 12;
   DetectedContent.mk (str "email") (str "sales@acme.test") (str "contact.html") 12 8;
   DetectedContent.mk (str "email") (str "hello@acme.test") (str "contact.html") 30 8].


Lemma useBasicExtraction_covers_the_content_witness :
  exists r,
    In r (KloreTemplate.replacements (useBasicExtraction emptyTemplate shopContent))
    /\ KloreReplacement.original r = str "hello@acme.test"
    /\ In (str "contact.html") (KloreReplacement.filePatterns r).
Proof.
  apply (useBasicExtraction_covers_the_content emptyTemplate shopContent
           (DetectedContent.mk (str "email") (str "hello@acme.test") (str "contact.html") 30 8)).
  vm_compute. tauto.
Defined.

(** ** The smart extraction *)

(** The variable and the replacement that the loop pushes for an item. *)
Definition smartPair (item : ReplaceableContent.t) : KloreVariable.t * KloreReplacement.t :=
  (KloreVariable.mk (ReplaceableContent.suggestedName item) (str "STRING")
     (ReplaceableContent.value item)
     (teq (ReplaceableContent.group item) (str "branding")),
   KloreReplacement.mk (ReplaceableContent.value item)
     (ReplaceableContent.suggestedName item) [ReplaceableContent.filePath item]).

Definition groupAll (groupMap : list (text * list text))
    (items : list ReplaceableContent.t) : list (text * list text) :=
  fold_left (fun gm item => addToGroup gm (ReplaceableContent.group item)
                              (ReplaceableContent.suggestedName item))
    items groupMap.

Lemma fold_addReplaceable (items : list ReplaceableContent.t) : forall template groupMap,
  fold_left addReplaceable items (template, groupMap)
  = (withPairs (map smartPair items) template, groupAll groupMap items).
Proof.
  induction items as [|item items IH]; intros template groupMap.
  - destruct template. unfold withPairs. cbn. by rewrite !app_nil_r.
  - cbn [fold_left map]. unfold addReplaceable at 2. cbn [fst snd]. rewrite IH.
    f_equal. destruct template. unfold withPairs. cbn. by rewrite <- !app_assoc.
Qed.

Lemma useSmartExtraction_fields (template : Template) (projectType description : text)
    (items : list ReplaceableContent.t) :
  useSmartExtraction template projectType description items
  = KloreTemplate.set_aiHints
      (Some [str "Project Type: " ++ projectType; str "Description: " ++ description])
      (KloreTemplate.set_groups (map (fun e => KloreGroup.mk e.1 e.2) (groupAll [] items))
         (withPairs (map smartPair items) template)).
Proof. unfold useSmartExtraction. by rewrite fold_addReplaceable. Qed.

Lemma addToGroup_keys (groupMap : list (text * list text)) (g n : text) :
  map fst (addToGroup groupMap g n)
  = if elemT g (map fst groupMap) then map fst groupMap else map fst groupMap ++ [g].
Proof.
  unfold addToGroup. rewrite <- assoc_elemT.
  destruct (assoc g groupMap).
  - rewrite map_map. apply map_ext. intros e. by destruct (teq g e.1).
  - by rewrite map_app.
Qed.

Lemma addToGroup_In (groupMap : list (text * list text)) (g n : text) (e : text * list text) :
  In e (addToGroup groupMap g n) ->
  forall x, In x e.2 -> (x = n /\ e.1 = g) \/ exists e0, In e0 groupMap /\ e0.1 = e.1 /\ In x e0.2.
Proof.
  unfold addToGroup. destruct (assoc g groupMap).
  - intros (e0 & <- & Hin)%in_map_iff x Hx.
    destruct (teq g e0.1) eqn:E.
    + apply teq_eq in E. cbn [fst snd] in *.
      apply in_app_iff in Hx as [Hx|[<-|[]]]; [right; eauto|by left].
    + right. eauto.
  - intros [Hin|[<-|[]]]%in_app_iff x Hx.
    + right. eauto.
    + left. destruct Hx as [<-|[]]. done.
Qed.

Lemma addToGroup_grows (groupMap : list (text * list text)) (g n : text) (e : text * list text) :
  In e groupMap ->
  exists e', In e' (addToGroup groupMap g n) /\ e'.1 = e.1 /\ forall x, In x e.2 -> In x e'.2.
Proof.
  intros Hin. unfold addToGroup. destruct (assoc g groupMap).
  - eexists. split; [apply in_map_iff; exists e; split; [reflexivity|done]|].
    destruct (teq g e.1); [|done]. cbn [fst snd]. split; [done|].
    intros x Hx. apply in_app_iff. by left.
  - exists e. split; [|done]. apply in_app_iff. by left.
Qed.

Lemma addToGroup_has (groupMap : list (text * list text)) (g n : text) :
  exists e, In e (addToGroup groupMap g n) /\ e.1 = g /\ In n e.2.
Proof.
  unfold addToGroup. destruct (assoc g groupMap) as [l|] eqn:E.
  - assert (In g (map fst groupMap)) as Hin.
    { apply elemT_In. rewrite <- assoc_elemT. by rewrite E. }
    apply in_map_iff in Hin as (e & He & Hin).
    eexists. split; [apply in_map_iff; exists e; split; [reflexivity|done]|].
    rewrite He, teq_refl. cbn [fst snd]. split; [done|]. apply in_app_iff. right. by left.
  - exists (g, [n]). split; [apply in_app_iff; right; by left|]. split; [done|by left].
Qed.

(** What the loop that fills [groupMap] establishes. *)
Record filed (items : list ReplaceableContent.t) (groupMap : list (text * list text)) : Prop := {
  filed_distinct : distinctT (map fst groupMap) = true;
  filed_items : forall item, In item items ->
                  exists e, In e groupMap /\ e.1 = ReplaceableContent.group item
                            /\ In (ReplaceableContent.suggestedName item) e.2;
  filed_names : forall e x, In e groupMap -> In x e.2 ->
                  exists item, In item items
                               /\ ReplaceableContent.suggestedName item = x
                               /\ ReplaceableContent.group item = e.1
}.

Lemma groupAll_filed (items : list ReplaceableContent.t) : filed items (groupAll [] items).
Proof.
  unfold groupAll. induction items as [|item items IH] using rev_ind.
  - split; done.
  - rewrite fold_left_app. cbn [fold_left].
    set (gm := fold_left _ items []) in *. destruct IH as [Hd Hi Hn]. split.
    + rewrite addToGroup_keys.
      destruct (elemT (ReplaceableContent.group item) (map fst gm)) eqn:E; [done|].
      by rewrite distinctT_snoc, Hd, E.
    + intros it [Hin|[<-|[]]]%in_app_iff.
      * destruct (Hi it Hin) as (e & He & Hg & Hx).
        destruct (addToGroup_grows gm (ReplaceableContent.group item)
                    (ReplaceableContent.suggestedName item) e He) as (e' & He' & Hg' & Hx').
        exists e'. repeat split; [done|congruence|by apply Hx'].
      * apply addToGroup_has.
    + intros e x He Hx.
      destruct (addToGroup_In _ _ _ _ He x Hx) as [[-> ->]|(e0 & He0 & Hg0 & Hx0)].
      * exists item. split; [apply in_app_iff; right; by left|done].
      * destruct (Hn e0 x He0 Hx0) as (it & Hit & Hs & Hg). exists it.
        split; [apply in_app_iff; by left|]. split; [done|congruence].
Qed.

Lemma distinctT_inj {A} (f : A -> text) (l : list A) (x y : A) :
  distinctT (map f l) = true -> In x l -> In y l -> f x = f y -> x = y.
Proof.
  induction l as [|z l IH]; [done|]. cbn [map distinctT].
  intros [Hz Hd]%andb_true_iff Hx Hy Hf. apply negb_true_iff in Hz.
  assert (forall u, In u l -> f u <> f z) as Hne.
  { intros u Hu E. assert (elemT (f z) (map f l) = true); [|congruence].
    apply elemT_In, in_map_iff. eauto. }
  destruct Hx as [<-|Hx], Hy as [<-|Hy]; try done.
  - exfalso. by apply (Hne y Hy).
  - exfalso. by apply (Hne x Hx).
  - by apply IH.
Qed.

Section Smart.

Variable template : Template.
Variables projectType description : text.
Variable items : list ReplaceableContent.t.

Hypothesis distinct_names : distinctT (map ReplaceableContent.suggestedName items) = true.

(** With items of distinct names, as the AI service returns them, each
    variable of the smart extraction is filed under the group that came
    with its item, and under no other. *)
Lemma smart_findGroup (item : ReplaceableContent.t) :
  In item items ->
  exists g,
    findGroup (KloreTemplate.groups
                 (useSmartExtraction template projectType description items))
      (ReplaceableContent.suggestedName item) = Some g
    /\ KloreGroup.name g = ReplaceableContent.group item.
Proof.
  intros Hin. rewrite useSmartExtraction_fields.
  assert (KloreTemplate.groups
            (KloreTemplate.set_aiHints
               (Some [str "Project Type: " ++ projectType; str "Description: " ++ description])
               (KloreTemplate.set_groups
                  (map (fun e => KloreGroup.mk e.1 e.2) (groupAll [] items))
                  (withPairs (map smartPair items) template)))
          = map (fun e => KloreGroup.mk e.1 e.2) (groupAll [] items)) as -> by reflexivity.
  destruct (groupAll_filed items) as [Hd Hi Hn].
  unfold findGroup.
  destruct (List.find _ _) as [g|] eqn:E.
  - exists g. split; [done|]. apply find_some in E as [Hg Hx].
    apply in_map_iff in Hg as (e & <- & He). cbn [KloreGroup.name KloreGroup.variables] in *.
    apply elemT_In in Hx. destruct (Hn e _ He Hx) as (it & Hit & Hs & Hg).
    rewrite <- Hg. f_equal.
    by apply (distinctT_inj ReplaceableContent.suggestedName items).
  - exfalso. destruct (Hi item Hin) as (e & He & Hg & Hx).
    assert (In (KloreGroup.mk e.1 e.2)
              (map (fun e => KloreGroup.mk e.1 e.2) (groupAll [] items))) as Hmem.
    { apply in_map_iff. eauto. }
    pose proof (find_none _ _ E _ Hmem) as Hf. cbn [KloreGroup.variables] in Hf.
    apply elemT_In in Hx. congruence.
Qed.

End Smart.

(** X29.  Each item of the smart extraction gives a variable that is filed
    under the group of the item, whatever the template held before. *)
Theorem useSmartExtraction_files_by_group (template : Template)
    (projectType description : text) (items : list ReplaceableContent.t)
    (item : ReplaceableContent.t) :
  distinctT (map ReplaceableContent.suggestedName items) = true ->
  In item items ->
  let result := useSmartExtraction template projectType description items in
  In (smartPair item).1 (KloreTemplate.variables result)
  /\ In (smartPair item).2 (KloreTemplate.replacements result)
  /\ groupNameOf (KloreTemplate.groups result) (smartPair item).1
     = ReplaceableContent.group item.
Proof.
  intros Hd Hin. cbv zeta.
  destruct (smart_findGroup template projectType description items Hd item Hin) as (g & Hg & Hn).
  unfold groupNameOf. cbn [smartPair fst KloreVariable.name]. rewrite Hg, Hn.
  rewrite useSmartExtraction_fields. destruct template. cbn.
  rewrite !in_app_iff. repeat split; try done.
  - right. apply in_map_iff. exists (smartPair item). split; [done|]. by apply in_map.
  - right. apply in_map_iff. exists (smartPair item). split; [done|]. by apply in_map.
Qed.

(** ** From the smart extraction to the definition *)

(** An item whose group the generator does not know. *)
Definition foreignItem (item : ReplaceableContent.t) : bool :=
  notEmpty (ReplaceableContent.group item)
  && negb (elemT (ReplaceableContent.group item) (canonicalKeys ++ [str "General Settings"])).

(** The texts of a project that the generator copies hold no line feed. *)
Definition oneLineProject (name : option text) (baseName : text) (framework : option text)
    (projectType description : text) (items : list ReplaceableContent.t)
    (packageManagers : list text) : bool :=
  oneLine (default [] name) && oneLine baseName && oneLine (default [] framework)
  && oneLine projectType && oneLine description
  && forallb (fun item => oneLine (ReplaceableContent.suggestedName item)
                          && oneLine (ReplaceableContent.filePath item)) items
  && forallb oneLine packageManagers.

(** X30.  The items that the AI service files under groups such as [hero],
    [about], [features] or [footer] do not reach the definition: the
    template that the [create] command builds holds a variable and a
    replacement for each of them, and the definition that it writes is
    read back without any.  (The groups are not named as properties that
    a plain object inherits: under such a name the generator throws, and
    no definition is written.) *)
Theorem create_smart_loses_foreign_groups (name : option text) (baseName : text)
    (framework : option text) (projectType description : text)
    (items : list ReplaceableContent.t) (content : list DetectedContent.t)
    (packageManagers : list text) :
  items <> [] ->
  distinctT (map ReplaceableContent.suggestedName items) = true ->
  forallb foreignItem items = true ->
  oneLineProject name baseName framework projectType description items packageManagers = true ->
  forallb (fun item => ownKey (ReplaceableContent.group item)) items = true ->
  let template := createTemplate name baseName framework
                    (Some (projectType, description, items)) content packageManagers in
  KloreTemplate.variables template = map (fun item => (smartPair item).1) items
  /\ KloreTemplate.replacements template = map (fun item => (smartPair item).2) items
  /\ exists parsed,
       parseKlore (generateKlore template) = Some parsed
       /\ KloreTemplate.variables parsed = []
       /\ KloreTemplate.replacements parsed = [].
Proof.
  intros Hne Hd Hf Hone _. cbv zeta. unfold oneLineProject in Hone.
  rewrite !andb_true_iff in Hone.
  destruct Hone as [[[[[[Hname Hbase] Hfw] Hpt] Hdesc] Hitems] Hpms].
  unfold createTemplate. cbv zeta.
  set (base := KloreTemplate.mk _ _ _ _ _ _ _ _ _ _ _ _).
  destruct items as [|item0 items0] eqn:Eitems; [done|]. rewrite <- Eitems in *. clear Hne.
  assert (match items with
          | [] => useBasicExtraction base content
          | _ :: _ => useSmartExtraction base projectType description items
          end = useSmartExtraction base projectType description items) as Hsmart
    by (by rewrite Eitems).
  rewrite Eitems at 1. rewrite <- Eitems. clear Eitems item0 items0.
  destruct (addInstallCommands_fields packageManagers
              (useSmartExtraction base projectType description items) Hpms)
    as (commands & -> & Hcommands).
  assert (KloreTemplate.groups (useSmartExtraction base projectType description items)
          = map (fun e => KloreGroup.mk e.1 e.2) (groupAll [] items)) as Egroups.
  { by rewrite useSmartExtraction_fields. }
  pose proof (smart_findGroup base projectType description items Hd) as Hfind.
  rewrite Egroups in Hfind.
  rewrite useSmartExtraction_fields.
  set (template := KloreTemplate.set_onInstall _ _).
  assert (KloreTemplate.variables template = map (fun item => (smartPair item).1) items) as Ev.
  { cbn. by rewrite map_map. }
  assert (KloreTemplate.replacements template = map (fun item => (smartPair item).2) items) as Er.
  { cbn. by rewrite map_map. }
  assert (KloreTemplate.groups template
          = map (fun e => KloreGroup.mk e.1 e.2) (groupAll [] items)) as Eg by reflexivity.
  split; [done|]. split; [done|].
  rewrite forallb_forall in Hf, Hitems.
  assert (singleLine template = true) as Hs.
  { unfold singleLine. rewrite Ev, Er. rewrite !andb_true_iff. repeat split.
    - cbn. destruct name as [[|c n]|]; cbn in *; try done; by rewrite oneLine_app, Hbase.
    - destruct framework as [[|c f]|]; cbn in *; done.
    - assert (KloreTemplate.aiHints template
              = Some [str "Project Type: " ++ projectType; str "Description: " ++ description])
        as -> by reflexivity.
      cbn [default from_option id forallb]. by rewrite !oneLine_app, Hpt, Hdesc.
    - apply forallb_map_true'. intros it Hit. specialize (Hitems it Hit).
      by apply andb_true_iff in Hitems as [? _].
    - apply forallb_map_true'. intros it Hit. specialize (Hitems it Hit).
      apply andb_true_iff in Hitems as [Hn Hp].
      cbn [smartPair snd KloreReplacement.variable KloreReplacement.filePatterns forallb].
      by rewrite Hn, Hp.
    - cbn. exact Hcommands. }
  assert (foreignGroups template = true) as Hforeign.
  { unfold foreignGroups. rewrite Ev, Er, Eg. apply andb_true_iff. split.
    - apply forallb_map_true'. intros it Hit.
      destruct (Hfind it Hit) as (g & Hg & Hn).
      unfold groupNameOf. cbn [smartPair fst KloreVariable.name].
      rewrite Hg, Hn. specialize (Hf it Hit). by apply andb_true_iff in Hf as [_ ?].
    - apply forallb_map_true'. intros it Hit.
      destruct (Hfind it Hit) as (g & Hg & Hn).
      unfold replacementGroupOf. cbn [smartPair snd KloreReplacement.variable].
      rewrite Hg, Hn. specialize (Hf it Hit). apply andb_true_iff in Hf as [Hne Hf].
      destruct (ReplaceableContent.group it) as [|c gname] eqn:Egr; [done|]. cbn [orText].
      apply negb_true_iff. apply negb_true_iff in Hf.
      destruct (elemT (c :: gname) canonicalKeys) eqn:E; [|done].
      apply elemT_In in E. assert (In (c :: gname) (canonicalKeys ++ [str "General Settings"])) as E'
        by (apply in_app_iff; by left).
      apply elemT_In in E'. congruence. }
  destruct (parseKlore_generateKlore template Hs) as (parsed & Hp & Hpv & Hpr & _).
  destruct (foreignGroups_nothing_written template Hforeign) as [Ea Err].
  exists parsed. split; [done|]. by rewrite Hpv, Hpr, Ea, Err.
Qed.

(** Two items as the prompt of the AI service shows them. *)
Definition heroItems : list ReplaceableContent.t :=
  [ReplaceableContent.mk (str "rich_text") (str "Fashion for you") (str "hero section")
     (str "heroTitle") (str "hero") (str "resources/views/welcome.blade.php");
   ReplaceableContent.mk (str "text") (str "Find your style here.") (str "hero section")
     (str "heroSubtitle") (str "hero") (str "resources/views/welcome.blade.php")].

Lemma create_smart_loses_foreign_groups_witness :
  let template := createTemplate None (str "shop") (Some (str "laravel"))
                    (Some (str "e-commerce", str "A fashion shop", heroItems)) []
                    [str "composer"] in
  KloreTemplate.variables template = map (fun item => (smartPair item).1) heroItems
  /\ KloreTemplate.replacements template = map (fun item => (smartPair item).2) heroItems
  /\ exists parsed,
       parseKlore (generateKlore template) = Some parsed
       /\ KloreTemplate.variables parsed = []
       /\ KloreTemplate.replacements parsed = [].
Proof.
  apply (create_smart_loses_foreign_groups None (str "shop") (Some (str "laravel"))
           (str "e-commerce") (str "A fashion shop") heroItems [] [str "composer"]);
    [discriminate|vm_compute; reflexivity..].
Defined.

Lemma useSmartExtraction_files_by_group_witness :
  let item := ReplaceableContent.mk (str "text") (str "Find your style here.")
                (str "hero section") (str "heroSubtitle") (str "hero")
                (str "resources/views/welcome.blade.php") in
  let result := useSmartExtraction emptyTemplate (str "e-commerce") (str "A fashion shop")
                  heroItems in
  In (smartPair item).1 (KloreTemplate.variables result)
  /\ In (smartPair item).2 (KloreTemplate.replacements result)
  /\ groupNameOf (KloreTemplate.groups result) (smartPair item).1
     = ReplaceableContent.group item.
Proof.
  apply (useSmartExtraction_files_by_group emptyTemplate (str "e-commerce")
           (str "A fashion shop") heroItems
           (ReplaceableContent.mk (str "text") (str "Find your style here.")
              (str "hero section") (str "heroSubtitle") (str "hero")
              (str "resources/views/welcome.blade.php"))).
  - vm_compute. reflexivity.
  - vm_compute. tauto.
Defined.

(** ** A VAR line *)

(** A word that [\S+] matches whole and that opens neither a quoted
    token nor a bracketed one. *)
Definition plainWord (w : text) : bool :=
  match w with
  | c :: _ => negb (isQuote c) && negb (ceq c "[")
  | [] => false
  end
  && forallb (fun c => negb (isSpace c)) w.








(** ** What the tokens of a line are *)

(** A text that opens with [opening] and closes with the first [closing]
    after it. *)
Definition delimited (opening closing : ascii) (t : text) : bool :=
  match t with
  | c :: r =>
      ceq c opening
      && match rev r with
         | e :: body => ceq e closing && forallb (fun x => negb (ceq x closing)) body
         | [] => false
         end
  | [] => false
  end.

(** What the tokenizer takes for one token: a plain word, a text in
    double or in single quotes, or a bracketed list on one line. *)
Definition tokenShaped (t : text) : bool :=
  plainWord t
  || delimited dq dq t
  || delimited "'" "'" t
  || delimited "[" "]" t && forallb isDot t.

(** Tokens, each with the white space that follows it: a token that is
    not the last one is followed by some. *)
Fixpoint wellSpaced (items : list (text * text)) : bool :=
  match items with
  | [] => true
  | (tok, gap) :: rest =>
      tokenShaped tok && forallb isSpace gap
      && (notEmpty gap || match rest with [] => true | _ => false end)
      && wellSpaced rest
  end.

Definition layout (items : list (text * text)) : text :=
  concat (map (fun item => item.1 ++ item.2) items).

Lemma delimited_spec (opening closing : ascii) (t : text) :
  delimited opening closing t = true ->
  exists body, t = opening :: body ++ [closing]
               /\ forallb (fun x => negb (ceq x closing)) body = true.
Proof.
  unfold delimited. destruct t as [|c r]; [done|].
  intros [->%ceq_eq H]%andb_true_iff.
  destruct (rev r) as [|e body] eqn:E; [done|].
  apply andb_true_iff in H as [->%ceq_eq Hb].
  exists (rev body). split.
  - f_equal. rewrite <- (rev_involutive r), E. reflexivity.
  - by rewrite forallb_rev.
Qed.

Lemma tokenizeFrom_spaces (ws s : text) :
  forallb isSpace ws = true -> tokenizeFrom 0 (ws ++ s) = tokenizeFrom 0 s.
Proof.
  induction ws as [|c ws IH]; [done|]. cbn [forallb app tokenizeFrom].
  intros [-> Hws]%andb_true_iff. by apply IH.
Qed.

Lemma tokenizeFrom_token (c : ascii) (x rest : text) :
  isSpace c = false ->
  tokenAt c (x ++ rest) = c :: x ->
  tokenizeFrom 0 (c :: x ++ rest) = (c :: x) :: tokenizeFrom 0 rest.
Proof.
  intros Hc Ht. cbn [tokenizeFrom]. rewrite Hc, Ht. f_equal.
  cbn [length]. replace (S (length x) - 1) with (length x) by lia.
  apply tokenizeFrom_skip.
Qed.

(** A token at the start of a text that goes on with white space, or
    ends there, is the first token of the text. *)
Lemma tokenize_tokenShaped (t rest : text) :
  tokenShaped t = true ->
  match rest with c :: _ => isSpace c = true | [] => True end ->
  tokenizeFrom 0 (t ++ rest) = t :: tokenizeFrom 0 rest.
Proof.
  unfold tokenShaped. rewrite !orb_true_iff. intros [[[Hw|Hd]|Hs]|Hb] Hrest.
  - unfold plainWord in Hw. destruct t as [|c w]; [done|].
    apply andb_true_iff in Hw as [[Hq Hbr]%andb_true_iff Hw].
    apply negb_true_iff in Hq, Hbr. unfold isQuote in Hq. apply orb_false_iff in Hq as [Hdq Hsq].
    cbn [forallb] in Hw. apply andb_true_iff in Hw as [Hc Hw]. apply negb_true_iff in Hc.
    cbn [app]. apply tokenizeFrom_token; [done|].
    unfold tokenAt. rewrite Hdq, Hsq, Hbr. rewrite (spanOf_app _ w rest Hw); [done|].
    destruct rest as [|d rest]; [done|]. by rewrite Hrest.
  - apply delimited_spec in Hd as (body & -> & Hbody). cbn [app].
    apply tokenizeFrom_token; [done|]. rewrite <- app_assoc.
    unfold tokenAt. change (isDQuote dq) with true. cbv iota.
    cbn [app]. by rewrite (breakAt_app isDQuote body dq rest) by done.
  - apply delimited_spec in Hs as (body & -> & Hbody). cbn [app].
    apply tokenizeFrom_token; [done|]. rewrite <- app_assoc.
    unfold tokenAt. change (isDQuote "'") with false. change (isSQuote "'") with true. cbv iota.
    cbn [app]. by rewrite (breakAt_app isSQuote body "'" rest) by done.
  - apply andb_true_iff in Hb as [Hb Hdot].
    apply delimited_spec in Hb as (body & -> & Hbody). cbn [app].
    apply tokenizeFrom_token; [done|]. rewrite <- app_assoc.
    unfold tokenAt. change (isDQuote "[") with false. change (isSQuote "[") with false.
    change (ceq "[" "[") with true. cbv iota. cbn [app].
    assert (forallb (fun x => negb (ceq "]" x)) body = true) as Hbody'.
    { revert Hbody. apply forallb_impl. intros c. by rewrite ceq_sym. }
    rewrite (breakAt_app (ceq "]") body "]" rest) by done.
    cbn [forallb] in Hdot. apply andb_true_iff in Hdot as [_ Hdot].
    rewrite forallb_app in Hdot. apply andb_true_iff in Hdot as [-> _]. done.
Qed.

Lemma tokenize_layout (items : list (text * text)) :
  wellSpaced items = true -> tokenizeFrom 0 (layout items) = map fst items.
Proof.
  unfold layout. induction items as [|[tok gap] rest IH]; [done|].
  cbn [wellSpaced map concat fst snd].
  intros [[Ht Hlast]%andb_true_iff Hrest]%andb_true_iff.
  apply andb_true_iff in Ht as [Ht Hg'].
  rewrite <- app_assoc. rewrite tokenize_tokenShaped; [|done|].
  - f_equal. rewrite tokenizeFrom_spaces by done. by apply IH.
  - destruct gap as [|c gap].
    + destruct rest; [done|]. done.
    + cbn [app]. cbn [forallb] in Hg'. by apply andb_true_iff in Hg' as [? _].
Qed.

(** X1.  On a line of 7-bit text the tokens are non-empty and, put end to
    end, they are the line without its white space; and when the line is
    made of plain words, quoted texts and bracketed lists, each followed
    by white space or by the end of the line, the tokens are exactly
    these: white space separates the tokens outside quotes and brackets,
    and belongs to the token inside them. *)
Theorem tokenize_covers_the_line (line : text) :
  sevenBit line = true ->
  Forall (fun tok => notEmpty tok = true) (tokenize line)
  /\ withoutSpaces (concat (tokenize line)) = withoutSpaces line
  /\ forall lead items,
       forallb isSpace lead = true -> wellSpaced items = true ->
       line = lead ++ layout items ->
       tokenize line = map fst items.
Proof.
  intros _. split; [apply tokenize_notEmpty|]. split.
  - by apply (tokenize_cover_bounded (length line)).
  - intros lead items Hl Hi ->. unfold tokenize.
    rewrite tokenizeFrom_spaces by done. by apply tokenize_layout.
Qed.

Lemma tokenize_covers_the_line_witness :
  tokenize (str "  VAR title " ++ quoted (str "My  shop") ++ str "   [a, b] 'x y'")
  = [str "VAR"; str "title"; quoted (str "My  shop"); str "[a, b]"; str "'x y'"].
Proof.
  destruct (tokenize_covers_the_line
              (str "  VAR title " ++ quoted (str "My  shop") ++ str "   [a, b] 'x y'"))
    as (_ & _ & H); [vm_compute; reflexivity|].
  apply (H (str "  ")
           [(str "VAR", str " "); (str "title", str " "); (quoted (str "My  shop"), str "   ");
            (str "[a, b]", str " "); (str "'x y'", [])]);
    vm_compute; reflexivity.
Defined.

(** ** Defaults and repeated names *)

(** X18.  With the defaults option a name that is declared more than once
    resolves to the default of its last declaration, whereas the variable
    that [promptVariables] keeps for it is the first one.  (The name is
    not one that a plain object inherits: under [__proto__] the
    assignment of the default stores nothing.) *)
Theorem defaults_take_the_last_declaration (template : Template)
    (before after : list KloreVariable.t) (v : KloreVariable.t) :
  KloreTemplate.variables template = before ++ v :: after ->
  forallb (fun u => negb (teq (KloreVariable.name u) (KloreVariable.name v))) after = true ->
  ownKey (KloreVariable.name v) = true ->
  defaultValues template !! KloreVariable.name v = Some (KloreVariable.defaultValue v)
  /\ forall u, In u (uniqueVariables [] (KloreTemplate.variables template)) ->
               KloreVariable.name u = KloreVariable.name v ->
               firstNamed (KloreVariable.name v) (KloreTemplate.variables template) = Some u.
Proof.
  intros Hv Ha _. split.
  - apply (defaultValues_lookup template before v after Hv).
    apply Forall_forall. intros u Hu%list_elem_of_In.
    rewrite forallb_forall in Ha. specialize (Ha u Hu). apply negb_true_iff in Ha.
    by apply teq_neq.
  - intros u Hu Hn. apply uniqueVariables_In in Hu as [_ Hf]. by rewrite <- Hn.
Qed.

Lemma defaults_take_the_last_declaration_witness :
  let v := KloreVariable.mk (str "title") (str "STRING") (str "Second") true in
  defaultValues duplicateTemplate !! KloreVariable.name v = Some (KloreVariable.defaultValue v)
  /\ forall u, In u (uniqueVariables [] (KloreTemplate.variables duplicateTemplate)) ->
               KloreVariable.name u = KloreVariable.name v ->
               firstNamed (KloreVariable.name v) (KloreTemplate.variables duplicateTemplate)
               = Some u.
Proof.
  apply (defaults_take_the_last_declaration duplicateTemplate
           [KloreVariable.mk (str "title") (str "STRING") (str "First") false] []
           (KloreVariable.mk (str "title") (str "STRING") (str "Second") true));
    vm_compute; reflexivity.
Defined.

(** ** The required-field gate, in both modes *)



Section Gate.

Variable URL_parses : text -> bool.
Variable spawn : text -> path -> gmap path node -> gmap path node * option nat.










End Gate.



(** A required variable without a default, filed under [maps]. *)
Definition requiredMapTemplate : Template :=
  KloreTemplate.mk (str "Acme Shop") (str "1.0.0") [] [] None None
    [KloreVariable.mk (str "mapAddress") (str "STRING") [] true]
    [KloreGroup.mk (str "maps") [str "mapAddress"]]
    [KloreReplacement.mk (str "1 Main Street") (str "mapAddress") [str "index.html"]]
    [] (Some []) (Some []).

(** Interactive mode does not ask for it: the answer that is ready stays
    unread, and the variable has no value. *)
Lemma required_in_maps_is_not_asked :
  let w := mkWorld ∅ [Some (str "2 Side Street")] [] in
  promptVariables (fun _ => false) requiredMapTemplate None w = (Returned (Some ∅), w).
Proof. vm_compute. reflexivity. Qed.
